(** * duckietown-challenges: a shallow embedding of the evaluation core

    The development follows the Python sources of [duckietown_challenges]:

    - [challenge.py]: the challenge model, the equivalence of service
      definitions and the step-transition engine ([ChallengeTransitions]);
    - [cie_concrete.py]: the evaluator / solution handshake
      ([wrap_evaluator], [wrap_solution]) and score recording;
    - [runner.py]: the download of the artefacts of previous steps.

    Python dictionaries are finite maps ([gmap]); objects that are mutated
    in place live in an explicit store and are passed by reference;
    exceptions are values of a small error monad. *)

From Stdlib Require Import ZArith String Ascii List Lia.
From Stdlib Require Import Floats.SpecFloat.
From stdpp Require Import base option list gmap strings fin_maps.

Open Scope string_scope.
Open Scope list_scope.

(** ** Python exceptions *)

Inductive exn_class :=
| AssertionError
| KeyError
| ValueError
| IOError
| InvalidChallengeDescription
| InvalidConfiguration
| NotEquivalent
| InvalidSubmission
| InvalidEvaluator
| InvalidEnvironment
| Timeout
| CouldNotDownloadAll
| SystemExit
| OtherException.

#[global] Instance exn_class_eq_dec : EqDecision exn_class.
Proof. solve_decision. Defined.

(** An exception: its class and its argument (the message; for a
    [KeyError], the missing key). *)
Record exn := Exn { exn_cls : exn_class; exn_arg : string }.

#[global] Instance exn_eq_dec : EqDecision exn.
Proof. solve_decision. Defined.

Inductive outcome (A : Type) :=
| Return (a : A)
| Raise (e : exn).
Arguments Return {A} a.
Arguments Raise {A} e.

Definition is_return {A} (o : outcome A) : bool :=
  match o with Return _ => true | Raise _ => false end.

Definition raises {A} (c : exn_class) (o : outcome A) : bool :=
  match o with Return _ => false | Raise e => bool_decide (exn_cls e = c) end.

#[global] Instance outcome_ret : MRet outcome := @Return.

#[global] Instance outcome_bind : MBind outcome := fun A B f o =>
  match o with
  | Return a => f a
  | Raise e => Raise e
  end.

Definition throw {A} (c : exn_class) (msg : string) : outcome A :=
  Raise (Exn c msg).

(** ** State and exceptions

    A computation on a state [S] returns a value or raises, and leaves a
    state behind in both cases. *)

Definition SE (S A : Type) : Type := S -> S * outcome A.

#[global] Instance SE_ret S : MRet (SE S) := fun A a s => (s, Return a).

#[global] Instance SE_bind S : MBind (SE S) := fun A B k m s =>
  match m s with
  | (s', Return a) => k a s'
  | (s', Raise e) => (s', Raise e)
  end.

Definition pass {S} : SE S unit := mret tt.

(** [raise c(msg)] and the bare [raise] of an exception at hand. *)
Definition raise {S A} (c : exn_class) (msg : string) : SE S A :=
  fun s => (s, Raise (Exn c msg)).

Definition reraise {S A} (e : exn) : SE S A := fun s => (s, Raise e).

Definition lift {S A} (o : outcome A) : SE S A := fun s => (s, o).

(** [try: body except BaseException as e: handler(e)] *)
Definition try_except {S A} (body : SE S A) (handler : exn -> SE S A) : SE S A :=
  fun s =>
    match body s with
    | (s', Return a) => (s', Return a)
    | (s', Raise e) => handler e s'
    end.

(** [try: body finally: final] *)
Definition try_finally {S A} (body : SE S A) (final : SE S unit) : SE S A :=
  fun s =>
    match body s with
    | (s', r) =>
        match final s' with
        | (s'', Return _) => (s'', r)
        | (s'', Raise e) => (s'', Raise e)
        end
    end.

(** [for x in l: body(x)] *)
Fixpoint for_each {S A} (l : list A) (body : A -> SE S unit) : SE S unit :=
  match l with
  | [] => pass
  | x :: l' => body x ;; for_each l' body
  end.

(** ** Values read from YAML files

    Booleans are the integers 0 and 1 and byte and unicode strings are one
    kind of string, which is how Python compares them; with this, equality
    of values is Python's [==]. *)

Module Yaml.

Inductive yaml :=
| YNull
| YInt (z : Z)
| YStr (s : string)
| YDate (t : Z)
| YList (l : list yaml)
| YDict (d : gmap string yaml).

Fixpoint yaml_size (y : yaml) : nat :=
  match y with
  | YList l => S (foldr (fun v n => yaml_size v + n) 0 l)
  | YDict d => S (map_fold (fun _ v n => yaml_size v + n) 0 d)
  | _ => 1
  end.

(** [==] on values: lists pointwise, dictionaries key by key. *)
Fixpoint yaml_eqb (x y : yaml) : bool :=
  match x, y with
  | YNull, YNull => true
  | YInt a, YInt b => bool_decide (a = b)
  | YStr a, YStr b => bool_decide (a = b)
  | YDate a, YDate b => bool_decide (a = b)
  | YList l1, YList l2 =>
      (fix go (l1 l2 : list yaml) : bool :=
         match l1, l2 with
         | [], [] => true
         | a :: l1', b :: l2' => yaml_eqb a b && go l1' l2'
         | _, _ => false
         end) l1 l2
  | YDict d1, YDict d2 =>
      map_fold (fun k v acc =>
                  acc && match d2 !! k with
                         | Some v' => yaml_eqb v v'
                         | None => false
                         end) true d1
      && bool_decide (size d1 = size d2)
  | _, _ => false
  end.

Abbreviation ydict := (gmap string yaml).

(** [v is None] *)
Definition is_None (v : yaml) : bool :=
  match v with YNull => true | _ => false end.

(** Iterating over a value: the items of a list, the keys of a
    dictionary, the characters of a string. *)
Fixpoint chars (s : string) : list yaml :=
  match s with
  | EmptyString => []
  | String c s' => YStr (String c EmptyString) :: chars s'
  end.

Definition py_iter (v : yaml) : outcome (list yaml) :=
  match v with
  | YList l => Return l
  | YDict d => Return (YStr <$> (map_to_list d).*1)
  | YStr s => Return (chars s)
  | _ => throw OtherException "TypeError"
  end.

(** [d.pop(k)] and [d.pop(k, default)], on a private copy. *)
Definition pop (k : string) (d : ydict) : outcome (yaml * ydict) :=
  match d !! k with
  | Some v => Return (v, delete k d)
  | None => throw KeyError k
  end.

Definition pop_default (k : string) (dflt : yaml) (d : ydict) : yaml * ydict :=
  match d !! k with
  | Some v => (v, delete k d)
  | None => (dflt, d)
  end.

(** The truth value of a dictionary. *)
Definition nonempty (d : ydict) : bool := negb (bool_decide (d = ∅)).

End Yaml.

(** The line feed of the messages.  A message is the text of its format
    string; the [%r] renderings of arguments are left out. *)
Definition nl : string := String (ascii_of_nat 10) EmptyString.

(** [str.lower()] on byte strings: only A-Z are changed. *)
Definition lower_ascii (c : ascii) : ascii :=
  let n := nat_of_ascii c in
  if (65 <=? n)%nat && (n <=? 90)%nat then ascii_of_nat (n + 32) else c.

Fixpoint lower (s : string) : string :=
  match s with
  | EmptyString => EmptyString
  | String c s' => String (lower_ascii c) (lower s')
  end.

(** ** challenge.py: the transition engine *)

Module Transitions.

(** [ChallengesConstants] lives in [challenges_constants.py]; the engine
    only reads the list of allowed job statuses and the aborted status. *)
Record ChallengesConstantsT := {
  ALLOWED_JOB_STATUS : list string;
  STATUS_ABORTED : string
}.

Definition STATE_START := "START".
Definition STATE_ERROR := "ERROR".
Definition STATE_SUCCESS := "SUCCESS".
Definition STATE_FAILED := "FAILED".

(** [Transition = namedtuple('Transition', 'first condition second')] *)
Record Transition := mkTransition {
  first : string;
  condition : string;
  second : string
}.

#[global] Instance Transition_eq_dec : EqDecision Transition.
Proof. solve_decision. Defined.

Record ChallengeTransitions := mkCT {
  transitions : list Transition;
  steps : list string
}.

(** *** The store: dictionaries are objects, the log is global *)

Abbreviation loc := positive.
Abbreviation dict := (gmap string string).

Inductive log_level := DEBUG | INFO | ERROR.

#[global] Instance log_level_eq_dec : EqDecision log_level.
Proof. solve_decision. Defined.

(** The messages handed to [dclogger], by format string and arguments. *)
Inductive log_msg :=
| Received_status (status : option dict)
| Ignoring_invalid_step (k ks : string)
| Transition_is_activated (t : Transition)
| Second_already_activated (snd_ st : string)
| Finishing_here
| Incomplete_need_to_do (to_activate : list string).

Record world := mkWorld {
  heap : gmap loc dict;
  dclog : list (log_level * log_msg)
}.

Abbreviation M := (SE world).

Definition ret {A} (a : A) : M A := mret a.

Definition log (lvl : log_level) (m : log_msg) : M unit :=
  fun w => (mkWorld (heap w) (dclog w ++ [(lvl, m)]), Return tt).

Definition assert (b : bool) : M unit :=
  if b then ret tt else raise AssertionError "".

Definition lookup_obj (p : loc) : M (option dict) :=
  fun w => (w, Return (heap w !! p)).

(** Reading through a reference the caller holds. *)
Definition deref (p : loc) : M dict :=
  o ← lookup_obj p;
  match o with
  | Some d => ret d
  | None => raise AssertionError ""
  end.

(** [dict( **d )]: a new object with the same entries. *)
Definition new_dict (d : dict) : M loc :=
  fun w =>
    let p := fresh (dom (heap w)) in
    (mkWorld (<[p := d]> (heap w)) (dclog w), Return p).

(** [list(d.items())]: a snapshot of the entries, in the order of
    [map_to_list]; the order of a Python dictionary is as arbitrary. *)
Definition dict_items (p : loc) : M (list (string * string)) :=
  d ← deref p; ret (map_to_list d).

(** [d.pop(k)]: removes the entry, [KeyError] when there is none. *)
Definition dict_pop (p : loc) (k : string) : M string :=
  fun w =>
    match heap w !! p with
    | Some d =>
        match d !! k with
        | Some v => (mkWorld (<[p := delete k d]> (heap w)) (dclog w), Return v)
        | None => (w, Raise (Exn KeyError k))
        end
    | None => (w, Raise (Exn AssertionError ""))
    end.

Section Engine.

Variable ChallengesConstants : ChallengesConstantsT.

Definition terminal (s : string) : bool :=
  bool_decide (s ∈ [STATE_ERROR; STATE_FAILED; STATE_SUCCESS]).

(** [ChallengeTransitions.__init__]: the three assertions, transition by
    transition. *)
Fixpoint init_transitions (steps : list string)
    (ts : list (string * string * string)) : outcome (list Transition) :=
  match ts with
  | [] => Return []
  | (fst_, cond, snd_) :: ts' =>
      if negb (bool_decide (fst_ = STATE_START ∨ fst_ ∈ steps))
      then Raise (Exn AssertionError fst_)
      else if negb (bool_decide (snd_ ∈ [STATE_ERROR; STATE_FAILED; STATE_SUCCESS]
                                 ∨ snd_ ∈ steps))
      then Raise (Exn AssertionError snd_)
      else if negb (bool_decide (cond ∈ ALLOWED_JOB_STATUS ChallengesConstants))
      then Raise (Exn AssertionError cond)
      else match init_transitions steps ts' with
           | Return l => Return (mkTransition fst_ cond snd_ :: l)
           | Raise e => Raise e
           end
  end.

Definition ChallengeTransitions_init (ts : list (string * string * string))
    (steps : list string) : outcome ChallengeTransitions :=
  match init_transitions steps ts with
  | Return l => Return (mkCT l steps)
  | Raise e => Raise e
  end.

(** The body of the first loop of [get_next_steps]: two independent
    [if]s, each popping the key. *)
Definition sanitize_entry (self : ChallengeTransitions) (status : loc)
    (item : string * string) : M unit :=
  let '(k, ks) := item in
  (if bool_decide (k ≠ STATE_START ∧ k ∉ steps self)
   then log ERROR (Ignoring_invalid_step k ks) ;; _ ← dict_pop status k; ret tt
   else ret tt) ;;
  (if bool_decide (ks ∉ ALLOWED_JOB_STATUS ChallengesConstants)
   then log ERROR (Ignoring_invalid_step k ks) ;; _ ← dict_pop status k; ret tt
   else ret tt).

Definition next_steps : Type := bool * option string * list string.

(** The second loop; [status] holds the entries of the sanitized copy, which
    the loop only reads. *)
Fixpoint transitions_loop (status : dict) (ts : list Transition)
    (to_activate : list string) : M next_steps :=
  match ts with
  | [] =>
      log DEBUG (Incomplete_need_to_do to_activate) ;;
      ret (false, None, to_activate)
  | t :: ts' =>
      if bool_decide (status !! first t = Some (condition t)) then
        log DEBUG (Transition_is_activated t) ;;
        let like_it_does_not_exist := [STATUS_ABORTED ChallengesConstants] in
        match status !! second t with
        | Some st =>
            if bool_decide (st ∉ like_it_does_not_exist) then
              log DEBUG (Second_already_activated (second t) st) ;;
              transitions_loop status ts' to_activate
            else if terminal (second t) then
              log DEBUG Finishing_here ;;
              ret (true, Some (lower (second t)), [])
            else transitions_loop status ts' (to_activate ++ [second t])
        | None =>
            if terminal (second t) then
              log DEBUG Finishing_here ;;
              ret (true, Some (lower (second t)), [])
            else transitions_loop status ts' (to_activate ++ [second t])
        end
      else transitions_loop status ts' to_activate
  end.

(** [get_next_steps]; [status] is the location of the caller's dictionary.
    A location that holds no dictionary stands for an argument that is not
    a dictionary and that the log line can format, such as [None]: the
    [isinstance] assertion fails after the line is logged. *)
Definition get_next_steps (self : ChallengeTransitions) (status : loc)
    : M next_steps :=
  o ← lookup_obj status;
  log INFO (Received_status o) ;;
  d0 ← deref status;
  assert (bool_decide (is_Some (d0 !! STATE_START))) ;;
  assert (bool_decide (d0 !! STATE_START = Some "success")) ;;
  status' ← new_dict d0;
  items ← dict_items status';
  for_each items (sanitize_entry self status') ;;
  d ← deref status';
  transitions_loop d (transitions self) [].

(** *** What the first loop is meant to compute

    An entry is kept when its key is START or a declared step and its
    value is an allowed job status. *)
Definition valid_entry (stps : list string) (k ks : string) : Prop :=
  (k = STATE_START ∨ k ∈ stps) ∧ ks ∈ ALLOWED_JOB_STATUS ChallengesConstants.

#[global] Instance valid_entry_dec stps k ks : Decision (valid_entry stps k ks).
Proof. unfold valid_entry. apply _. Defined.

Definition sanitized (stps : list string) (d : dict) : dict :=
  filter (fun kv => valid_entry stps kv.1 kv.2) d.

(** An entry that the first [if] pops and the second [if] pops again. *)
Definition doubly_invalid (stps : list string) (k ks : string) : Prop :=
  (k ≠ STATE_START ∧ k ∉ stps) ∧ ks ∉ ALLOWED_JOB_STATUS ChallengesConstants.

#[global] Instance doubly_invalid_dec stps k ks : Decision (doubly_invalid stps k ks).
Proof. unfold doubly_invalid. apply _. Defined.

Definition sanitizable (stps : list string) (d : dict) : bool :=
  forallb (fun kv => negb (bool_decide (doubly_invalid stps kv.1 kv.2)))
          (map_to_list d).

(** The error messages of the first loop, one per dropped entry. *)
Definition ignoring_messages (stps : list string)
    (items : list (string * string)) : list (log_level * log_msg) :=
  omap (fun kv => if decide (valid_entry stps kv.1 kv.2) then None
                  else Some (ERROR, Ignoring_invalid_step kv.1 kv.2)) items.

(** A transition fires when the status of its source is its condition. *)
Definition fired (status : dict) (t : Transition) : bool :=
  bool_decide (status !! first t = Some (condition t)).

(** The target counts as not yet run: no status, or the aborted one. *)
Definition not_yet_run (status : dict) (name : string) : bool :=
  match status !! name with
  | None => true
  | Some st => bool_decide (st = STATUS_ABORTED ChallengesConstants)
  end.

(** A fired transition that ends the walk. *)
Definition finishes (status : dict) (t : Transition) : bool :=
  fired status t && not_yet_run status (second t) && terminal (second t).

(** A fired transition that activates its target step. *)
Definition activates (status : dict) (t : Transition) : bool :=
  fired status t && not_yet_run status (second t) && negb (terminal (second t)).

End Engine.

(** Modelled from the spec: the constants of [challenges_constants.py], of
    which the spec names the statuses success, failed, error, aborted,
    host-error and outdated, with aborted the "not yet run" marker. *)
Definition spec_constants : ChallengesConstantsT :=
  {| ALLOWED_JOB_STATUS :=
       ["success"; "failed"; "error"; "aborted"; "host-error"; "outdated"];
     STATUS_ABORTED := "aborted" |}.

(** *** Sample graphs and status maps

    The graph of the spec's worked example, built by the constructor. *)
Definition example_graph : list (string * string * string) :=
  [("START", "success", "s1"); ("s1", "success", "SUCCESS");
   ("s1", "failed", "FAILED")].

Definition example_ct : ChallengeTransitions :=
  mkCT [mkTransition "START" "success" "s1";
        mkTransition "s1" "success" "SUCCESS";
        mkTransition "s1" "failed" "FAILED"] ["s1"].

(** A graph in which two transitions lead to the same step. *)
Definition diamond_ct : ChallengeTransitions :=
  mkCT [mkTransition "START" "success" "a";
        mkTransition "START" "success" "b";
        mkTransition "a" "success" "c";
        mkTransition "b" "success" "c"] ["a"; "b"; "c"].

(** A challenge one of whose steps is called like a terminal state. *)
Definition shadow_ct : ChallengeTransitions :=
  mkCT [mkTransition "START" "success" "SUCCESS"] ["SUCCESS"].

(** The caller's dictionary is the only object of the initial store. *)
Definition caller : loc := 1%positive.

Definition world_with (d : dict) : world := mkWorld {[ caller := d ]} [].

Definition status_of (l : list (string * string)) : dict := list_to_map l.

End Transitions.

(** ** challenge.py: the challenge model *)

Module Challenge.

Import Yaml Transitions.

Definition SUBMISSION_CONTAINER_TAG := "SUBMISSION_CONTAINER".

Definition allowed_permissions : list string :=
  ["snoop"; "change"; "moderate"; "grant"].

(** [wrap_config_reader]: whatever the reader raises comes out as an
    [InvalidConfiguration] that names the reader. *)
Definition wrap_config_reader {A} (f_name : string) (o : outcome A) : outcome A :=
  match o with
  | Return a => Return a
  | Raise _ =>
      throw InvalidConfiguration
        ("Could not interpret the configuration data using " +:+ f_name +:+ "()")
  end.

(** [except KeyError as e: raise_wrapped(InvalidChallengeDescription, ...)] *)
Definition except_KeyError {A} (o : outcome A) : outcome A :=
  match o with
  | Raise (Exn KeyError k) =>
      throw InvalidChallengeDescription ("Missing config '" +:+ k +:+ "'")
  | _ => o
  end.

(** A loop over the entries of a dictionary that stops at the first
    exception. *)
Fixpoint mapM_items {B} (f : string -> yaml -> outcome B)
    (l : list (string * yaml)) : outcome (list (string * B)) :=
  match l with
  | [] => Return []
  | (k, v) :: l' =>
      b ← f k v;
      bs ← mapM_items f l';
      Return ((k, b) :: bs)
  end.

Definition dict_mapM {B} (f : string -> yaml -> outcome B) (d : ydict)
    : outcome (gmap string B) :=
  l ← mapM_items f (map_to_list d);
  Return (list_to_map l).

Fixpoint list_mapM {A B} (f : A -> outcome B) (l : list A) : outcome (list B) :=
  match l with
  | [] => Return []
  | a :: l' => b ← f a; bs ← list_mapM f l'; Return (b :: bs)
  end.

(** *** Build, ServiceDefinition, EvaluationParameters *)

Record Build := mkBuild {
  context : yaml;
  dockerfile : yaml;
  args : yaml
}.

Definition Build_from_yaml (d0 : yaml) : outcome Build :=
  match d0 with
  | YDict d =>
      let '(context, d) := pop_default "context" (YStr ".") d in
      let '(dockerfile, d) := pop_default "dockerfile" (YStr "Dockerfile") d in
      let '(args, d) := pop_default "args" (YDict ∅) d in
      if nonempty d then throw ValueError "Extra fields"
      else Return (mkBuild context dockerfile args)
  | _ => throw ValueError "Expected dict"
  end.

(** [image_digest] is [YNull] for Python's [None]. *)
Record ServiceDefinition := mkServiceDefinition {
  image : string;
  environment : ydict;
  image_digest : yaml;
  build : option Build
}.

(** [ServiceDefinition.__init__] with its two [check_isinstance]. *)
Definition ServiceDefinition_init (image environment image_digest : yaml)
    (build : option Build) : outcome ServiceDefinition :=
  match environment with
  | YDict env =>
      match image with
      | YStr img => Return (mkServiceDefinition img env image_digest build)
      | _ => throw ValueError "Object not of expected type:"
      end
  | _ => throw ValueError "Object not of expected type:"
  end.

(** [ServiceDefinition.equivalent]: returns nothing, or raises
    [NotEquivalent]. *)
Definition ServiceDefinition_equivalent (self other : ServiceDefinition)
    : outcome unit :=
  (if bool_decide (image self ≠ SUBMISSION_CONTAINER_TAG) then
     if is_None (image_digest self) || is_None (image_digest other)
     then throw NotEquivalent "No digest information, assuming different."
     else if negb (yaml_eqb (image_digest self) (image_digest other))
     then throw NotEquivalent "Different digests"
     else Return tt
   else Return tt) ;;
  if negb (yaml_eqb (YDict (environment self)) (YDict (environment other)))
  then throw NotEquivalent "Different environments"
  else Return tt.

Definition ServiceDefinition_from_yaml (d0 : yaml) : outcome ServiceDefinition :=
  wrap_config_reader "from_yaml"
    match d0 with
    | YDict d =>
        '(image, d) ←
          match d !! "image" with
          | Some v => Return (v, delete "image" d)
          | None =>
              match d !! "container" with
              | Some v => Return (v, delete "container" d)
              | None => throw ValueError "Need parameter image"
              end
          end;
        let '(environment, d) := pop_default "environment" (YDict ∅) d in
        let environment :=
          match environment with YNull => YDict ∅ | _ => environment end in
        '(build, d) ←
          match d !! "build" with
          | Some YNull => Return (None, delete "build" d)
          | Some b => b' ← Build_from_yaml b; Return (Some b', delete "build" d)
          | None => Return (None, d)
          end;
        let '(image_digest, d) := pop_default "image_digest" YNull d in
        if nonempty d then throw ValueError "Extra fields"
        else ServiceDefinition_init image environment image_digest build
    | _ => throw ValueError "Expected dict"
    end.

Record EvaluationParameters := mkEvaluationParameters {
  version : yaml;
  services : gmap string ServiceDefinition
}.

Definition EvaluationParameters_from_yaml (d0 : yaml)
    : outcome EvaluationParameters :=
  wrap_config_reader "from_yaml"
    match d0 with
    | YDict d =>
        '(services_, d) ← pop "services" d;
        match services_ with
        | YDict services_ =>
            if negb (nonempty services_)
            then throw ValueError "No services described."
            else
              let '(version, d) := pop_default "version" (YStr "3") d in
              services ← dict_mapM (fun _ v => ServiceDefinition_from_yaml v)
                                   services_;
              if nonempty d then throw ValueError "Invalid fields"
              else Return (mkEvaluationParameters version services)
        | _ => throw ValueError "Expected dict"
        end
    | _ => throw ValueError "Expected dict"
    end.

(** *** ChallengeStep *)

Record ChallengeStep := mkChallengeStep {
  step_name : string;
  step_title : yaml;
  step_description : yaml;
  evaluation_parameters : EvaluationParameters;
  features_required : ydict;
  timeout : yaml
}.

Definition ChallengeStep_init (name : string) (title description : yaml)
    (ep : EvaluationParameters) (features_required timeout : yaml)
    : outcome ChallengeStep :=
  match features_required with
  | YDict fr => Return (mkChallengeStep name title description ep fr timeout)
  | _ => throw ValueError "Object not of expected type:"
  end.

Definition ChallengeStep_from_yaml (data0 : yaml) (name : string)
    : outcome ChallengeStep :=
  wrap_config_reader "from_yaml"
    match data0 with
    | YDict data =>
        '(title, data) ← pop "title" data;
        '(description, data) ← pop "description" data;
        '(ep0, data) ← pop "evaluation_parameters" data;
        evaluation_parameters ← EvaluationParameters_from_yaml ep0;
        '(features_required, data) ← pop "features_required" data;
        '(timeout, data) ← pop "timeout" data;
        if nonempty data then throw ValueError "Extra fields"
        else ChallengeStep_init name title description evaluation_parameters
               features_required timeout
    | _ => throw ValueError "Need dict"
    end.

(** *** Scoring *)

Record Score := mkScore {
  score_name : yaml;
  score_description : yaml;
  order : string
}.

(** [Score.__init__]: [assert order in ['ascending', 'descending']]. *)
Definition Score_init (name description order : yaml) : outcome Score :=
  match order with
  | YStr o =>
      if bool_decide (o ∈ ["ascending"; "descending"])
      then Return (mkScore name description o)
      else throw AssertionError ""
  | _ => throw AssertionError ""
  end.

Definition Score_from_yaml (data0 : yaml) : outcome Score :=
  except_KeyError
    match data0 with
    | YDict data =>
        '(name, data) ← pop "name" data;
        let '(description, data) := pop_default "description" YNull data in
        let '(order, data) := pop_default "order" (YStr "ascending") data in
        if nonempty data
        then throw InvalidChallengeDescription "Extra keys in configuration file"
        else Score_init name description order
    | _ => throw InvalidChallengeDescription "Expected dict"
    end.

Record Scoring := mkScoring { scores : list Score }.

(** [Scoring.from_yaml]: the list of scores is mapped over as it is; no
    test looks at its length. *)
Definition Scoring_from_yaml (data0 : yaml) : outcome Scoring :=
  except_KeyError
    match data0 with
    | YDict data =>
        '(scores, data) ← pop "scores" data;
        match scores with
        | YList scores =>
            scores ← list_mapM Score_from_yaml scores;
            if nonempty data
            then throw InvalidChallengeDescription "Extra keys in configuration file"
            else Return (mkScoring scores)
        | _ => throw InvalidChallengeDescription "Expected list"
        end
    | _ => throw InvalidChallengeDescription "Expected dict"
    end.

(** *** ChallengeDescription *)

Record ChallengeDescription := mkChallengeDescription {
  name : yaml;
  title : yaml;
  description : yaml;
  protocol : yaml;
  date_open : Z;
  date_close : Z;
  cd_steps : gmap string ChallengeStep;
  roles : ydict;
  tags : yaml;
  scoring : Scoring;
  ct : ChallengeTransitions
}.

Section Description.

Variable ChallengesConstants : ChallengesConstantsT.

(** One round of the constructor loop of [ChallengeTransitions] on a value
    read from the file: unpacking into three, then the three assertions. *)
Definition transition_of_yaml (stps : list string) (item : yaml)
    : outcome Transition :=
  l ← py_iter item;
  match l with
  | [fst_; cond; snd_] =>
      match fst_ with
      | YStr f =>
          if bool_decide (f = STATE_START ∨ f ∈ stps) then
            match snd_ with
            | YStr s =>
                if bool_decide (s ∈ [STATE_ERROR; STATE_FAILED; STATE_SUCCESS]
                                ∨ s ∈ stps) then
                  match cond with
                  | YStr c =>
                      if bool_decide (c ∈ ALLOWED_JOB_STATUS ChallengesConstants)
                      then Return (mkTransition f c s)
                      else throw AssertionError c
                  | _ => throw AssertionError ""
                  end
                else throw AssertionError s
            | _ => throw AssertionError ""
            end
          else throw AssertionError f
      | _ => throw AssertionError ""
      end
  | _ => throw ValueError "unpack"
  end.

(** The loop over the roles: the key prefix, then the permission names. *)
Definition check_role (k : string) (permissions : yaml) : outcome unit :=
  if negb (String.prefix "user:" k)
  then throw InvalidChallengeDescription "Permissions should start with user:"
  else
    match permissions with
    | YDict p2 =>
        let p2 := foldl (fun p perm => delete perm p) p2 allowed_permissions in
        if nonempty p2
        then throw InvalidChallengeDescription "Unknown permissions"
        else Return tt
    | _ => throw OtherException "TypeError"
    end.

Definition ChallengeDescription_init (name title description protocol
    date_open date_close : yaml) (stps : gmap string ChallengeStep)
    (roles transitions tags : yaml) (scoring : Scoring)
    : outcome ChallengeDescription :=
  match date_open with
  | YDate d_open =>
      match date_close with
      | YDate d_close =>
          match roles with
          | YDict rls =>
              _ ← mapM_items check_role (map_to_list rls);
              let names := (map_to_list stps).*1 in
              ts ← py_iter transitions;
              ts' ← list_mapM (transition_of_yaml names) ts;
              Return (mkChallengeDescription name title description
                        protocol d_open d_close stps rls tags scoring
                        (mkCT ts' names))
          | _ => throw OtherException "AttributeError"
          end
      | _ => throw ValueError "Object not of expected type:"
      end
  | _ => throw ValueError "Object not of expected type:"
  end.

Definition ChallengeDescription_from_yaml (data : yaml)
    : outcome ChallengeDescription :=
  wrap_config_reader "from_yaml"
    (except_KeyError
       match data with
       | YDict data =>
           '(name, data) ← pop "challenge" data;
           let '(tags, data) := pop_default "tags" (YList []) data in
           '(title, data) ← pop "title" data;
           '(description, data) ← pop "description" data;
           '(protocol, data) ← pop "protocol" data;
           '(date_open, data) ← pop "date-open" data;
           '(date_close, data) ← pop "date-close" data;
           '(roles, data) ← pop "roles" data;
           '(transitions, data) ← pop "transitions" data;
           '(steps, data) ← pop "steps" data;
           match steps with
           | YDict steps =>
               Steps ← dict_mapM (fun k v => ChallengeStep_from_yaml v k) steps;
               '(scoring0, data) ← pop "scoring" data;
               scoring ← Scoring_from_yaml scoring0;
               if nonempty data
               then throw InvalidChallengeDescription
                      "Extra keys in configuration file"
               else ChallengeDescription_init name title description protocol
                      date_open date_close Steps roles transitions tags scoring
           | _ => throw OtherException "AttributeError"
           end
       | _ => throw OtherException "AttributeError"
       end).

End Description.

(** *** A small description file *)

Definition yd (l : list (string * yaml)) : yaml := YDict (list_to_map l).

Definition sample_service : yaml :=
  yd [("image", YStr "SUBMISSION_CONTAINER");
      ("environment", yd [("mode", YStr "fast")])].

Definition sample_step : yaml :=
  yd [("title", YStr "Step 1");
      ("description", YStr "The only step");
      ("evaluation_parameters",
       yd [("version", YStr "3");
           ("services", yd [("solution", sample_service)])]);
      ("features_required", yd []);
      ("timeout", YInt 100)].

(** The sample description, with the given scoring block. *)
Definition sample_description (scoring : yaml) : yaml :=
  yd [("challenge", YStr "demo");
      ("title", YStr "Demo");
      ("description", YStr "A demo challenge");
      ("protocol", YStr "p1");
      ("date-open", YDate 0);
      ("date-close", YDate 1);
      ("roles", yd [("user:admin", yd [("grant", YInt 1)])]);
      ("transitions",
       YList [YList [YStr "START"; YStr "success"; YStr "s1"];
              YList [YStr "s1"; YStr "success"; YStr "SUCCESS"];
              YList [YStr "s1"; YStr "failed"; YStr "FAILED"]]);
      ("steps", yd [("s1", sample_step)]);
      ("scoring", scoring)].

(** The same description, its step declaring no service at all. *)
Definition sample_description_no_services : yaml :=
  yd [("challenge", YStr "demo");
      ("title", YStr "Demo");
      ("description", YStr "A demo challenge");
      ("protocol", YStr "p1");
      ("date-open", YDate 0);
      ("date-close", YDate 1);
      ("roles", yd [("user:admin", yd [("grant", YInt 1)])]);
      ("transitions",
       YList [YList [YStr "START"; YStr "success"; YStr "s1"]]);
      ("steps",
       yd [("s1",
            yd [("title", YStr "Step 1");
                ("description", YStr "The only step");
                ("evaluation_parameters", yd [("services", yd [])]);
                ("features_required", yd []);
                ("timeout", YInt 100)])]);
      ("scoring", yd [("scores", YList [yd [("name", YStr "score1")]])])].

End Challenge.

(** ** cie_concrete.py: the two sides of the handshake *)

Module Handshake.

Import Yaml.

(** Values handed to [set_score]: a float, or any other object. *)
Inductive pyobj :=
| PFloat (f : spec_float)
| PObj (y : yaml).

(** [math.isnan] and [math.isinf]. *)
Definition isnan (f : spec_float) : bool :=
  match f with S754_nan => true | _ => false end.

Definition isinf (f : spec_float) : bool :=
  match f with S754_infinity _ => true | _ => false end.

(** [ChallengeFile = namedtuple('ChallengeFile',
    'basename from_file contents description')]: [FS.add] sets [from_file]
    (a path that exists, hence not the empty string) and leaves [contents]
    to [None], [FS.add_from_data] does the opposite. *)
Inductive file_source :=
| FromFile (from_file : string)
| FromData (contents : string).

Record ChallengeFile := mkChallengeFile {
  basename : string;
  source : file_source;
  cf_description : yaml
}.

Record ReportedScore := mkReportedScore {
  rs_name : string;
  rs_value : pyobj;
  rs_description : yaml
}.

Inductive ChallengeResultsStatus := SUCCESS | FAILED | ERROR.

Record ChallengeResults := mkChallengeResults {
  cr_status : ChallengeResultsStatus;
  cr_msg : option string;
  cr_scores : gmap string pyobj
}.

(** What a process does to the outside: files written, lines logged. *)
Inductive io_event :=
| MakeSureDirExists (filename : string)
| ShutilCopy (src dst : string)
| WriteBytes (dst : string) (contents : string)
| WriteYaml (data : option ydict) (fn : string)
| DclogError (msg : string)
| DclogInfo (msg : string)
| DeclareChallengeResults (root : string) (cr : ChallengeResults).

(** [posixpath.join] of two components. *)
Definition ends_with_slash (a : string) : bool :=
  match String.length a with
  | O => false
  | S n => bool_decide (String.get n a = Some "/"%char)
  end.

Definition os_path_join (a p : string) : string :=
  if String.prefix "/" p then p
  else if bool_decide (a = "") || ends_with_slash a then a +:+ p
  else a +:+ "/" +:+ p.

(** The object of the interface ([cis] or [cie]) and the trace. *)
Record st (O : Type) := mkSt { obj : O; trace : list io_event }.
Arguments mkSt {O} obj trace.
Arguments obj {O} s.
Arguments trace {O} s.

Abbreviation Proc O := (SE (st O)).

Definition emit {O} (ev : io_event) : Proc O unit :=
  fun s => (mkSt (obj s) (trace s ++ [ev]), Return tt).

Definition get_obj {O} : Proc O O := fun s => (s, Return (obj s)).

Definition set_obj {O} (o : O) : Proc O unit :=
  fun s => (mkSt o (trace s), Return tt).

(** The user's logic: it does what it wants with the interface object, and
    returns or raises. *)
Definition call {O} (f : O -> O * outcome unit) : Proc O unit :=
  fun s => let '(o, r) := f (obj s) in (mkSt o (trace s), r).

(** [FS.write] *)
Abbreviation FS := (gmap string ChallengeFile).

Definition FS_write {O} (files : FS) (dest : string) : Proc O unit :=
  for_each (map_to_list files).*2 (fun rf =>
    let out := os_path_join dest (basename rf) in
    emit (MakeSureDirExists out) ;;
    match source rf with
    | FromFile from_file => emit (ShutilCopy from_file out)
    | FromData contents => emit (WriteBytes out contents)
    end).

(** The events of one file, and of [FS.write] as a whole. *)
Definition file_events (dest : string) (rf : ChallengeFile) : list io_event :=
  let out := os_path_join dest (basename rf) in
  [MakeSureDirExists out;
   match source rf with
   | FromFile from_file => ShutilCopy from_file out
   | FromData contents => WriteBytes out contents
   end].

Definition FS_write_events (files : FS) (dest : string) : list io_event :=
  flat_map (file_events dest) (map_to_list files).*2.

(** [key in value], for the kinds of value a YAML file can hold. *)
Definition py_in {O} (k : string) (v : yaml) : Proc O bool :=
  match v with
  | YDict d => mret (bool_decide (is_Some (d !! k)))
  | YList l => mret (existsb (yaml_eqb (YStr k)) l)
  | YStr s => mret (if String.index 0 k s is Some _ then true else false)
  | _ => raise OtherException "TypeError"
  end.

(** [value[key]] *)
Definition py_getitem {O} (v : yaml) (k : string) : Proc O yaml :=
  match v with
  | YDict d =>
      match d !! k with
      | Some x => mret x
      | None => raise KeyError k
      end
  | _ => raise OtherException "TypeError"
  end.

Definition SPECIAL_ABORT := "abort".
Definition SPECIAL_INVALID_ENVIRONMENT := "invalid-environment".
Definition SPECIAL_INVALID_EVALUATOR := "invalid-evaluator".
Definition SPECIAL_INVALID_SUBMISSION := "invalid-submission".

(** The names defined in [constants.py] and in the package. *)
Record ConstantsT := {
  CHALLENGE_DESCRIPTION_YAML : string;
  CHALLENGE_SOLUTION_OUTPUT_YAML : string;
  CHALLENGE_SOLUTION_OUTPUT_DIR : string;
  CHALLENGE_EVALUATION_OUTPUT_DIR : string;
  CHALLENGE_DESCRIPTION_DIR : string;
  ENV_CHALLENGE_NAME : string;
  ENV_CHALLENGE_STEP_NAME : string
}.

Section Sides.

Variable constants : ConstantsT.

(** [traceback.format_exc(e)] and the [%s] of a value. *)
Variable format_exc : exn -> string.
Variable str : yaml -> string.

Definition preparation_aborted (e : exn) : string :=
  "Preparation aborted:" +:+ nl +:+ format_exc e.

Definition will_not_run (why : yaml) : string :=
  "I will not run solution because evaluator has aborted: " +:+ nl +:+ str why.

(** *** The solution side *)

Record CIS := mkCIS {
  cis_root : string;
  solution_output_files : FS;
  solution_output_dict : option ydict;
  failure_declared : bool;
  failure_declared_msg : yaml
}.

(** [failure_declared_msg] starts as [False]. *)
Definition CIS_init (root : string) : CIS :=
  mkCIS root ∅ None false (YInt 0).

(** What the solution process finds around itself: its environment
    variables, whether the parameters file shows up before the timeout, what
    reading it gives, and the user's [run]. *)
Record SolutionEnv := mkSolutionEnv {
  environ : gmap string string;
  preparation_shows_up : bool;
  challenge_parameters : outcome yaml;
  solution_run : CIS -> CIS * outcome unit
}.

Definition environ_get {O} (env : gmap string string) (k : string)
    : Proc O string :=
  match env !! k with
  | Some v => mret v
  | None => raise InvalidEnvironment k
  end.

(** [cis.set_solution_output_dict(data)] with a dictionary. *)
Definition set_solution_output_dict (data : ydict) : Proc CIS unit :=
  cis ← get_obj;
  set_obj (mkCIS (cis_root cis) (solution_output_files cis) (Some data)
                 (failure_declared cis) (failure_declared_msg cis)).

Definition cis_error (msg : string) : Proc CIS unit :=
  emit (DclogError ("solution:" +:+ msg)).

(** The body of the outer [try] of [wrap_solution]. *)
Definition wrap_solution_body (env : SolutionEnv) : Proc CIS unit :=
  try_except
    (_ ← environ_get (environ env) (ENV_CHALLENGE_NAME constants);
     _ ← environ_get (environ env) (ENV_CHALLENGE_STEP_NAME constants);
     pass)
    (fun e =>
       if bool_decide (exn_cls e = InvalidEnvironment) then reraise e
       else raise InvalidEnvironment ("Invalid environment: " +:+ exn_arg e)) ;;
  try_except
    (if preparation_shows_up env then pass
     else raise Timeout "Timeout while waiting")
    (fun e =>
       if bool_decide (exn_cls e = Timeout)
       then raise InvalidEvaluator
              ("Timeout while waiting for evaluator: " +:+ exn_arg e)
       else reraise e) ;;
  parameters ← lift (challenge_parameters env);
  aborted ← py_in SPECIAL_ABORT parameters;
  (if aborted : bool then
     why ← py_getitem parameters SPECIAL_ABORT;
     raise InvalidEvaluator (will_not_run why)
   else pass) ;;
  try_except
    (call (solution_run env))
    (fun e =>
       if bool_decide (exn_cls e ∈ [InvalidSubmission; InvalidEnvironment;
                                    InvalidEvaluator])
       then reraise e
       else raise InvalidSubmission
              ("Uncaught exception in solution:" +:+ nl +:+ format_exc e)) ;;
  cis ← get_obj;
  (if failure_declared cis
   then raise InvalidSubmission
          ("Submission declares failure:" +:+ nl
           +:+ str (failure_declared_msg cis))
   else pass) ;;
  cis ← get_obj;
  match solution_output_dict cis with
  | None => raise InvalidSubmission
              "solution_output_dict not set. Solution must use set_solution_output_dict({})."
  | Some _ => pass
  end.

(** The marker key and the message of each [except] clause. *)
Definition failure_marker (e : exn) : string * string :=
  match exn_cls e with
  | InvalidEnvironment =>
      (SPECIAL_INVALID_ENVIRONMENT, "InvalidEnvironment:" +:+ nl +:+ format_exc e)
  | InvalidEvaluator =>
      (SPECIAL_INVALID_EVALUATOR, "InvalidEvaluator:" +:+ nl +:+ format_exc e)
  | InvalidSubmission =>
      (SPECIAL_INVALID_SUBMISSION, "Invalid solution:" +:+ nl +:+ exn_arg e)
  | _ =>
      (SPECIAL_INVALID_ENVIRONMENT,
       "Uncaught exception: invalid wrap_evaluator:" +:+ nl +:+ format_exc e)
  end.

Definition wrap_solution_finally : Proc CIS unit :=
  cis ← get_obj;
  let fn := os_path_join (cis_root cis) (CHALLENGE_SOLUTION_OUTPUT_YAML constants) in
  emit (WriteYaml (solution_output_dict cis) fn) ;;
  FS_write (solution_output_files cis)
           (os_path_join (cis_root cis) (CHALLENGE_SOLUTION_OUTPUT_DIR constants)).

Definition wrap_solution_proc (env : SolutionEnv) : Proc CIS unit :=
  try_finally
    (try_except (wrap_solution_body env)
       (fun e =>
          let '(key, msg) := failure_marker e in
          cis_error msg ;;
          set_solution_output_dict {[ key := YStr msg ]}))
    wrap_solution_finally.

Definition wrap_solution (env : SolutionEnv) (root : string)
    : st CIS * outcome unit :=
  wrap_solution_proc env (mkSt (CIS_init root) []).

(** *** The evaluator side *)

Record CIE := mkCIE {
  cie_root : string;
  challenge_files : FS;
  parameters : option ydict;
  evaluation_files : FS;
  scores : gmap string ReportedScore
}.

Definition CIE_init (root : string) : CIE := mkCIE root ∅ None ∅ ∅.

Definition set_challenge_parameters (data : ydict) : Proc CIE unit :=
  cie ← get_obj;
  set_obj (mkCIE (cie_root cie) (challenge_files cie) (Some data)
                 (evaluation_files cie) (scores cie)).

(** [set_score]: the test on NaN and infinity is under
    [isinstance(value, float)]; the test on the name comes after it. *)
Definition set_score (name : string) (value : pyobj) (description : yaml)
    : Proc CIE unit :=
  (match value with
   | PFloat f =>
       if isnan f || isinf f
       then raise ValueError "we do not allow infinity or NaN."
       else pass
   | PObj _ => pass
   end) ;;
  cie ← get_obj;
  if bool_decide (is_Some (scores cie !! name))
  then raise InvalidEvaluator "Already know score"
  else set_obj (mkCIE (cie_root cie) (challenge_files cie) (parameters cie)
                  (evaluation_files cie)
                  (<[name := mkReportedScore name value description]> (scores cie))).

Definition after_prepare : Proc CIE unit :=
  cie ← get_obj;
  match parameters cie with
  | None => raise InvalidEvaluator
              "Parameters not set. Evaluator must use set_challenge_parameters()."
  | Some params =>
      FS_write (challenge_files cie)
               (os_path_join (cie_root cie) (CHALLENGE_DESCRIPTION_DIR constants)) ;;
      emit (WriteYaml (Some params)
              (os_path_join (cie_root cie) (CHALLENGE_DESCRIPTION_YAML constants)))
  end.

Definition after_score : Proc CIE unit :=
  cie ← get_obj;
  if bool_decide (scores cie = ∅)
  then raise InvalidEvaluator "No scores created"
  else
    FS_write (evaluation_files cie)
             (os_path_join (cie_root cie) (CHALLENGE_EVALUATION_OUTPUT_DIR constants)) ;;
    emit (DeclareChallengeResults (cie_root cie)
            (mkChallengeResults SUCCESS None (rs_value <$> scores cie))).

(** What the evaluator process finds around itself. *)
Record EvaluatorEnv := mkEvaluatorEnv {
  evaluator_prepare : CIE -> CIE * outcome unit;
  solution_shows_up : bool;
  solution_output : outcome yaml;
  evaluator_score : CIE -> CIE * outcome unit
}.

(** The [%s] of a status of [ChallengeResultsStatus]. *)
Variable status_name : ChallengeResultsStatus -> string.

(** The local [declare] of [wrap_evaluator]; [sys.exit(0)] raises. *)
Definition declare (root : string) (status : ChallengeResultsStatus)
    (message : string) : Proc CIE unit :=
  (match status with
   | SUCCESS => emit (DclogInfo "Completed.")
   | _ => emit (DclogError ("declare " +:+ status_name status +:+ ":" +:+ nl
                            +:+ message))
   end) ;;
  emit (DeclareChallengeResults root (mkChallengeResults status (Some message) ∅)) ;;
  raise SystemExit "0".

(** The guarded preparation: the inner [try ... except ... finally]. *)
Definition prepare_guarded (env : EvaluatorEnv) : Proc CIE unit :=
  try_finally
    (try_except (call (evaluator_prepare env))
       (fun e =>
          set_challenge_parameters
            {[ SPECIAL_ABORT := YStr (preparation_aborted e) ]} ;;
          reraise e))
    after_prepare.

Definition wrap_evaluator_body (env : EvaluatorEnv) : Proc CIE unit :=
  prepare_guarded env ;;
  try_except
    (if solution_shows_up env then pass else raise Timeout "Timeout while waiting")
    (fun e =>
       if bool_decide (exn_cls e = Timeout)
       then raise InvalidSubmission ("Time out: " +:+ exn_arg e)
       else reraise e) ;;
  out ← lift (solution_output env);
  b1 ← py_in SPECIAL_INVALID_ENVIRONMENT out;
  if b1 : bool then
    v ← py_getitem out SPECIAL_INVALID_ENVIRONMENT;
    raise InvalidEnvironment (str v)
  else
    b2 ← py_in SPECIAL_INVALID_EVALUATOR out;
    if b2 : bool then
      v ← py_getitem out SPECIAL_INVALID_EVALUATOR;
      raise InvalidEvaluator (str v)
    else
      b3 ← py_in SPECIAL_INVALID_SUBMISSION out;
      if b3 : bool then
        v ← py_getitem out SPECIAL_INVALID_SUBMISSION;
        raise InvalidSubmission (str v)
      else
        call (evaluator_score env) ;;
        after_score.

Definition wrap_evaluator_proc (env : EvaluatorEnv) (root : string)
    : Proc CIE unit :=
  try_except (wrap_evaluator_body env)
    (fun e =>
       match exn_cls e with
       | InvalidSubmission =>
           declare root FAILED ("InvalidSubmission:" +:+ nl +:+ format_exc e)
       | InvalidEvaluator =>
           declare root ERROR ("InvalidEvaluator:" +:+ nl +:+ format_exc e)
       | InvalidEnvironment =>
           declare root ERROR ("InvalidEnvironment:" +:+ nl +:+ format_exc e)
       | _ => declare root ERROR ("Unexpected exception:" +:+ nl +:+ format_exc e)
       end).

Definition wrap_evaluator (env : EvaluatorEnv) (root : string)
    : st CIE * outcome unit :=
  wrap_evaluator_proc env root (mkSt (CIE_init root) []).

End Sides.

(** Modelled from the spec: the file names of [constants.py], one fixed
    file for each of the parameters, the solution output, and the areas of
    the session. *)
Definition spec_layout : ConstantsT :=
  {| CHALLENGE_DESCRIPTION_YAML := "challenge-description/challenge_description.yaml";
     CHALLENGE_SOLUTION_OUTPUT_YAML := "challenge-solution-output/output-solution.yaml";
     CHALLENGE_SOLUTION_OUTPUT_DIR := "challenge-solution-output";
     CHALLENGE_EVALUATION_OUTPUT_DIR := "challenge-evaluation-output";
     CHALLENGE_DESCRIPTION_DIR := "challenge-description";
     ENV_CHALLENGE_NAME := "challenge_name";
     ENV_CHALLENGE_STEP_NAME := "challenge_step_name" |}.

(** Sample renderings of exceptions and values. *)
Definition sample_format_exc (e : exn) : string := exn_arg e.

Definition sample_status_name (status : ChallengeResultsStatus) : string :=
  match status with
  | SUCCESS => "success"
  | FAILED => "failed"
  | ERROR => "error"
  end.

Definition sample_str (v : yaml) : string :=
  match v with YStr s => s | _ => "<object>" end.

Definition sample_environ : gmap string string :=
  {[ "challenge_name" := "demo"; "challenge_step_name" := "s1" ]}.

(** A solution that registers one file and its output, and one that
    crashes after registering a file. *)
Definition good_solution (cis : CIS) : CIS * outcome unit :=
  (mkCIS (cis_root cis)
         {[ "log.txt" := mkChallengeFile "log.txt" (FromData "ok") YNull ]}
         (Some {[ "answer" := YInt 42 ]}) false (YInt 0),
   Return tt).

Definition crashing_solution (cis : CIS) : CIS * outcome unit :=
  (mkCIS (cis_root cis)
         {[ "log.txt" := mkChallengeFile "log.txt" (FromData "oops") YNull ]}
         None false (YInt 0),
   Raise (Exn OtherException "ZeroDivisionError")).



End Handshake.

(** ** runner.py: the artefacts of previous steps *)

Module Runner.

Import Handshake.

(** [storage['s3']] *)
Record S3Object := mkS3Object {
  bucket_name : string;
  object_key : string
}.

(** One entry of [steps2artefacts[step_name]]. *)
Record Artefact := mkArtefact {
  sha256hex : string;
  size : Z;
  storage : gmap string S3Object
}.

Inductive elog_event :=
| LogData (data : Artefact)
| LogCache (size : Z) (rpath : string)
| LogAWS (size : Z) (rpath : string).

(** The local files, the local cache (content by digest) and the log; the
    buckets are read only.  Directories are not part of the state:
    [os.makedirs] is taken to succeed. *)
Record world := mkWorld {
  files : gmap string string;
  cache : gmap string string;
  elog : list elog_event
}.

Abbreviation R := (SE world).

(** [try: body except KeyError: handler] *)
Definition try_except_KeyError {A} (body handler : R A) : R A :=
  try_except body
    (fun e => if bool_decide (exn_cls e = KeyError) then handler else reraise e).

Definition elogger (ev : elog_event) : R unit :=
  fun w => (mkWorld (files w) (cache w) (elog w ++ [ev]), Return tt).

(** Modelled from the spec: [get_file_from_cache] of [runner_cache.py],
    the [get(digest) -> content | NotFound] of the artifact store: on a hit
    the content is copied to [fn], on a miss [KeyError] is raised. *)
Definition get_file_from_cache (fn sha256hex : string) : R unit :=
  fun w =>
    match cache w !! sha256hex with
    | Some content => (mkWorld (<[fn := content]> (files w)) (cache w) (elog w),
                       Return tt)
    | None => (w, Raise (Exn KeyError sha256hex))
    end.

(** Modelled from the spec: [copy_to_cache] of [runner_cache.py], the
    [put] of the artifact store: the content of [fn] is inserted under the
    digest it is given, and inserting again changes nothing. *)
Definition copy_to_cache (fn sha256hex : string) : R unit :=
  fun w =>
    match files w !! fn with
    | Some content =>
        match cache w !! sha256hex with
        | Some _ => (w, Return tt)
        | None => (mkWorld (files w) (<[sha256hex := content]> (cache w)) (elog w),
                   Return tt)
        end
    | None => (w, Raise (Exn IOError fn))
    end.

(** [os.stat(fn).st_size] *)
Definition st_size (fn : string) : R Z :=
  fun w =>
    match files w !! fn with
    | Some content => (w, Return (Z.of_nat (String.length content)))
    | None => (w, Raise (Exn OtherException "OSError"))
    end.

Section Download.

(** The AWS configuration handed to the runner, if any, and the objects
    of the buckets. *)
Variable aws_config : option (gmap string string).
Variable s3 : gmap (string * string) string.

(** The truth value of [aws_config]. *)
Definition aws_configured : bool :=
  match aws_config with
  | Some c => negb (bool_decide (c = ∅))
  | None => false
  end.

(** [get_object]: the two credentials are read, then the object is
    downloaded to [fn]. *)
Definition get_object (bucket_name object_key fn : string) : R unit :=
  fun w =>
    match aws_config ≫= (.!! "aws_access_key_id") with
    | None => (w, Raise (Exn KeyError "aws_access_key_id"))
    | Some _ =>
        match aws_config ≫= (.!! "aws_secret_access_key") with
        | None => (w, Raise (Exn KeyError "aws_secret_access_key"))
        | Some _ =>
            match s3 !! (bucket_name, object_key) with
            | Some content =>
                (mkWorld (<[fn := content]> (files w)) (cache w) (elog w), Return tt)
            | None => (w, Raise (Exn OtherException "ClientError"))
            end
        end
    end.

(** The body of the inner loop of [download_artefacts]. *)
Definition download_artefact (step_dir rpath : string) (data : Artefact) : R unit :=
  elogger (LogData data) ;;
  let fn := os_path_join step_dir rpath in
  try_except_KeyError
    (get_file_from_cache fn (sha256hex data) ;;
     elogger (LogCache (size data) rpath))
    (* no local *)
    match storage data !! "s3" with
    | Some s3ob =>
        (if negb aws_configured
         then raise CouldNotDownloadAll "I cannot download from s3"
         else
           elogger (LogAWS (size data) rpath) ;;
           get_object (bucket_name s3ob) (object_key s3ob) fn ;;
           copy_to_cache fn (sha256hex data)) ;;
        size_now ← st_size fn;
        if bool_decide (size_now ≠ size data)
        then raise ValueError "Corrupt cache or download"
        else mret tt
    | None => raise CouldNotDownloadAll "Not in cache and no way to download"
    end.

Definition download_artefacts
    (steps2artefacts : gmap string (gmap string Artefact)) (wd : string) : R unit :=
  for_each (map_to_list steps2artefacts) (fun '(step_name, artefacts) =>
    let step_dir := os_path_join wd step_name in
    for_each (map_to_list artefacts) (fun '(rpath, data) =>
      download_artefact step_dir rpath data)).

End Download.

(** A bucket that serves seven bytes for an artefact declared to have
    one hundred. *)
Definition sample_aws_config : option (gmap string string) :=
  Some {[ "aws_access_key_id" := "id"; "aws_secret_access_key" := "secret";
          "bucket_name" := "bucket" ]}.

Definition sample_s3 : gmap (string * string) string :=
  {[ ("bucket", "root/sha256/abc") := "corrupt" ]}.

Definition sample_artefact : Artefact :=
  mkArtefact "abc" 100 {[ "s3" := mkS3Object "bucket" "root/sha256/abc" ]}.

Definition sample_steps2artefacts : gmap string (gmap string Artefact) :=
  {[ "step1" := {[ "output.txt" := sample_artefact ]} ]}.

Definition empty_world : world := mkWorld ∅ ∅ [].

End Runner.

(** ** challenge.py: writing the model back, comparing parameters *)

Module Serialization.

Import Yaml Transitions Challenge.

(** [Build.as_dict] *)
Definition Build_as_dict (self : Build) : ydict :=
  {[ "context" := context self;
     "dockerfile" := dockerfile self;
     "args" := args self ]}.

(** [ServiceDefinition.as_dict]: the key [build] is there when the
    attribute is not [None]. *)
Definition ServiceDefinition_as_dict (self : ServiceDefinition) : ydict :=
  let res : ydict :=
    {[ "image" := YStr (image self);
       "environment" := YDict (environment self);
       "image_digest" := image_digest self ]} in
  match build self with
  | Some b => <["build" := YDict (Build_as_dict b)]> res
  | None => res
  end.

(** [EvaluationParameters.as_dict] *)
Definition EvaluationParameters_as_dict (self : EvaluationParameters) : ydict :=
  let services : ydict :=
    (fun v => YDict (ServiceDefinition_as_dict v)) <$> services self in
  {[ "version" := version self; "services" := YDict services ]}.

(** [EvaluationParameters.equivalent]: the two sets of names, then the
    services of [other] one by one. *)
Definition EvaluationParameters_equivalent (self other : EvaluationParameters)
    : outcome unit :=
  if bool_decide (dom (services other) ≠ dom (services self))
  then throw NotEquivalent "Different set of services."
  else
    _ ← list_mapM (fun s =>
           a ← match services self !! s with
               | Some a => Return a
               | None => throw KeyError s
               end;
           b ← match services other !! s with
               | Some b => Return b
               | None => throw KeyError s
               end;
           match ServiceDefinition_equivalent a b with
           | Return _ => Return tt
           | Raise e =>
               if bool_decide (exn_cls e = NotEquivalent)
               then throw NotEquivalent "Service differs"
               else Raise e
           end)
         (map_to_list (services other)).*1;
    Return tt.

(** [ChallengeStep.as_dict]: the name is not part of it. *)
Definition ChallengeStep_as_dict (self : ChallengeStep) : ydict :=
  {[ "title" := step_title self;
     "description" := step_description self;
     "evaluation_parameters" :=
       YDict (EvaluationParameters_as_dict (evaluation_parameters self));
     "features_required" := YDict (features_required self);
     "timeout" := timeout self ]}.

(** [Score.as_dict] and [Scoring.as_dict] *)
Definition Score_as_dict (self : Score) : ydict :=
  {[ "description" := score_description self;
     "name" := score_name self;
     "order" := YStr (order self) ]}.

Definition Scoring_as_dict (self : Scoring) : ydict :=
  {[ "scores" := YList ((fun sc => YDict (Score_as_dict sc)) <$> scores self) ]}.

(** [ChallengeDescription.as_dict] *)
Definition ChallengeDescription_as_dict (self : ChallengeDescription) : ydict :=
  {[ "challenge" := name self;
     "title" := title self;
     "description" := description self;
     "protocol" := protocol self;
     "date-open" := YDate (date_open self);
     "date-close" := YDate (date_close self);
     "roles" := YDict (roles self);
     "transitions" :=
       YList ((fun t => YList [YStr (first t); YStr (condition t); YStr (second t)])
              <$> transitions (ct self));
     "steps" := YDict ((fun v => YDict (ChallengeStep_as_dict v)) <$> cd_steps self);
     "tags" := tags self;
     "scoring" := YDict (Scoring_as_dict (scoring self)) ]}.

(** [get_latest]: [client.images.get(image_name).id] is what the Docker
    daemon answers. *)
Inductive latest_log :=
| Warning_already_qualified (image_name : string)
| Info_finding_latest (image_name : string)
| Info_updated (image_name fq : string).

Definition contains (sub s : string) : bool :=
  if String.index 0 sub s is Some _ then true else false.

Definition get_latest (images_get : string -> outcome string)
    (image_name : string) : list latest_log * outcome (option string) :=
  if contains "@" image_name
  then ([Warning_already_qualified image_name], Return None)
  else
    match images_get image_name with
    | Raise e => ([Info_finding_latest image_name], Raise e)
    | Return image_id =>
        let image_name' :=
          match String.index 0 ":" image_name with
          | Some n => String.substring 0 n image_name   (* remove tag *)
          | None => image_name
          end in
        let fq := image_name' +:+ "@" +:+ image_id in
        ([Info_finding_latest image_name; Info_updated image_name' fq],
         Return (Some fq))
    end.

End Serialization.

(** ** cie_concrete.py: the methods of the two interfaces *)

Module Interface.

Import Yaml Handshake.

(** [FS.add_from_data]: a basename is registered once. *)
Definition FS_add_from_data (files : FS) (basename contents : string)
    (description : yaml) : outcome FS :=
  if bool_decide (is_Some (files !! basename))
  then throw ValueError "Already know"
  else Return (<[basename := mkChallengeFile basename (FromData contents)
                                description]> files).

(** [FS.add]; [path_exists] is [os.path.exists]. *)
Definition FS_add (path_exists : string -> bool) (files : FS)
    (basename from_file : string) (description : yaml) : outcome FS :=
  if negb (path_exists from_file)
  then throw ValueError "The file does not exist"
  else if bool_decide (is_Some (files !! basename))
  then throw ValueError "Already know"
  else Return (<[basename := mkChallengeFile basename (FromFile from_file)
                                description]> files).

(** [try: ... except ValueError as e: raise_wrapped(cls, e, msg)] *)
Definition except_ValueError {O A} (cls : exn_class) (msg : string)
    (o : outcome A) : Proc O A :=
  match o with
  | Return a => mret a
  | Raise e =>
      if bool_decide (exn_cls e = ValueError) then raise cls msg else reraise e
  end.

(** *** The solution side *)

Definition with_solution_output_files (cis : CIS) (files : FS) : CIS :=
  mkCIS (cis_root cis) files (solution_output_dict cis) (failure_declared cis)
        (failure_declared_msg cis).

Definition set_solution_output_file (path_exists : string -> bool)
    (basename from_file : string) (description : yaml) : Proc CIS unit :=
  cis ← get_obj;
  files ← except_ValueError InvalidSubmission "Invalid set_solution_output_file()"
             (FS_add path_exists (solution_output_files cis) basename from_file
                     description);
  set_obj (with_solution_output_files cis files).

Definition set_solution_output_file_from_data (basename contents : string)
    (description : yaml) : Proc CIS unit :=
  cis ← get_obj;
  files ← except_ValueError InvalidSubmission "Invalid set_solution_output_file()"
             (FS_add_from_data (solution_output_files cis) basename contents
                               description);
  set_obj (with_solution_output_files cis files).

(** [cis.set_solution_output_dict(data)] with any value. *)
Definition cis_set_solution_output_dict (data : yaml) : Proc CIS unit :=
  match data with
  | YDict d => set_solution_output_dict d
  | _ => raise ValueError "data must be a dict"
  end.

Definition declare_failure (msg : yaml) : Proc CIS unit :=
  cis ← get_obj;
  set_obj (mkCIS (cis_root cis) (solution_output_files cis)
                 (solution_output_dict cis) true msg).

(** *** The evaluator side *)

Definition with_challenge_files (cie : CIE) (files : FS) : CIE :=
  mkCIE (cie_root cie) files (parameters cie) (evaluation_files cie) (scores cie).

Definition with_evaluation_files (cie : CIE) (files : FS) : CIE :=
  mkCIE (cie_root cie) (challenge_files cie) (parameters cie) files (scores cie).

Definition set_challenge_file (path_exists : string -> bool)
    (basename from_file : string) (description : yaml) : Proc CIE unit :=
  cie ← get_obj;
  files ← except_ValueError InvalidEvaluator "Invalid set_challenge_file()"
             (FS_add path_exists (challenge_files cie) basename from_file
                     description);
  set_obj (with_challenge_files cie files).

Definition set_evaluation_file (path_exists : string -> bool)
    (basename from_file : string) (description : yaml) : Proc CIE unit :=
  cie ← get_obj;
  files ← except_ValueError InvalidEvaluator "Invalid set_evaluation_file()"
             (FS_add path_exists (evaluation_files cie) basename from_file
                     description);
  set_obj (with_evaluation_files cie files).

Definition set_evaluation_file_from_data (basename contents : string)
    (description : yaml) : Proc CIE unit :=
  cie ← get_obj;
  files ← except_ValueError InvalidEvaluator
             "Invalid set_evaluation_file_from_data()"
             (FS_add_from_data (evaluation_files cie) basename contents
                               description);
  set_obj (with_evaluation_files cie files).

(** What the user's code does with the interface object, as a function
    of the object. *)
Definition as_user {O} (m : Proc O unit) (o : O) : O * outcome unit :=
  let '(s, r) := m (mkSt o []) in (obj s, r).

(** *** [wrap_scorer] *)

Section Scorer.

Variable constants : ConstantsT.
Variable format_exc : exn -> string.
Variable status_name : ChallengeResultsStatus -> string.



End Scorer.

(** *** A small evaluator and a small solution

    The evaluator sets one parameter and reports one score; the solution
    registers one file and sets its output. *)
Definition sample_prepare : CIE -> CIE * outcome unit :=
  as_user (set_challenge_parameters {[ "map" := YStr "loop" ]}).

Definition sample_score : CIE -> CIE * outcome unit :=
  as_user (set_score "score1" (PObj (YInt 1)) YNull).

Definition sample_evaluator (shows_up : bool) (out : outcome yaml) : EvaluatorEnv :=
  mkEvaluatorEnv sample_prepare shows_up out sample_score.

Definition sample_run : CIS -> CIS * outcome unit :=
  as_user (set_solution_output_file_from_data "log.txt" "ok" YNull ;;
           cis_set_solution_output_dict (YDict {[ "answer" := YInt 42 ]})).

(** A solution that registers the same file twice. *)
Definition clumsy_run : CIS -> CIS * outcome unit :=
  as_user (set_solution_output_file_from_data "log.txt" "one" YNull ;;
           set_solution_output_file_from_data "log.txt" "two" YNull ;;
           cis_set_solution_output_dict (YDict ∅)).

End Interface.

(** ** runner.py: the configuration of a job, its uploads, its report *)

Module Job.

Import Yaml Challenge Serialization Handshake.

(** The names of [constants.py] that the runner uses on top of those of
    the handshake. *)
Record RunnerConstantsT := {
  layout : ConstantsT;
  CHALLENGE_RESULTS_DIR : string;
  CHALLENGE_PREVIOUS_STEPS_DIR : string
}.

Section Config.

Variable constants : RunnerConstantsT.

(** [os.getuid()] and [getpass.getuser()] *)
Variable UID : Z.
Variable USERNAME : string.

Definition extra_environment (challenge_name challenge_step_name : string)
    : ydict :=
  <[ENV_CHALLENGE_STEP_NAME (layout constants) := YStr challenge_step_name]>
    (<[ENV_CHALLENGE_NAME (layout constants) := YStr challenge_name]>
       {[ "username" := YStr USERNAME; "uid" := YInt UID ]}).

Definition volume (d : string) : string := "./" +:+ d +:+ ":" +:+ "/" +:+ d.

Definition volumes : yaml :=
  YList [YStr (volume (CHALLENGE_SOLUTION_OUTPUT_DIR (layout constants)));
         YStr (volume (CHALLENGE_RESULTS_DIR constants));
         YStr (volume (CHALLENGE_DESCRIPTION_DIR (layout constants)));
         YStr (volume (CHALLENGE_EVALUATION_OUTPUT_DIR (layout constants)));
         YStr (volume (CHALLENGE_PREVIOUS_STEPS_DIR constants))].

Definition NETWORK_NAME := "evaluation".

Definition networks_evaluator : yaml :=
  YDict {[ "evaluation" := YDict {[ "aliases" := YList [YStr NETWORK_NAME] ]} ]}.

(** The first loop, on the service objects: the build is dropped and the
    image of the submission is filled in. *)
Definition fill_in (solution_container : string) (service_def : ServiceDefinition)
    : ServiceDefinition :=
  mkServiceDefinition
    (if bool_decide (image service_def = SUBMISSION_CONTAINER_TAG)
     then solution_container else image service_def)
    (environment service_def) (image_digest service_def) None.

(** [dict.update] *)
Definition update (d other : ydict) : ydict := other ∪ d.

(** [for service in config['services'].values(): body(service)] *)
Definition for_services (body : ydict -> outcome ydict) (config : ydict)
    : outcome ydict :=
  match config !! "services" with
  | Some (YDict services) =>
      services' ← dict_mapM (fun _ service =>
                     match service with
                     | YDict service => service' ← body service;
                                        Return (YDict service')
                     | _ => throw OtherException "AttributeError"
                     end) services;
      Return (<["services" := YDict services']> config)
  | Some _ => throw OtherException "AttributeError"
  | None => throw KeyError "services"
  end.

(** [get_config]: what it returns, what it logs, and the object of the
    evaluation parameters as the call leaves it.  [as_dict] hands out the
    environment dictionaries of the services themselves, so that the update
    with the extra variables is seen through the parameters too. *)
Record get_config_result := mkConfigResult {
  challenge_parameters_after : EvaluationParameters;
  logged : ydict;
  config : ydict
}.

Definition get_config (challenge_parameters_ : EvaluationParameters)
    (solution_container challenge_name challenge_step_name : string)
    : outcome get_config_result :=
  let services1 := fill_in solution_container <$> services challenge_parameters_ in
  let config := EvaluationParameters_as_dict
                  (mkEvaluationParameters (version challenge_parameters_) services1) in
  config ← for_services (fun service =>
              let '(image_digest, service) := pop_default "image_digest" YNull service in
              let '(_, service) := pop_default "build" YNull service in
              Return service) config;
  let extra := extra_environment challenge_name challenge_step_name in
  config ← for_services (fun service =>
              match service !! "environment" with
              | Some (YDict env) =>
                  Return (<["environment" := YDict (update env extra)]> service)
              | Some _ => throw OtherException "AttributeError"
              | None => throw KeyError "environment"
              end) config;
  config ← for_services (fun service =>
              if bool_decide (is_Some (service !! "volumes"))
              then throw AssertionError ""
              else Return (<["volumes" := volumes]> service)) config;
  let logged := config in
  config ← for_services (fun service =>
              Return (<["networks" := networks_evaluator]> service)) config;
  let config := <["networks" := YDict {[ "evaluation" := YNull ]}]> config in
  Return (mkConfigResult
            (mkEvaluationParameters (version challenge_parameters_)
               ((fun sd => mkServiceDefinition (image sd)
                             (update (environment sd) extra)
                             (image_digest sd) (build sd)) <$> services1))
            logged config).

End Config.

(** *** The files of a job that stay in the local cache *)

(** One entry of [uploaded]. *)
Record Uploaded := mkUploaded {
  u_size : Z;
  u_mime_type : string;
  u_rpath : string;
  u_sha256hex : string;
  u_storage : gmap string Runner.S3Object
}.

Definition endswith (s suffix : string) : bool :=
  let n := String.length s in
  let m := String.length suffix in
  (m <=? n)%nat && bool_decide (String.substring (n - m) m s = suffix).

Section Uploads.

(** The digest that [shasum -a 256] prints for a content, and
    [mimetypes.guess_type]. *)
Variable shasum : string -> string.
Variable guess_type : string -> option string.

Definition compute_sha256hex (filename : string) : Runner.R string :=
  fun w =>
    match Runner.files w !! filename with
    | Some content =>
        let h := shasum content in
        if bool_decide (String.length h = 64%nat)
        then (w, Return h)
        else (w, Raise (Exn AssertionError ""))
    | None => (w, Raise (Exn OtherException "CalledProcessError"))
    end.

Definition guess_mime_type (filename : string) : string :=
  match guess_type filename with
  | Some mime_type => mime_type
  | None =>
      if endswith filename ".yaml" then "text/yaml" else "binary/octet-stream"
  end.

(** [only_copy_to_cache]; [toupload] is an ordered dictionary. *)
Fixpoint only_copy_to_cache_loop (toupload : list (string * string))
    (uploaded : list Uploaded) : Runner.R (list Uploaded) :=
  match toupload with
  | [] => mret uploaded
  | (rpath, realfile) :: toupload' =>
      sha256hex ← compute_sha256hex realfile;
      Runner.copy_to_cache realfile sha256hex ;;
      size ← Runner.st_size realfile;
      let mime_type := guess_mime_type realfile in
      let storage := ∅ in
      only_copy_to_cache_loop toupload'
        (uploaded ++ [mkUploaded size mime_type rpath sha256hex storage])
  end.

Definition only_copy_to_cache (toupload : list (string * string))
    : Runner.R (list Uploaded) :=
  only_copy_to_cache_loop toupload [].

End Uploads.

(** *** The report of a job *)

Inductive report_event :=
| Report_job (attempt : nat)
| Warning_could_not_report
| Info_retrying (ntries interval : Z)
| Sleep (interval : Z).

(** The loop at the end of [go_]; [dtserver_report_job attempt] tells
    whether the request of that attempt goes through.  The loop runs as
    long as [ntries >= 0]; [fuel] bounds the number of rounds. *)
Fixpoint report_loop (fuel : nat) (dtserver_report_job : nat -> bool)
    (attempt : nat) (ntries interval : Z) : option (list report_event) :=
  match fuel with
  | O => None
  | S fuel' =>
      if (0 <=? ntries)%Z then
        if dtserver_report_job attempt
        then Some [Report_job attempt]                           (* break *)
        else
          evs ← report_loop fuel' dtserver_report_job (S attempt)
                  (ntries - 1) interval;
          Some ([Report_job attempt; Warning_could_not_report;
                 Info_retrying ntries interval; Sleep interval] ++ evs)
      else Some []
  end.

Definition report (fuel : nat) (dtserver_report_job : nat -> bool)
    : option (list report_event) :=
  let ntries := 5%Z in
  let interval := 10%Z in
  report_loop fuel dtserver_report_job 0 ntries interval.

End Job.

(** * Properties *)

Import Yaml Transitions.

(** ** Running a computation *)

Lemma bind_run {S A B} (m : SE S A) (k : A -> SE S B) (s : S) :
  (m ≫= k) s = match m s with
               | (s', Return a) => k a s'
               | (s', Raise e) => (s', Raise e)
               end.
Proof. reflexivity. Qed.

Lemma try_except_run {S A} (body : SE S A) handler (s : S) :
  try_except body handler s =
    match body s with
    | (s', Return a) => (s', Return a)
    | (s', Raise e) => handler e s'
    end.
Proof. reflexivity. Qed.

(** ** Equality of YAML values *)

Lemma yaml_size_elem l v : v ∈ l -> yaml_size v < yaml_size (YList l).
Proof. induction 1 as [v l|v u l _ IH]; cbn in *; lia. Qed.

Lemma yaml_size_lookup (d : gmap string yaml) k v :
  d !! k = Some v -> yaml_size v < yaml_size (YDict d).
Proof.
  intros Hk. cbn.
  rewrite (map_fold_delete_L _ _ k v d); [lia| |done].
  intros. lia.
Qed.

Lemma dict_eqb_spec (eqb : yaml -> yaml -> bool) (d2 : gmap string yaml) :
  forall d1 : gmap string yaml,
  map_fold (fun k v acc =>
              acc && match d2 !! k with
                     | Some v' => eqb v v'
                     | None => false
                     end) true d1 = true
  <-> (forall k v, d1 !! k = Some v ->
         exists v', d2 !! k = Some v' ∧ eqb v v' = true).
Proof.
  apply (map_fold_weak_ind (fun r (m : gmap string yaml) =>
           r = true <-> (forall k v, m !! k = Some v ->
                           exists v', d2 !! k = Some v' ∧ eqb v v' = true))).
  - split; [|done]. intros _ k v Hk. by rewrite lookup_empty in Hk.
  - intros i x m r Hi IH. rewrite andb_true_iff, IH. split.
    + intros [Hm Hx] k v Hk.
      destruct (decide (i = k)) as [->|Hne].
      * rewrite lookup_insert_eq in Hk. inversion Hk; subst.
        destruct (d2 !! k) as [v'|]; [eauto|done].
      * rewrite lookup_insert_ne in Hk by done. eauto.
    + intros H. split.
      * intros k v Hk. apply H. rewrite lookup_insert_ne; [done|].
        intros ->. congruence.
      * destruct (H i x) as (v' & -> & Hv'); [apply lookup_insert_eq|done].
Qed.

Lemma yaml_eqb_eq x : forall y, yaml_eqb x y = true <-> x = y.
Proof.
  remember (yaml_size x) as n eqn:Hn. revert x Hn.
  induction n as [n IH] using lt_wf_ind. intros x -> y.
  destruct x, y; cbn [yaml_eqb]; try (split; [discriminate|congruence]).
  - done.
  - rewrite bool_decide_eq_true. split; congruence.
  - rewrite bool_decide_eq_true. split; congruence.
  - rewrite bool_decide_eq_true. split; congruence.
  - assert (Hl : forall a, a ∈ l -> forall b, yaml_eqb a b = true <-> a = b).
    { intros a Ha. eapply IH; [|reflexivity]. by apply yaml_size_elem. }
    clear IH. revert l0. induction l as [|a l IHl]; intros [|b l0].
    + done.
    + split; [discriminate|congruence].
    + split; [discriminate|congruence].
    + rewrite andb_true_iff, (Hl a) by left.
      assert (Hl' : forall a, a ∈ l -> forall b, yaml_eqb a b = true <-> a = b).
      { intros a0 Ha0. apply Hl. by right. }
      specialize (IHl Hl' l0). rewrite IHl.
      split; [intros [-> [=]]|intros [=]]; subst; done.
  - rewrite andb_true_iff, bool_decide_eq_true, dict_eqb_spec. split.
    + intros [Hsub Hsize]. f_equal. apply map_subseteq_size_eq; [|lia].
      apply map_subseteq_spec. intros k v Hk.
      destruct (Hsub k v Hk) as (v' & Hk' & Heq).
      apply (IH (yaml_size v) (yaml_size_lookup d k v Hk) v eq_refl) in Heq.
      congruence.
    + intros [= ->]. split; [|done]. intros k v Hk. exists v. split; [done|].
      by apply (IH (yaml_size v) (yaml_size_lookup d0 k v Hk) v eq_refl).
Qed.

(** [yaml_eqb] decides equality. *)
#[global] Instance yaml_eq_dec : EqDecision yaml.
Proof.
  intros x y. destruct (yaml_eqb x y) eqn:H.
  - left. by apply yaml_eqb_eq.
  - right. intros Heq. apply yaml_eqb_eq in Heq. congruence.
Defined.

(** ** The transition engine *)

Section EngineFacts.

Context (CC : ChallengesConstantsT).

Ltac msimpl :=
  repeat first
    [ rewrite bind_run
    | progress (cbn [log ret mret SE_ret pass raise assert heap dclog fst snd]) ].

Lemma dict_pop_hit p k v d w :
  heap w !! p = Some d -> d !! k = Some v ->
  dict_pop p k w = (mkWorld (<[p := delete k d]> (heap w)) (dclog w), Return v).
Proof. intros Hp Hk. unfold dict_pop. by rewrite Hp, Hk. Qed.

Lemma dict_pop_miss p k d w :
  heap w !! p = Some d -> d !! k = None ->
  dict_pop p k w = (w, Raise (Exn KeyError k)).
Proof. intros Hp Hk. unfold dict_pop. by rewrite Hp, Hk. Qed.

(** One iteration of the first loop, on an entry still in the copy. *)
Lemma sanitize_entry_run self p k ks w d :
  heap w !! p = Some d -> d !! k = Some ks ->
  sanitize_entry CC self p (k, ks) w =
    if decide (k ≠ STATE_START ∧ k ∉ steps self) then
      if decide (ks ∉ ALLOWED_JOB_STATUS CC) then
        (mkWorld (<[p := delete k d]> (heap w))
                 (dclog w ++ [(ERROR, Ignoring_invalid_step k ks);
                              (ERROR, Ignoring_invalid_step k ks)]),
         Raise (Exn KeyError k))
      else
        (mkWorld (<[p := delete k d]> (heap w))
                 (dclog w ++ [(ERROR, Ignoring_invalid_step k ks)]),
         Return tt)
    else
      if decide (ks ∉ ALLOWED_JOB_STATUS CC) then
        (mkWorld (<[p := delete k d]> (heap w))
                 (dclog w ++ [(ERROR, Ignoring_invalid_step k ks)]),
         Return tt)
      else (w, Return tt).
Proof.
  intros Hp Hk. unfold sanitize_entry.
  destruct (decide (k ≠ STATE_START ∧ k ∉ steps self)) as [Hkey|Hkey];
    [ rewrite (bool_decide_eq_true_2 _ Hkey)
    | rewrite (bool_decide_eq_false_2 _ Hkey) ];
    (destruct (decide (ks ∉ ALLOWED_JOB_STATUS CC)) as [Hst|Hst];
     [ rewrite (bool_decide_eq_true_2 _ Hst)
     | rewrite (bool_decide_eq_false_2 _ Hst) ]);
    msimpl; try done.
  - erewrite dict_pop_hit by (cbn; eauto). msimpl.
    erewrite dict_pop_miss;
      [| cbn; apply lookup_insert_eq | apply lookup_delete_eq ].
    by rewrite <- app_assoc.
  - erewrite dict_pop_hit by (cbn; eauto). by msimpl.
  - erewrite dict_pop_hit by (cbn; eauto). by msimpl.
Qed.

Lemma world_eta w : mkWorld (heap w) (dclog w) = w.
Proof. by destruct w. Qed.

Lemma valid_not_doubly self k ks :
  valid_entry CC (steps self) k ks -> ¬ doubly_invalid CC (steps self) k ks.
Proof. unfold valid_entry, doubly_invalid. tauto. Qed.

Lemma valid_entry_cases self k ks :
  valid_entry CC (steps self) k ks <->
  ¬ (k ≠ STATE_START ∧ k ∉ steps self) ∧ ¬ (ks ∉ ALLOWED_JOB_STATUS CC).
Proof.
  unfold valid_entry. split.
  - intros [Hk Hs]. split; [|tauto]. destruct Hk; tauto.
  - intros [Hk Hs]. split.
    + destruct (decide (k = STATE_START)); [tauto|].
      destruct (decide (k ∈ steps self)); tauto.
    + destruct (decide (ks ∈ ALLOWED_JOB_STATUS CC)); tauto.
Qed.

(** The first loop on a snapshot none of whose entries is popped twice:
    the copy ends up holding the entries outside the snapshot and the valid
    ones, and each dropped entry is logged once. *)
Lemma for_each_sanitize_ok self p items :
  forall d w,
  heap w !! p = Some d ->
  NoDup items.*1 ->
  (forall k ks, (k, ks) ∈ items -> d !! k = Some ks) ->
  Forall (fun kv => ¬ doubly_invalid CC (steps self) kv.1 kv.2) items ->
  for_each items (sanitize_entry CC self p) w =
    (mkWorld
       (<[p := filter (fun kv => kv ∉ items ∨ valid_entry CC (steps self) kv.1 kv.2) d]>
          (heap w))
       (dclog w ++ ignoring_messages CC (steps self) items),
     Return tt).
Proof.
  induction items as [|[k ks] items IH]; intros d w Hp Hnd Hin Hok.
  - cbn. unfold ignoring_messages. cbn. rewrite app_nil_r.
    rewrite map_filter_id, insert_id, world_eta; [done..|].
    intros i x _. left. apply not_elem_of_nil.
  - cbn [for_each]. rewrite bind_run.
    inversion Hnd as [|? ? Hk_notin Hnd']; subst.
    inversion Hok as [|? ? Hhd Hok']; subst. cbn in Hhd.
    assert (Hk : d !! k = Some ks) by (apply Hin; left).
    rewrite (sanitize_entry_run self p k ks w d Hp Hk).
    assert (Hne : forall i x, (i, x) ∈ items -> i ≠ k).
    { intros i x Hix ->. apply Hk_notin. apply list_elem_of_fmap.
      by exists (k, x). }
    destruct (decide (valid_entry CC (steps self) k ks)) as [Hv|Hv].
    + (* kept *)
      pose proof (proj1 (valid_entry_cases self k ks) Hv) as [Hv1 Hv2].
      rewrite (decide_False _ _ Hv1), (decide_False _ _ Hv2).
      rewrite (IH d w Hp Hnd'); [| intros; apply Hin; by right | done].
      unfold ignoring_messages. cbn [omap list_omap]. cbn [fst snd].
      rewrite (decide_True _ _ Hv). fold (ignoring_messages CC (steps self) items).
      f_equal. f_equal. f_equal.
      apply map_filter_ext. intros i x Hix. cbn.
      rewrite not_elem_of_cons. split; [|tauto].
      intros [Hni|Hvx]; [|tauto].
      destruct (decide ((i, x) = (k, ks))) as [Heq|Heq]; [|tauto].
      inversion Heq; subst. tauto.
    + (* dropped, by exactly one of the two tests *)
      assert (Hw' : forall msgs,
        for_each items (sanitize_entry CC self p)
          (mkWorld (<[p := delete k d]> (heap w)) (dclog w ++ msgs)) =
        (mkWorld
           (<[p := filter (fun kv => kv ∉ (k, ks) :: items
                                    ∨ valid_entry CC (steps self) kv.1 kv.2) d]> (heap w))
           ((dclog w ++ msgs) ++ ignoring_messages CC (steps self) items),
         Return tt)).
      { intros msgs.
        rewrite (IH (delete k d)); cbn [heap dclog].
        - rewrite insert_insert_eq. f_equal. f_equal. f_equal.
          apply map_eq. intros i. apply option_eq. intros x.
          rewrite !map_lookup_filter_Some. cbn.
          rewrite lookup_delete_Some, not_elem_of_cons. split.
          + intros [[Hik Hix] HP]. split; [done|].
            destruct HP as [HP|HP]; [left|by right].
            split; [congruence|done].
          + intros [Hix HP]. destruct (decide (k = i)) as [->|Hik].
            * assert (x = ks) by congruence. subst x.
              destruct HP as [[HP _]|HP]; [congruence|tauto].
            * split; [done|]. destruct HP as [[_ HP]|HP]; tauto.
        - apply lookup_insert_eq.
        - done.
        - intros i x Hix. rewrite lookup_delete_ne; [apply Hin; by right|].
          intros ->. by eapply Hne.
        - done. }
      unfold ignoring_messages at 1. cbn [omap list_omap]. cbn [fst snd].
      rewrite (decide_False _ _ Hv). fold (ignoring_messages CC (steps self) items).
      destruct (decide (k ≠ STATE_START ∧ k ∉ steps self)) as [Hkey|Hkey];
        destruct (decide (ks ∉ ALLOWED_JOB_STATUS CC)) as [Hst|Hst].
      * exfalso. apply Hhd. by split.
      * rewrite Hw'. by rewrite <- app_assoc.
      * rewrite Hw'. by rewrite <- app_assoc.
      * exfalso. apply Hv. apply valid_entry_cases. tauto.
Qed.

(** The first loop on a snapshot holding an entry with an undeclared key
    and a status that is not allowed: the second [pop] of that key raises. *)
Lemma for_each_sanitize_raises self p items :
  forall d w,
  heap w !! p = Some d ->
  NoDup items.*1 ->
  (forall k ks, (k, ks) ∈ items -> d !! k = Some ks) ->
  Exists (fun kv => doubly_invalid CC (steps self) kv.1 kv.2) items ->
  exists w' k ks,
    (k, ks) ∈ items ∧ doubly_invalid CC (steps self) k ks ∧
    for_each items (sanitize_entry CC self p) w = (w', Raise (Exn KeyError k)).
Proof.
  induction items as [|[k ks] items IH]; intros d w Hp Hnd Hin Hex.
  - by apply Exists_nil in Hex.
  - cbn [for_each]. rewrite bind_run.
    inversion Hnd as [|? ? Hk_notin Hnd']; subst.
    assert (Hk : d !! k = Some ks) by (apply Hin; left).
    rewrite (sanitize_entry_run self p k ks w d Hp Hk).
    assert (Hne : forall i x, (i, x) ∈ items -> i ≠ k).
    { intros i x Hix ->. apply Hk_notin. apply list_elem_of_fmap.
      by exists (k, x). }
    assert (Hrest : forall i x, (i, x) ∈ items -> delete k d !! i = Some x).
    { intros i x Hix. rewrite lookup_delete_ne; [apply Hin; by right|].
      intros ->. by eapply Hne. }
    destruct (decide (doubly_invalid CC (steps self) k ks)) as [Hdi|Hdi].
    + destruct Hdi as [Hkey Hst].
      rewrite (decide_True _ _ Hkey), (decide_True _ _ Hst).
      eexists _, k, ks. split; [left|]. split; [by split|done].
    + apply Exists_cons in Hex as [Hex|Hex]; [done|].
      assert (Hgo : forall w1 d1,
        heap w1 !! p = Some d1 ->
        (forall i x, (i, x) ∈ items -> d1 !! i = Some x) ->
        exists w' k0 ks0,
          (k0, ks0) ∈ (k, ks) :: items ∧ doubly_invalid CC (steps self) k0 ks0 ∧
          for_each items (sanitize_entry CC self p) w1
            = (w', Raise (Exn KeyError k0))).
      { intros w1 d1 Hp1 Hin1.
        destruct (IH d1 w1 Hp1 Hnd' Hin1 Hex) as (w' & k0 & ks0 & H1 & H2 & H3).
        exists w', k0, ks0. split; [by right|done]. }
      destruct (decide (k ≠ STATE_START ∧ k ∉ steps self)) as [Hkey|Hkey];
        destruct (decide (ks ∉ ALLOWED_JOB_STATUS CC)) as [Hst|Hst].
      * exfalso. apply Hdi. by split.
      * apply (Hgo _ (delete k d)); [apply lookup_insert_eq | done].
      * apply (Hgo _ (delete k d)); [apply lookup_insert_eq | done].
      * apply (Hgo _ d); [done | intros; apply Hin; by right].
Qed.

(** *** Frame: only the copy is written *)

Lemma dict_pop_frame p k w q :
  q ≠ p -> heap (dict_pop p k w).1 !! q = heap w !! q.
Proof.
  intros Hq. unfold dict_pop.
  destruct (heap w !! p) as [d|]; [|done].
  destruct (d !! k); [|done]. cbn. by rewrite lookup_insert_ne.
Qed.

Lemma sanitize_entry_frame self p item w q :
  q ≠ p -> heap (sanitize_entry CC self p item w).1 !! q = heap w !! q.
Proof.
  intros Hq. destruct item as [k ks]. unfold sanitize_entry.
  assert (Hpop : forall w0,
    heap ((log ERROR (Ignoring_invalid_step k ks) ;; _ ← dict_pop p k; ret ())
            w0).1 !! q = heap w0 !! q).
  { intros w0. msimpl.
    pose proof (dict_pop_frame p k
      (mkWorld (heap w0) (dclog w0 ++ [(ERROR, Ignoring_invalid_step k ks)]))
      q Hq) as Hf.
    destruct (dict_pop p k _) as [w1 [v|e]]; msimpl; exact Hf. }
  rewrite bind_run.
  destruct (bool_decide (k ≠ STATE_START ∧ k ∉ steps self)).
  - pose proof (Hpop w) as H1.
    destruct ((log ERROR (Ignoring_invalid_step k ks) ;; _ ← dict_pop p k; ret ()) w)
      as [w1 [[]|e]]; [|exact H1].
    destruct (bool_decide (ks ∉ ALLOWED_JOB_STATUS CC)).
    + rewrite Hpop. exact H1.
    + exact H1.
  - msimpl. destruct (bool_decide (ks ∉ ALLOWED_JOB_STATUS CC)).
    + apply Hpop.
    + done.
Qed.

Lemma for_each_sanitize_frame self p items :
  forall w q, q ≠ p ->
  heap (for_each items (sanitize_entry CC self p) w).1 !! q = heap w !! q.
Proof.
  induction items as [|item items IH]; intros w q Hq; [done|].
  cbn [for_each]. rewrite bind_run.
  pose proof (sanitize_entry_frame self p item w q Hq) as H1.
  destruct (sanitize_entry CC self p item w) as [w1 [[]|e]]; [|exact H1].
  rewrite IH by done. exact H1.
Qed.

(** The second loop only appends to the log. *)
Lemma transitions_loop_heap d ts :
  forall acc w, heap (transitions_loop CC d ts acc w).1 = heap w.
Proof.
  induction ts as [|t ts IH]; intros acc w; cbn [transitions_loop].
  - by msimpl.
  - destruct (bool_decide (d !! first t = Some (condition t))); [|apply IH].
    msimpl. destruct (d !! second t) as [st|].
    + destruct (bool_decide _); msimpl; [by rewrite IH|].
      destruct (terminal (second t)); msimpl; [done|by rewrite IH].
    + destruct (terminal (second t)); msimpl; [done|by rewrite IH].
Qed.

(** *** [get_next_steps] up to its second loop *)

Lemma sanitizable_Forall self d :
  sanitizable CC (steps self) d = true ->
  Forall (fun kv => ¬ doubly_invalid CC (steps self) kv.1 kv.2) (map_to_list d).
Proof.
  unfold sanitizable. rewrite forallb_forall, Forall_forall.
  intros H kv Hkv. apply list_elem_of_In in Hkv. specialize (H kv Hkv).
  apply negb_true_iff, bool_decide_eq_false in H. exact H.
Qed.

Lemma not_sanitizable_Exists self d :
  sanitizable CC (steps self) d = false ->
  Exists (fun kv => doubly_invalid CC (steps self) kv.1 kv.2) (map_to_list d).
Proof.
  unfold sanitizable. intros H.
  destruct (decide (Exists (fun kv => doubly_invalid CC (steps self) kv.1 kv.2)
                           (map_to_list d))) as [|Hn]; [done|].
  apply not_Exists_Forall in Hn; [|intros; apply _].
  assert (forallb (fun kv => negb (bool_decide (doubly_invalid CC (steps self) kv.1 kv.2)))
                  (map_to_list d) = true); [|congruence].
  apply forallb_forall. intros kv Hkv. apply list_elem_of_In in Hkv.
  rewrite Forall_forall in Hn. specialize (Hn kv Hkv). cbn in Hn.
  apply negb_true_iff, bool_decide_eq_false. exact Hn.
Qed.

(** The world in which the second loop starts. *)
Lemma get_next_steps_sanitized self l w d :
  heap w !! l = Some d ->
  d !! STATE_START = Some "success" ->
  sanitizable CC (steps self) d = true ->
  get_next_steps CC self l w =
    transitions_loop CC (sanitized CC (steps self) d) (transitions self) []
      (mkWorld (<[fresh (dom (heap w)) := sanitized CC (steps self) d]> (heap w))
               (dclog w ++ (INFO, Received_status (Some d))
                        :: ignoring_messages CC (steps self) (map_to_list d))).
Proof.
  intros Hl Hstart Hok. unfold get_next_steps.
  unfold lookup_obj, deref, lookup_obj, dict_items, deref, lookup_obj, new_dict.
  msimpl. rewrite Hl. msimpl.
  rewrite bool_decide_eq_true_2 by (rewrite Hstart; eauto). msimpl.
  rewrite bool_decide_eq_true_2 by done. msimpl.
  rewrite lookup_insert_eq. msimpl.
  erewrite for_each_sanitize_ok;
    [ | cbn; apply lookup_insert_eq
      | apply NoDup_fst_map_to_list
      | intros k ks; apply elem_of_map_to_list
      | by apply sanitizable_Forall ].
  msimpl. rewrite insert_insert_eq, lookup_insert_eq. msimpl.
  assert (Hf : filter (fun kv => kv ∉ map_to_list d ∨ valid_entry CC (steps self) kv.1 kv.2) d
               = sanitized CC (steps self) d).
  { unfold sanitized. apply map_filter_ext. intros i x Hix. cbn.
    split; [|tauto]. intros [Hn|Hv]; [|done].
    exfalso. apply Hn. by apply elem_of_map_to_list. }
  rewrite Hf. by rewrite <- app_assoc.
Qed.

Lemma get_next_steps_double_pop self l w d :
  heap w !! l = Some d ->
  d !! STATE_START = Some "success" ->
  sanitizable CC (steps self) d = false ->
  exists w' k ks,
    d !! k = Some ks ∧ doubly_invalid CC (steps self) k ks ∧
    get_next_steps CC self l w = (w', Raise (Exn KeyError k)).
Proof.
  intros Hl Hstart Hbad. unfold get_next_steps.
  unfold lookup_obj, deref, lookup_obj, dict_items, deref, lookup_obj, new_dict.
  msimpl. rewrite Hl. msimpl.
  rewrite bool_decide_eq_true_2 by (rewrite Hstart; eauto). msimpl.
  rewrite bool_decide_eq_true_2 by done. msimpl.
  rewrite lookup_insert_eq. msimpl.
  edestruct (for_each_sanitize_raises self (fresh (dom (heap w))) (map_to_list d) d)
    as (w' & k & ks & Hin & Hdi & Hrun);
    [ | apply NoDup_fst_map_to_list
      | intros k ks; apply elem_of_map_to_list
      | by apply not_sanitizable_Exists | ].
  2: { rewrite Hrun. exists w', k, ks.
       split; [by apply elem_of_map_to_list|]. split; done. }
  cbn. apply lookup_insert_eq.
Qed.

(** *** The second loop *)

(** One iteration, by the kind of the transition. *)
Lemma transitions_loop_cons d t ts acc w :
  transitions_loop CC d (t :: ts) acc w =
    if fired d t then
      let w1 := mkWorld (heap w) (dclog w ++ [(DEBUG, Transition_is_activated t)]) in
      match d !! second t with
      | Some st =>
          if decide (st = STATUS_ABORTED CC) then
            if terminal (second t) then
              (mkWorld (heap w) (dclog w1 ++ [(DEBUG, Finishing_here)]),
               Return (true, Some (lower (second t)), []))
            else transitions_loop CC d ts (acc ++ [second t]) w1
          else
            transitions_loop CC d ts acc
              (mkWorld (heap w)
                 (dclog w1 ++ [(DEBUG, Second_already_activated (second t) st)]))
      | None =>
          if terminal (second t) then
            (mkWorld (heap w) (dclog w1 ++ [(DEBUG, Finishing_here)]),
             Return (true, Some (lower (second t)), []))
          else transitions_loop CC d ts (acc ++ [second t]) w1
      end
    else transitions_loop CC d ts acc w.
Proof.
  cbn [transitions_loop]. unfold fired.
  destruct (bool_decide (d !! first t = Some (condition t))); [|done].
  msimpl. destruct (d !! second t) as [st|].
  - destruct (decide (st = STATUS_ABORTED CC)) as [->|Hne].
    + rewrite bool_decide_eq_false_2 by (rewrite list_elem_of_singleton; tauto).
      destruct (terminal (second t)); by msimpl.
    + rewrite bool_decide_eq_true_2 by (by rewrite list_elem_of_singleton).
      by msimpl.
  - destruct (terminal (second t)); by msimpl.
Qed.

(** A prefix without a finishing transition only accumulates activations
    and log lines; what it leaves behind does not depend on what follows. *)
Lemma transitions_loop_prefix d pre :
  Forall (fun t => finishes CC d t = false) pre ->
  forall acc w, exists lg, forall rest,
    transitions_loop CC d (pre ++ rest) acc w =
    transitions_loop CC d rest
      (acc ++ map second (List.filter (activates CC d) pre))
      (mkWorld (heap w) (dclog w ++ lg)).
Proof.
  induction pre as [|t pre IH]; intros Hpre acc w.
  - exists []. intros rest. cbn. by rewrite !app_nil_r, world_eta.
  - inversion Hpre as [|? ? Ht Hpre']; subst.
    assert (Hstep : exists lg1 (acc1 : list string),
      acc1 ++ map second (List.filter (activates CC d) pre)
        = acc ++ map second (List.filter (activates CC d) (t :: pre)) ∧
      forall ts, transitions_loop CC d (t :: ts) acc w =
                 transitions_loop CC d ts acc1
                   (mkWorld (heap w) (dclog w ++ lg1))).
    { unfold finishes, activates, not_yet_run in *. cbn [List.filter].
      destruct (fired d t) eqn:Hf; cbn [andb] in Ht |- *.
      2: { exists [], acc. split; [done|]. intros ts.
           rewrite transitions_loop_cons, Hf. by rewrite app_nil_r, world_eta. }
      destruct (d !! second t) as [st|] eqn:Hst.
      - destruct (decide (st = STATUS_ABORTED CC)) as [->|Hne].
        + rewrite bool_decide_eq_true_2 in Ht |- * by done. cbn [andb] in Ht |- *.
          rewrite Ht. cbn [negb map].
          eexists _, (acc ++ [second t]). split; [by rewrite <- app_assoc|].
          intros ts. rewrite transitions_loop_cons, Hf, Hst, decide_True, Ht by done.
          reflexivity.
        + rewrite bool_decide_eq_false_2 by done. cbn [andb].
          eexists _, acc. split; [done|].
          intros ts. rewrite transitions_loop_cons, Hf, Hst, decide_False by done.
          cbn zeta. cbn [dclog]. rewrite <- app_assoc. reflexivity.
      - cbn [andb] in Ht |- *. rewrite Ht. cbn [negb map].
        eexists _, (acc ++ [second t]). split; [by rewrite <- app_assoc|].
        intros ts. rewrite transitions_loop_cons, Hf, Hst, Ht.
        reflexivity. }
    destruct Hstep as (lg1 & acc1 & Hacc & Hrun).
    destruct (IH Hpre' acc1 (mkWorld (heap w) (dclog w ++ lg1))) as [lg Hlg].
    exists (lg1 ++ lg). intros rest.
    change ((t :: pre) ++ rest) with (t :: (pre ++ rest)).
    rewrite Hrun, Hlg, Hacc. cbn [heap dclog]. by rewrite <- app_assoc.
Qed.

(** A finishing transition returns on the spot. *)
Lemma transitions_loop_finishes d t ts acc w :
  finishes CC d t = true ->
  transitions_loop CC d (t :: ts) acc w =
    (mkWorld (heap w)
       (dclog w ++ [(DEBUG, Transition_is_activated t); (DEBUG, Finishing_here)]),
     Return (true, Some (lower (second t)), [])).
Proof.
  unfold finishes, not_yet_run. intros H.
  apply andb_true_iff in H as [H Hterm]. apply andb_true_iff in H as [Hf Hnyr].
  rewrite transitions_loop_cons, Hf, Hterm. cbn zeta.
  destruct (d !! second t) as [st|].
  - apply bool_decide_eq_true in Hnyr. rewrite decide_True by done.
    cbn [dclog]. by rewrite <- app_assoc.
  - cbn [dclog]. by rewrite <- app_assoc.
Qed.

(** *** What [get_next_steps] returns *)

Lemma fresh_heap_ne (h : gmap loc dict) l d :
  h !! l = Some d -> l ≠ fresh (dom h).
Proof.
  intros Hl ->. apply (is_fresh (dom h)). apply elem_of_dom. eauto.
Qed.

(** When no step is called like a terminal state, a terminal target never
    has a status in the sanitized map. *)
Lemma terminal_not_yet_run stps d name :
  terminal name = true -> name ∉ stps ->
  not_yet_run CC (sanitized CC stps d) name = true.
Proof.
  intros Hterm Hstep. unfold not_yet_run, sanitized.
  destruct (filter _ d !! name) as [st|] eqn:Hst; [|done].
  apply map_lookup_filter_Some in Hst as [_ Hv].
  destruct Hv as [[Heq|Hin] _].
  - cbn in Heq. subst name. by vm_compute in Hterm.
  - done.
Qed.

(** The first finishing transition ends the second loop, whatever comes
    after it in the list. *)
Lemma transitions_loop_first_finishing d pre t acc w :
  Forall (fun t' => finishes CC d t' = false) pre ->
  finishes CC d t = true ->
  exists lg, forall post,
    transitions_loop CC d (pre ++ t :: post) acc w =
      (mkWorld (heap w) (dclog w ++ lg),
       Return (true, Some (lower (second t)), [])).
Proof.
  intros Hpre Ht.
  destruct (transitions_loop_prefix d pre Hpre acc w) as [lg Hlg].
  eexists (lg ++ _). intros post.
  rewrite Hlg, transitions_loop_finishes by done. cbn [heap dclog].
  by rewrite <- app_assoc.
Qed.

(** C1: on a status map with START = success whose sanitization
    completes, the first fired transition whose target is a terminal value
    without a status other than aborted in the sanitized map makes
    [get_next_steps] return finished, the lower-cased terminal and no step
    to activate; the world it leaves and its result are the same whatever
    transitions follow, and the caller's map is as before. *)
Theorem C1_first_terminal_wins stps pre t l w d :
  heap w !! l = Some d ->
  d !! STATE_START = Some "success" ->
  sanitizable CC stps d = true ->
  Forall (fun t' => finishes CC (sanitized CC stps d) t' = false) pre ->
  fired (sanitized CC stps d) t = true ->
  terminal (second t) = true ->
  not_yet_run CC (sanitized CC stps d) (second t) = true ->
  exists w', heap w' !! l = Some d ∧ forall post,
    get_next_steps CC (mkCT (pre ++ t :: post) stps) l w =
      (w', Return (true, Some (lower (second t)), [])).
Proof.
  intros Hl Hstart Hok Hpre Hfired Hterm Hnyr.
  edestruct (transitions_loop_first_finishing (sanitized CC stps d) pre t [])
    as [lg Hlg]; [done | by unfold finishes; rewrite Hfired, Hnyr, Hterm |].
  eexists. split; [|intros post].
  2: { rewrite (get_next_steps_sanitized (mkCT (pre ++ t :: post) stps)
                  l w d Hl Hstart Hok).
       cbn [steps transitions]. apply Hlg. }
  cbn [heap]. rewrite lookup_insert_ne; [done|].
  apply not_eq_sym. by eapply fresh_heap_ne.
Qed.

(** When no step is called like a terminal state, the first fired
    transition to a terminal value wins on every status map that the first
    loop accepts. *)
Lemma first_fired_terminal_wins stps pre t l w d :
  heap w !! l = Some d ->
  d !! STATE_START = Some "success" ->
  sanitizable CC stps d = true ->
  (forall name, terminal name = true -> name ∉ stps) ->
  Forall (fun t' => fired (sanitized CC stps d) t' && terminal (second t') = false)
         pre ->
  fired (sanitized CC stps d) t = true ->
  terminal (second t) = true ->
  exists w', forall post,
    get_next_steps CC (mkCT (pre ++ t :: post) stps) l w =
      (w', Return (true, Some (lower (second t)), [])).
Proof.
  intros Hl Hstart Hok Hnames Hpre Hfired Hterm.
  edestruct (transitions_loop_first_finishing (sanitized CC stps d) pre t [])
    as [lg Hlg].
  - eapply Forall_impl; [exact Hpre|]. intros t' Ht'. cbn beta in Ht'.
    unfold finishes.
    destruct (fired _ t'), (terminal (second t')),
      (not_yet_run CC (sanitized CC stps d) (second t')); done.
  - unfold finishes. rewrite Hfired, Hterm, terminal_not_yet_run; auto.
  - eexists. intros post.
    rewrite (get_next_steps_sanitized (mkCT (pre ++ t :: post) stps)
               l w d Hl Hstart Hok).
    cbn [steps transitions]. apply Hlg.
Qed.

(** C2: a status map with START = success that holds an entry whose key is
    neither START nor a declared step and whose value is not an allowed job
    status makes [get_next_steps] raise [KeyError] for such a key: the
    first test pops the key, and the second test pops it again. *)
Theorem C2_invalid_key_and_status_raises self l w d k ks :
  heap w !! l = Some d ->
  d !! STATE_START = Some "success" ->
  d !! k = Some ks ->
  k ≠ STATE_START -> k ∉ steps self -> ks ∉ ALLOWED_JOB_STATUS CC ->
  exists w' k' ks',
    d !! k' = Some ks' ∧ doubly_invalid CC (steps self) k' ks' ∧
    get_next_steps CC self l w = (w', Raise (Exn KeyError k')).
Proof.
  intros Hl Hstart Hk Hk1 Hk2 Hks.
  apply get_next_steps_double_pop; [done..|].
  destruct (sanitizable CC (steps self) d) eqn:Hs; [|done].
  apply sanitizable_Forall in Hs. rewrite Forall_forall in Hs.
  exfalso. apply (Hs (k, ks)); [by apply elem_of_map_to_list|].
  cbn. by repeat split.
Qed.

(** C3: in the second loop a fired transition whose target is a step (not
    a terminal value) is skipped when the target has a status other than
    aborted in the sanitized map, and otherwise (no status, or aborted) the
    target is appended to the activation list, whatever the list already
    holds; when no transition finishes, [get_next_steps] returns the targets
    of all such transitions in declaration order, with repetitions. *)
Theorem C3_step_targets self l w d :
  heap w !! l = Some d ->
  d !! STATE_START = Some "success" ->
  sanitizable CC (steps self) d = true ->
  (forall t ts acc w0,
     fired (sanitized CC (steps self) d) t = true ->
     terminal (second t) = false ->
     exists lg,
       transitions_loop CC (sanitized CC (steps self) d) (t :: ts) acc w0 =
       transitions_loop CC (sanitized CC (steps self) d) ts
         (if not_yet_run CC (sanitized CC (steps self) d) (second t)
          then acc ++ [second t] else acc)
         (mkWorld (heap w0) (dclog w0 ++ lg)))
  ∧ (Forall (fun t => finishes CC (sanitized CC (steps self) d) t = false)
            (transitions self) ->
     exists w',
       get_next_steps CC self l w =
         (w', Return (false, None,
                      map second
                        (List.filter (activates CC (sanitized CC (steps self) d))
                                     (transitions self))))).
Proof.
  intros Hl Hstart Hok. set (sd := sanitized CC (steps self) d). split.
  - intros t ts acc w0 Hf Hterm.
    rewrite transitions_loop_cons, Hf, Hterm. cbn zeta. unfold not_yet_run.
    destruct (sd !! second t) as [st|]; [|eauto].
    destruct (decide (st = STATUS_ABORTED CC)) as [->|Hne].
    + rewrite bool_decide_eq_true_2 by done. eauto.
    + rewrite bool_decide_eq_false_2 by done. cbn [dclog].
      rewrite <- app_assoc. eauto.
  - intros Hnone.
    rewrite (get_next_steps_sanitized _ l w d Hl Hstart Hok). fold sd.
    edestruct (transitions_loop_prefix sd (transitions self) Hnone []) as [lg Hlg].
    specialize (Hlg []). rewrite app_nil_r in Hlg. rewrite Hlg.
    cbn [transitions_loop]. msimpl. eauto.
Qed.

(** C9: whatever its outcome, [get_next_steps] leaves the dictionary the
    caller passed, and every other object of the store, as they were: the
    entries are popped from the copy made by [dict( **status )]. *)
Theorem C9_caller_map_unchanged self l w :
  heap (get_next_steps CC self l w).1 !! l = heap w !! l
  ∧ heap w ⊆ heap (get_next_steps CC self l w).1.
Proof.
  assert (Hall : forall q, is_Some (heap w !! q) ->
            heap (get_next_steps CC self l w).1 !! q = heap w !! q).
  { intros q [dq Hq]. unfold get_next_steps.
    unfold lookup_obj, deref, lookup_obj, dict_items, deref, lookup_obj, new_dict.
    msimpl. destruct (heap w !! l) as [d0|]; msimpl; [|done].
    destruct (bool_decide (is_Some (d0 !! STATE_START))); msimpl; [|done].
    destruct (bool_decide (d0 !! STATE_START = Some "success")); msimpl; [|done].
    rewrite lookup_insert_eq. msimpl.
    set (p := fresh (dom (heap w))).
    assert (Hqp : q ≠ p) by (by eapply fresh_heap_ne).
    match goal with
    | |- context [for_each ?items ?body ?w1] =>
        pose proof (for_each_sanitize_frame self p items w1 q Hqp) as Hf;
        destruct (for_each items body w1) as [w2 [[]|e]]
    end; cbn [heap fst] in Hf; rewrite lookup_insert_ne in Hf by done;
      [|exact Hf].
    msimpl. destruct (heap w2 !! p) as [d2|]; msimpl; [|exact Hf].
    rewrite transitions_loop_heap. exact Hf. }
  split.
  - destruct (heap w !! l) as [d|] eqn:Hl.
    + rewrite <- Hl. apply Hall. rewrite Hl. eauto.
    + unfold get_next_steps, lookup_obj, deref, lookup_obj. msimpl.
      rewrite Hl. by msimpl.
  - apply map_subseteq_spec. intros q dq Hq.
    rewrite Hall; [done|eauto].
Qed.

End EngineFacts.

(** *** At sample inputs *)

Lemma C1_first_terminal_wins_witness :
  exists w',
    heap w' !! caller = Some (status_of [("START", "success"); ("s1", "success")])
    ∧ forall post,
      get_next_steps spec_constants
        (mkCT ([mkTransition "START" "success" "s1"]
               ++ mkTransition "s1" "success" "SUCCESS" :: post) ["s1"])
        caller
        (world_with (status_of [("START", "success"); ("s1", "success")]))
      = (w', Return (true, Some "success", [])).
Proof.
  apply (C1_first_terminal_wins spec_constants ["s1"]
           [mkTransition "START" "success" "s1"]
           (mkTransition "s1" "success" "SUCCESS")).
  - vm_compute. reflexivity.
  - vm_compute. reflexivity.
  - vm_compute. reflexivity.
  - repeat constructor.
  - vm_compute. reflexivity.
  - vm_compute. reflexivity.
  - vm_compute. reflexivity.
Defined.

(** C1, a step called SUCCESS that already has a status: the transition
    from START fires, its target is a terminal value, and yet the call
    returns unfinished, since the test on the target's status comes first. *)
Lemma C1_terminal_shadowed_by_step :
  ChallengeTransitions_init spec_constants [("START", "success", "SUCCESS")]
    ["SUCCESS"] = Return shadow_ct
  ∧ fired (status_of [("START", "success"); ("SUCCESS", "success")])
          (mkTransition "START" "success" "SUCCESS") = true
  ∧ terminal "SUCCESS" = true
  ∧ sanitized spec_constants ["SUCCESS"]
      (status_of [("START", "success"); ("SUCCESS", "success")])
    = status_of [("START", "success"); ("SUCCESS", "success")]
  ∧ (get_next_steps spec_constants shadow_ct caller
       (world_with (status_of [("START", "success"); ("SUCCESS", "success")]))).2
    = Return (false, None, []).
Proof. repeat split; vm_compute; reflexivity. Qed.

Lemma C2_invalid_key_and_status_raises_witness :
  exists w' k' ks',
    status_of [("START", "success"); ("bogus", "nonsense")] !! k' = Some ks'
    ∧ doubly_invalid spec_constants (steps example_ct) k' ks'
    ∧ get_next_steps spec_constants example_ct caller
        (world_with (status_of [("START", "success"); ("bogus", "nonsense")]))
      = (w', Raise (Exn KeyError k')).
Proof.
  apply (C2_invalid_key_and_status_raises spec_constants example_ct caller
           (world_with (status_of [("START", "success"); ("bogus", "nonsense")]))
           (status_of [("START", "success"); ("bogus", "nonsense")])
           "bogus" "nonsense").
  - vm_compute. reflexivity.
  - vm_compute. reflexivity.
  - vm_compute. reflexivity.
  - discriminate.
  - apply (bool_decide_eq_false_1 (_ ∈ _)). vm_compute. reflexivity.
  - apply (bool_decide_eq_false_1 (_ ∈ _)). vm_compute. reflexivity.
Defined.

(** The failing call, evaluated. *)
Example get_next_steps_bogus_entry :
  (get_next_steps spec_constants example_ct caller
     (world_with (status_of [("START", "success"); ("bogus", "nonsense")]))).2
  = Raise (Exn KeyError "bogus").
Proof. vm_compute. reflexivity. Qed.

(** An entry that is invalid in one way only is dropped and logged. *)
Example get_next_steps_bogus_key :
  (get_next_steps spec_constants example_ct caller
     (world_with (status_of [("START", "success"); ("bogus", "success")]))).2
  = Return (false, None, ["s1"])
  ∧ List.filter (fun m => bool_decide (m.1 = ERROR))
      (dclog (get_next_steps spec_constants example_ct caller
         (world_with (status_of [("START", "success"); ("bogus", "success")]))).1)
    = [(ERROR, Ignoring_invalid_step "bogus" "success")].
Proof. split; vm_compute; reflexivity. Qed.

Lemma C3_step_targets_witness :
  (forall t ts acc w0,
     fired (sanitized spec_constants (steps diamond_ct)
              (status_of [("START", "success"); ("a", "success"); ("b", "success")]))
           t = true ->
     terminal (second t) = false ->
     exists lg,
       transitions_loop spec_constants
         (sanitized spec_constants (steps diamond_ct)
            (status_of [("START", "success"); ("a", "success"); ("b", "success")]))
         (t :: ts) acc w0 =
       transitions_loop spec_constants
         (sanitized spec_constants (steps diamond_ct)
            (status_of [("START", "success"); ("a", "success"); ("b", "success")]))
         ts
         (if not_yet_run spec_constants
               (sanitized spec_constants (steps diamond_ct)
                  (status_of [("START", "success"); ("a", "success");
                              ("b", "success")]))
               (second t)
          then acc ++ [second t] else acc)
         (mkWorld (heap w0) (dclog w0 ++ lg)))
  ∧ exists w',
      get_next_steps spec_constants diamond_ct caller
        (world_with
           (status_of [("START", "success"); ("a", "success"); ("b", "success")]))
      = (w', Return (false, None, ["c"; "c"])).
Proof.
  destruct (C3_step_targets spec_constants diamond_ct caller
              (world_with
                 (status_of [("START", "success"); ("a", "success"); ("b", "success")]))
              (status_of [("START", "success"); ("a", "success"); ("b", "success")]))
    as [Hiter Hall].
  - vm_compute. reflexivity.
  - vm_compute. reflexivity.
  - vm_compute. reflexivity.
  - split; [exact Hiter|].
    apply Hall. repeat constructor.
Defined.

(** C3, a fired transition whose target is a declared step called like a
    terminal state: the constructor takes the graph, the target is a step of
    it, it has no status (or the aborted one) in the sanitized map, and yet
    it is not appended to the activation list: the walk finishes with the
    result success and nothing to activate. *)
Lemma C3_step_named_like_terminal :
  ChallengeTransitions_init spec_constants [("START", "success", "SUCCESS")]
    ["SUCCESS"] = Return shadow_ct
  ∧ second (mkTransition "START" "success" "SUCCESS") ∈ steps shadow_ct
  ∧ fired (sanitized spec_constants (steps shadow_ct)
             (status_of [("START", "success")]))
          (mkTransition "START" "success" "SUCCESS") = true
  ∧ sanitized spec_constants (steps shadow_ct)
      (status_of [("START", "success")]) !! "SUCCESS" = None
  ∧ (get_next_steps spec_constants shadow_ct caller
       (world_with (status_of [("START", "success")]))).2
    = Return (true, Some "success", [])
  ∧ sanitized spec_constants (steps shadow_ct)
      (status_of [("START", "success"); ("SUCCESS", "aborted")]) !! "SUCCESS"
    = Some "aborted"
  ∧ (get_next_steps spec_constants shadow_ct caller
       (world_with (status_of [("START", "success"); ("SUCCESS", "aborted")]))).2
    = Return (true, Some "success", []).
Proof.
  split; [vm_compute; reflexivity|]. split; [left|].
  repeat split; vm_compute; reflexivity.
Qed.

(** The worked examples of the spec. *)
Example example_graph_built :
  ChallengeTransitions_init spec_constants example_graph ["s1"] = Return example_ct.
Proof. vm_compute. reflexivity. Qed.

Example next_steps_at_start :
  (get_next_steps spec_constants example_ct caller
     (world_with (status_of [("START", "success")]))).2
  = Return (false, None, ["s1"]).
Proof. vm_compute. reflexivity. Qed.

Example next_steps_s1_success :
  (get_next_steps spec_constants example_ct caller
     (world_with (status_of [("START", "success"); ("s1", "success")]))).2
  = Return (true, Some "success", []).
Proof. vm_compute. reflexivity. Qed.

Example next_steps_s1_failed :
  (get_next_steps spec_constants example_ct caller
     (world_with (status_of [("START", "success"); ("s1", "failed")]))).2
  = Return (true, Some "failed", []).
Proof. vm_compute. reflexivity. Qed.

Example next_steps_s1_aborted :
  (get_next_steps spec_constants example_ct caller
     (world_with (status_of [("START", "success"); ("s1", "aborted")]))).2
  = Return (false, None, ["s1"]).
Proof. vm_compute. reflexivity. Qed.

(** ** The challenge model *)

Import Yaml Challenge.

(** C8: [ServiceDefinition.equivalent] returns (rather than raising
    [NotEquivalent]) exactly when the environments are equal and either the
    image of the receiver is the submission sentinel or both digests are
    present and equal; in every other case it raises [NotEquivalent]. *)
Theorem C8_equivalent_iff (self other : ServiceDefinition) :
  (ServiceDefinition_equivalent self other = Return tt
   <-> environment self = environment other
       ∧ (image self = SUBMISSION_CONTAINER_TAG
          ∨ (image_digest self ≠ YNull ∧ image_digest other ≠ YNull
             ∧ image_digest self = image_digest other)))
  ∧ raises NotEquivalent (ServiceDefinition_equivalent self other)
    = negb (is_return (ServiceDefinition_equivalent self other)).
Proof.
  unfold ServiceDefinition_equivalent.
  assert (Henv : yaml_eqb (YDict (environment self)) (YDict (environment other))
                 = true <-> environment self = environment other).
  { rewrite yaml_eqb_eq. split; congruence. }
  pose proof (yaml_eqb_eq (image_digest self) (image_digest other)) as Hdig.
  assert (Hn1 : is_None (image_digest self) = true <-> image_digest self = YNull).
  { destruct (image_digest self); cbn; split; congruence. }
  assert (Hn2 : is_None (image_digest other) = true <-> image_digest other = YNull).
  { destruct (image_digest other); cbn; split; congruence. }
  destruct (yaml_eqb (YDict (environment self)) (YDict (environment other)));
    destruct (yaml_eqb (image_digest self) (image_digest other));
    destruct (is_None (image_digest self));
    destruct (is_None (image_digest other));
    case_bool_decide; cbn;
    (split; [|done]);
    (split; [try discriminate; intros _|]);
    intuition (try congruence; try discriminate).
Qed.

Example equivalent_submission_image :
  ServiceDefinition_equivalent
    (mkServiceDefinition "SUBMISSION_CONTAINER" {["a" := YStr "1"]} YNull None)
    (mkServiceDefinition "other" {["a" := YStr "1"]} (YStr "sha256:0") None)
  = Return tt.
Proof. vm_compute. reflexivity. Qed.

Example equivalent_needs_digests :
  ServiceDefinition_equivalent
    (mkServiceDefinition "img" ∅ YNull None)
    (mkServiceDefinition "img" ∅ YNull None)
  = throw NotEquivalent "No digest information, assuming different.".
Proof. vm_compute. reflexivity. Qed.

(** *** Parsing *)

Lemma wrap_config_reader_raise {A} n (o : outcome A) :
  is_return o = false ->
  wrap_config_reader n o =
    throw InvalidConfiguration
      ("Could not interpret the configuration data using " +:+ n +:+ "()").
Proof. by destruct o. Qed.

Lemma is_return_except_KeyError {A} (o : outcome A) :
  is_return (except_KeyError o) = is_return o.
Proof. destruct o as [a|[[] k]]; done. Qed.

Lemma bind_not_return {A B} (o : outcome A) (f : A -> outcome B) :
  (forall a, o = Return a -> is_return (f a) = false) ->
  is_return (o ≫= f) = false.
Proof. destruct o as [a|e]; cbn; [|done]. intros H. by apply H. Qed.

Lemma pop_Return k d v d' :
  pop k d = Return (v, d') -> d !! k = Some v ∧ d' = delete k d.
Proof.
  unfold pop. destruct (d !! k); [|discriminate]. by intros [= -> ->].
Qed.

Lemma pop_lookup k (d : ydict) v :
  d !! k = Some v -> pop k d = Return (v, delete k d).
Proof. unfold pop. by intros ->. Qed.

Lemma pop_default_lookup_ne k dflt (d : ydict) k' :
  k ≠ k' -> (pop_default k dflt d).2 !! k' = d !! k'.
Proof.
  intros Hne. unfold pop_default. destruct (d !! k); cbn; [|done].
  by rewrite lookup_delete_ne.
Qed.

Lemma nonempty_empty : nonempty (∅ : ydict) = false.
Proof. unfold nonempty. by rewrite bool_decide_eq_true_2. Qed.

Lemma mapM_items_not_return {B} (f : string -> yaml -> outcome B) l k v :
  (k, v) ∈ l -> is_return (f k v) = false ->
  is_return (mapM_items f l) = false.
Proof.
  intros Hin Hf. induction l as [|[k0 v0] l IH]; [by inversion Hin|].
  cbn [mapM_items]. apply elem_of_cons in Hin as [[= <- <-]|Hin].
  - destruct (f k v); [discriminate|done].
  - destruct (f k0 v0); [|done]. cbn.
    specialize (IH Hin). by destruct (mapM_items f l).
Qed.

Lemma dict_mapM_not_return {B} (f : string -> yaml -> outcome B) (d : ydict) k v :
  d !! k = Some v -> is_return (f k v) = false ->
  is_return (dict_mapM f d) = false.
Proof.
  intros Hk Hf. unfold dict_mapM.
  pose proof (mapM_items_not_return f (map_to_list d) k v) as H.
  rewrite elem_of_map_to_list in H. specialize (H Hk Hf).
  by destruct (mapM_items f (map_to_list d)).
Qed.

(** A block of evaluation parameters without services is refused. *)
Lemma EvaluationParameters_no_services (ep : ydict) :
  ep !! "services" = Some (YDict ∅) ->
  EvaluationParameters_from_yaml (YDict ep) =
    throw InvalidConfiguration
      "Could not interpret the configuration data using from_yaml()".
Proof.
  intros Hs. unfold EvaluationParameters_from_yaml, pop. rewrite Hs. cbn.
  by rewrite nonempty_empty.
Qed.

Ltac pop_step :=
  apply bind_not_return; intros [? ?] [_ ->]%pop_Return.

Lemma ChallengeStep_no_services (step ep : ydict) name :
  step !! "evaluation_parameters" = Some (YDict ep) ->
  ep !! "services" = Some (YDict ∅) ->
  is_return (ChallengeStep_from_yaml (YDict step) name) = false.
Proof.
  intros Hep Hs. unfold ChallengeStep_from_yaml.
  rewrite wrap_config_reader_raise; [done|].
  do 2 pop_step.
  rewrite (pop_lookup _ _ (YDict ep)) by (by rewrite !lookup_delete_ne).
  cbn. by rewrite (EvaluationParameters_no_services ep Hs).
Qed.

(** A scoring block without the key [scores] is refused, and one whose
    list of scores is empty is refused only for the keys it has besides. *)
Lemma Scoring_from_yaml_missing (sb : ydict) :
  sb !! "scores" = None ->
  Scoring_from_yaml (YDict sb) =
    throw InvalidChallengeDescription "Missing config 'scores'".
Proof. intros Hs. unfold Scoring_from_yaml, pop. by rewrite Hs. Qed.

Lemma Scoring_from_yaml_empty (sb : ydict) :
  sb !! "scores" = Some (YList []) ->
  Scoring_from_yaml (YDict sb) =
    if nonempty (delete "scores" sb)
    then throw InvalidChallengeDescription "Extra keys in configuration file"
    else Return (mkScoring []).
Proof.
  intros Hs. unfold Scoring_from_yaml, pop. rewrite Hs. cbn.
  by destruct (nonempty _).
Qed.

(** Popping a key next to an entry that was replaced. *)
Lemma pop_insert_ne k s v (m : ydict) :
  k ≠ s ->
  pop k (<[s := v]> m) =
    match pop k m with
    | Return (x, m') => Return (x, <[s := v]> m')
    | Raise e => Raise e
    end.
Proof.
  intros Hne. unfold pop. rewrite lookup_insert_ne by done.
  destruct (m !! k); [|done]. by rewrite delete_insert_ne.
Qed.

Lemma pop_default_insert_ne k dflt s v (m : ydict) :
  k ≠ s ->
  pop_default k dflt (<[s := v]> m) =
    ((pop_default k dflt m).1, <[s := v]> (pop_default k dflt m).2).
Proof.
  intros Hne. unfold pop_default. rewrite lookup_insert_ne by done.
  destruct (m !! k); [|done]. by rewrite delete_insert_ne.
Qed.

Lemma pop_insert_eq s v (m : ydict) :
  pop s (<[s := v]> m) = Return (v, delete s m).
Proof. unfold pop. by rewrite lookup_insert_eq, delete_insert_eq. Qed.

Lemma wrapped_bind {A} n (o : outcome A) (K : A -> A) :
  wrap_config_reader n (except_KeyError (o ≫= fun a => Return (K a)))
  = wrap_config_reader n (except_KeyError o) ≫= fun a => Return (K a).
Proof. by destruct o as [a|[[] k]]. Qed.

Section ParsingFacts.

Context (CC : ChallengesConstantsT).

(** The constructor of the description does not look at the scoring. *)
Lemma ChallengeDescription_init_scoring n t d p o c stps r tr tg sc sc' :
  ChallengeDescription_init CC n t d p o c stps r tr tg sc' =
    cd ← ChallengeDescription_init CC n t d p o c stps r tr tg sc;
    Return (mkChallengeDescription (name cd) (title cd) (description cd)
              (protocol cd) (date_open cd) (date_close cd) (cd_steps cd)
              (roles cd) (tags cd) sc' (ct cd)).
Proof.
  unfold ChallengeDescription_init.
  destruct o; try done. destruct c; try done. destruct r; try done.
  destruct (mapM_items _ _); cbn; [|done].
  destruct (py_iter tr); cbn; [|done].
  by destruct (list_mapM _ _).
Qed.

(** A description whose scoring block has no key [scores] is refused. *)
Lemma ChallengeDescription_no_scores (d sb : ydict) :
  d !! "scoring" = Some (YDict sb) ->
  sb !! "scores" = None ->
  ChallengeDescription_from_yaml CC (YDict d) =
    throw InvalidConfiguration
      "Could not interpret the configuration data using from_yaml()".
Proof.
  intros Hscoring Hs. unfold ChallengeDescription_from_yaml.
  rewrite wrap_config_reader_raise; [done|].
  rewrite is_return_except_KeyError.
  pop_step.
  destruct (pop_default "tags" _ _) as [tags d1] eqn:Htags.
  assert (Hd1 : d1 !! "scoring" = Some (YDict sb)).
  { change d1 with (tags, d1).2. rewrite <- Htags.
    rewrite pop_default_lookup_ne, lookup_delete_ne by done. done. }
  clear Htags. do 8 pop_step.
  match goal with |- context [match ?y with YDict _ => _ | _ => _ end] =>
    destruct y; try done end.
  apply bind_not_return. intros Steps _.
  rewrite (pop_lookup _ _ (YDict sb)) by (by rewrite !lookup_delete_ne).
  cbn. by rewrite (Scoring_from_yaml_missing sb Hs).
Qed.

(** Replacing a scoring block that is read without error by the block that
    lists no score changes the scoring of the description that comes out,
    and nothing else. *)
Lemma ChallengeDescription_empty_scores (d : ydict) v sc :
  d !! "scoring" = Some v ->
  Scoring_from_yaml v = Return sc ->
  ChallengeDescription_from_yaml CC
    (YDict (<["scoring" := YDict {[ "scores" := YList [] ]}]> d))
  = cd ← ChallengeDescription_from_yaml CC (YDict d);
    Return (mkChallengeDescription (name cd) (title cd) (description cd)
              (protocol cd) (date_open cd) (date_close cd) (cd_steps cd)
              (roles cd) (tags cd) (mkScoring []) (ct cd)).
Proof.
  intros Hs Hsc. unfold ChallengeDescription_from_yaml.
  rewrite <- wrapped_bind. do 2 f_equal.
  rewrite pop_insert_ne by done.
  destruct (pop "challenge" d) as [[x0 m0]|e] eqn:E; cbn [mbind outcome_bind];
    [|done].
  apply pop_Return in E as [_ ->].
  rewrite <- (lookup_delete_ne d "challenge") in Hs by done.
  rewrite pop_default_insert_ne by done.
  rewrite <- (pop_default_lookup_ne "tags" (YList []) _ "scoring") in Hs by done.
  destruct (pop_default "tags" (YList []) (delete "challenge" d)) as [tg m].
  cbn [fst snd] in *.
  repeat lazymatch goal with
  | |- context [pop ?k (<["scoring" := ?v']> ?m)] =>
      rewrite (pop_insert_ne k "scoring" v' m) by done;
      let E := fresh "E" in
      destruct (pop k m) as [[? ?]|?] eqn:E; cbn [mbind outcome_bind]; [|done];
      apply pop_Return in E as [_ ->];
      rewrite <- (lookup_delete_ne _ k "scoring") in Hs by done
  end.
  lazymatch goal with
  | |- context [match ?y with YDict _ => _ | _ => _ end] => destruct y; try done
  end.
  destruct (dict_mapM _ _) as [Steps|e]; cbn [mbind outcome_bind]; [|done].
  rewrite pop_insert_eq, (pop_lookup _ _ v Hs). cbn [mbind outcome_bind].
  rewrite Hsc.
  replace (Scoring_from_yaml (YDict {[ "scores" := YList [] ]}))
    with (Return (mkScoring [])) by (vm_compute; reflexivity).
  cbn [mbind outcome_bind]. destruct (nonempty _); [done|].
  apply ChallengeDescription_init_scoring.
Qed.

(** C7: a description one of whose steps declares evaluation parameters
    with zero services is refused with [InvalidConfiguration], as is the
    block of evaluation parameters on its own.  A scoring block without the
    key [scores], the empty block among them, is refused, and so is every
    description with such a scoring block.  An empty list of scores is no
    reason to refuse: a scoring block whose list of scores is empty gives a
    [Scoring] without scores unless it has other keys, and replacing, in
    any description, a scoring block that is read without error by the
    block that lists no score changes the scoring of what comes out and
    nothing else, so that one is accepted exactly when the other is. *)
Theorem C7_zero_services_refused :
  (forall (d stps step ep : ydict) (k : string),
     d !! "steps" = Some (YDict stps) ->
     stps !! k = Some (YDict step) ->
     step !! "evaluation_parameters" = Some (YDict ep) ->
     ep !! "services" = Some (YDict ∅) ->
     ChallengeDescription_from_yaml CC (YDict d) =
       throw InvalidConfiguration
         "Could not interpret the configuration data using from_yaml()"
     ∧ EvaluationParameters_from_yaml (YDict ep) =
         throw InvalidConfiguration
           "Could not interpret the configuration data using from_yaml()")
  ∧ (forall sb : ydict,
       sb !! "scores" = None ->
       Scoring_from_yaml (YDict sb) =
         throw InvalidChallengeDescription "Missing config 'scores'")
  ∧ (forall d sb : ydict,
       d !! "scoring" = Some (YDict sb) ->
       sb !! "scores" = None ->
       ChallengeDescription_from_yaml CC (YDict d) =
         throw InvalidConfiguration
           "Could not interpret the configuration data using from_yaml()")
  ∧ (forall sb : ydict,
       sb !! "scores" = Some (YList []) ->
       Scoring_from_yaml (YDict sb) =
         if nonempty (delete "scores" sb)
         then throw InvalidChallengeDescription "Extra keys in configuration file"
         else Return (mkScoring []))
  ∧ (forall (d : ydict) v sc,
       d !! "scoring" = Some v ->
       Scoring_from_yaml v = Return sc ->
       ChallengeDescription_from_yaml CC
         (YDict (<["scoring" := YDict {[ "scores" := YList [] ]}]> d))
       = cd ← ChallengeDescription_from_yaml CC (YDict d);
         Return (mkChallengeDescription (name cd) (title cd) (description cd)
                   (protocol cd) (date_open cd) (date_close cd) (cd_steps cd)
                   (roles cd) (tags cd) (mkScoring []) (ct cd))).
Proof.
  split; [|split; [|split; [|split]]].
  - intros d stps step ep k Hsteps Hk Hep Hs. split.
    + unfold ChallengeDescription_from_yaml.
      rewrite wrap_config_reader_raise; [done|].
      rewrite is_return_except_KeyError.
      pop_step.
      destruct (pop_default "tags" _ _) as [tags d1] eqn:Htags.
      assert (Hd1 : d1 !! "steps" = Some (YDict stps)).
      { change d1 with (tags, d1).2. rewrite <- Htags.
        rewrite pop_default_lookup_ne, lookup_delete_ne by done. done. }
      clear Htags. do 7 pop_step.
      rewrite (pop_lookup _ _ (YDict stps)) by (by rewrite !lookup_delete_ne).
      cbn. apply bind_not_return. intros Steps HSteps.
      pose proof (dict_mapM_not_return
                    (fun k v => ChallengeStep_from_yaml v k) stps k (YDict step) Hk
                    (ChallengeStep_no_services step ep k Hep Hs)) as Hno.
      by rewrite HSteps in Hno.
    + by apply EvaluationParameters_no_services.
  - apply Scoring_from_yaml_missing.
  - apply ChallengeDescription_no_scores.
  - apply Scoring_from_yaml_empty.
  - apply ChallengeDescription_empty_scores.
Qed.

End ParsingFacts.

Lemma C7_zero_services_refused_witness :
  ChallengeDescription_from_yaml spec_constants sample_description_no_services =
    throw InvalidConfiguration
      "Could not interpret the configuration data using from_yaml()"
  ∧ EvaluationParameters_from_yaml (yd [("services", yd [])]) =
      throw InvalidConfiguration
        "Could not interpret the configuration data using from_yaml()"
  ∧ Scoring_from_yaml (yd []) =
      throw InvalidChallengeDescription "Missing config 'scores'"
  ∧ ChallengeDescription_from_yaml spec_constants (sample_description (yd [])) =
      throw InvalidConfiguration
        "Could not interpret the configuration data using from_yaml()"
  ∧ Scoring_from_yaml (yd [("scores", YList [])]) = Return (mkScoring [])
  ∧ is_return
      (ChallengeDescription_from_yaml spec_constants
         (YDict (<["scoring" := YDict {[ "scores" := YList [] ]}]>
                   (list_to_map
                      [("challenge", YStr "demo");
                       ("title", YStr "Demo");
                       ("description", YStr "A demo challenge");
                       ("protocol", YStr "p1");
                       ("date-open", YDate 0);
                       ("date-close", YDate 1);
                       ("roles", yd [("user:admin", yd [("grant", YInt 1)])]);
                       ("transitions",
                        YList [YList [YStr "START"; YStr "success"; YStr "s1"]]);
                       ("steps", yd [("s1", sample_step)]);
                       ("scoring",
                        yd [("scores", YList [yd [("name", YStr "score1")]])])]))))
    = true.
Proof.
  destruct (C7_zero_services_refused spec_constants)
    as (Hservices & Hmissing & Hdescription & Hempty & Hreplace).
  refine ((fun H R => conj (proj1 H) (conj (proj2 H) R)) _ _).
  { eapply (Hservices _ _ _ _ "s1"); vm_compute; reflexivity. }
  split; [|split; [|split]].
  - apply Hmissing. reflexivity.
  - unfold sample_description, yd. eapply Hdescription; vm_compute; reflexivity.
  - unfold yd. rewrite Hempty by (vm_compute; reflexivity).
    vm_compute. reflexivity.
  - erewrite Hreplace; [|vm_compute; reflexivity|vm_compute; reflexivity].
    vm_compute. reflexivity.
Defined.

(** C7, a description whose scoring block lists no score at all: it
    parses, and the description that comes out has no scores. *)
Lemma C7_empty_scores_accepted :
  is_return (ChallengeDescription_from_yaml spec_constants
               (sample_description (yd [("scores", YList [])]))) = true
  ∧ match ChallengeDescription_from_yaml spec_constants
            (sample_description (yd [("scores", YList [])])) with
    | Return cd => scores (scoring cd) = [] ∧ ct cd = example_ct
    | Raise _ => False
    end.
Proof. split; vm_compute; [reflexivity|split; reflexivity]. Qed.

(** ** The handshake *)

Import Handshake.

Ltac psimpl :=
  repeat first
    [ rewrite bind_run
    | rewrite try_except_run
    | progress (cbn [pass raise reraise lift emit get_obj set_obj call mret
                     SE_ret obj trace fst snd]) ].

Lemma FS_write_run {O} (files : FS) dest (s : st O) :
  FS_write files dest s =
    (mkSt (obj s) (trace s ++ FS_write_events files dest), Return tt).
Proof.
  unfold FS_write, FS_write_events.
  generalize ((map_to_list files).*2). intros l. revert s.
  induction l as [|rf l IH]; intros s; cbn [for_each flat_map].
  - psimpl. rewrite app_nil_r. by destruct s.
  - psimpl. destruct (source rf) eqn:Hsrc; psimpl; rewrite IH; cbn [obj trace];
      unfold file_events; rewrite Hsrc, <- !app_assoc; reflexivity.
Qed.


Section HandshakeFacts.

Context (constants : ConstantsT) (format_exc : exn -> string)
        (str : yaml -> string) (status_name : ChallengeResultsStatus -> string).

Abbreviation solution_body := (wrap_solution_body constants format_exc str).
Abbreviation solution := (wrap_solution constants format_exc str).


(** [wrap_solution], by the outcome of its body. *)
Lemma wrap_solution_run env root :
  solution env root =
    let s1 := (solution_body env (mkSt (CIS_init root) [])).1 in
    let cis1 := obj s1 in
    match (solution_body env (mkSt (CIS_init root) [])).2 with
    | Return _ =>
        (mkSt cis1
           (trace s1
            ++ WriteYaml (solution_output_dict cis1)
                 (os_path_join (cis_root cis1)
                               (CHALLENGE_SOLUTION_OUTPUT_YAML constants))
               :: FS_write_events (solution_output_files cis1)
                    (os_path_join (cis_root cis1)
                                  (CHALLENGE_SOLUTION_OUTPUT_DIR constants))),
         Return tt)
    | Raise e =>
        let key := (failure_marker format_exc e).1 in
        let msg := (failure_marker format_exc e).2 in
        (mkSt (mkCIS (cis_root cis1) (solution_output_files cis1)
                     (Some {[ key := YStr msg ]})
                     (failure_declared cis1) (failure_declared_msg cis1))
           (trace s1
            ++ DclogError ("solution:" +:+ msg)
               :: WriteYaml (Some {[ key := YStr msg ]})
                    (os_path_join (cis_root cis1)
                                  (CHALLENGE_SOLUTION_OUTPUT_YAML constants))
               :: FS_write_events (solution_output_files cis1)
                    (os_path_join (cis_root cis1)
                                  (CHALLENGE_SOLUTION_OUTPUT_DIR constants))),
         Return tt)
    end.
Proof.
  unfold wrap_solution, wrap_solution_proc, try_finally, try_except.
  destruct (wrap_solution_body constants format_exc str env
              (mkSt (CIS_init root) [])) as [s1 [[]|e]]; cbn [fst snd].
  - unfold wrap_solution_finally. psimpl. rewrite FS_write_run. cbn [obj trace].
    by rewrite <- app_assoc.
  - destruct (failure_marker format_exc e) as [key msg] eqn:Hm. cbn [fst snd].
    unfold cis_error, set_solution_output_dict, wrap_solution_finally. psimpl.
    rewrite FS_write_run. cbn [obj trace cis_root solution_output_files
                                 solution_output_dict].
    by rewrite <- !app_assoc.
Qed.




(** The guarded preparation when the user's [prepare] raises. *)
Lemma prepare_guarded_raise env (s : st CIE) cie1 e :
  evaluator_prepare env (obj s) = (cie1, Raise e) ->
  prepare_guarded constants format_exc env s =
    (mkSt (mkCIE (cie_root cie1) (challenge_files cie1)
                 (Some {[ SPECIAL_ABORT :=
                            YStr (preparation_aborted format_exc e) ]})
                 (evaluation_files cie1) (scores cie1))
          (trace s
           ++ FS_write_events (challenge_files cie1)
                (os_path_join (cie_root cie1) (CHALLENGE_DESCRIPTION_DIR constants))
           ++ [WriteYaml
                 (Some {[ SPECIAL_ABORT :=
                            YStr (preparation_aborted format_exc e) ]})
                 (os_path_join (cie_root cie1)
                               (CHALLENGE_DESCRIPTION_YAML constants))]),
     Raise e).
Proof.
  intros Hprep. unfold prepare_guarded, try_finally, try_except, call.
  rewrite Hprep. unfold set_challenge_parameters, after_prepare. psimpl.
  cbn [parameters]. psimpl. rewrite FS_write_run. psimpl.
  cbn [cie_root challenge_files]. by rewrite <- app_assoc.
Qed.




(** C10: [set_score] looks at NaN and infinity only under
    [isinstance(value, float)]: a float that is NaN or infinite raises
    [ValueError] in every state, also when the name is already known, and a
    value that is not a float is stored under a fresh name as it is. *)
Theorem C10_set_score_checks_floats_only name description (s : st CIE) f y :
  isnan f || isinf f = true ->
  scores (obj s) !! name = None ->
  (forall s' : st CIE,
     set_score name (PFloat f) description s' =
       (s', Raise (Exn ValueError "we do not allow infinity or NaN.")))
  ∧ set_score name (PObj y) description s =
      (mkSt (mkCIE (cie_root (obj s)) (challenge_files (obj s))
                   (parameters (obj s)) (evaluation_files (obj s))
                   (<[name := mkReportedScore name (PObj y) description]>
                      (scores (obj s))))
            (trace s),
       Return tt).
Proof.
  intros Hf Hfresh. split.
  - intros s'. unfold set_score. rewrite Hf. by psimpl.
  - unfold set_score. psimpl.
    rewrite bool_decide_eq_false_2 by (rewrite Hfresh; by intros [? ?]).
    by psimpl.
Qed.

End HandshakeFacts.


Lemma C10_set_score_checks_floats_only_witness :
  (forall s' : st CIE,
     set_score "score1" (PFloat S754_nan) YNull s' =
       (s', Raise (Exn ValueError "we do not allow infinity or NaN.")))
  ∧ set_score "score1" (PObj (YStr "not a number")) YNull (mkSt (CIE_init "/") [])
    = (mkSt (mkCIE "/" ∅ None ∅
               {[ "score1" := mkReportedScore "score1"
                                (PObj (YStr "not a number")) YNull ]}) [],
       Return tt).
Proof.
  apply (C10_set_score_checks_floats_only "score1" YNull
           (mkSt (CIE_init "/") []) S754_nan (YStr "not a number")).
  - reflexivity.
  - reflexivity.
Defined.

(** Scores that [set_score] takes or refuses. *)
Example set_score_infinity_known_name :
  (set_score "score1" (PFloat (S754_infinity false)) YNull
     (mkSt (mkCIE "/" ∅ None ∅
              {[ "score1" := mkReportedScore "score1" (PObj (YInt 1)) YNull ]}) [])).2
  = Raise (Exn ValueError "we do not allow infinity or NaN.").
Proof. vm_compute. reflexivity. Qed.

Example set_score_known_name :
  (set_score "score1" (PObj (YInt 2)) YNull
     (mkSt (mkCIE "/" ∅ None ∅
              {[ "score1" := mkReportedScore "score1" (PObj (YInt 1)) YNull ]}) [])).2
  = Raise (Exn InvalidEvaluator "Already know score").
Proof. vm_compute. reflexivity. Qed.

(** A solution that crashes: the output file holds the submission marker
    and the file it registered before crashing is written all the same. *)
Example wrap_solution_crashing :
  wrap_solution spec_layout sample_format_exc sample_str
    (mkSolutionEnv sample_environ true (Return (YDict ∅)) crashing_solution) "/"
  = (mkSt (mkCIS "/"
             {[ "log.txt" := mkChallengeFile "log.txt" (FromData "oops") YNull ]}
             (Some {[ "invalid-submission" :=
                        YStr ("Invalid solution:" +:+ nl +:+ "Uncaught exception in solution:"
                             +:+ nl +:+ "ZeroDivisionError") ]})
             false (YInt 0))
       [DclogError ("solution:Invalid solution:" +:+ nl
                    +:+ "Uncaught exception in solution:" +:+ nl
                    +:+ "ZeroDivisionError");
        WriteYaml
          (Some {[ "invalid-submission" :=
                     YStr ("Invalid solution:" +:+ nl +:+ "Uncaught exception in solution:"
                             +:+ nl +:+ "ZeroDivisionError") ]})
          "/challenge-solution-output/output-solution.yaml";
        MakeSureDirExists "/challenge-solution-output/log.txt";
        WriteBytes "/challenge-solution-output/log.txt" "oops"],
     Return tt).
Proof. vm_compute. reflexivity. Qed.

Example wrap_solution_good :
  (wrap_solution spec_layout sample_format_exc sample_str
     (mkSolutionEnv sample_environ true (Return (YDict ∅)) good_solution) "/").1
  = mkSt (mkCIS "/"
            {[ "log.txt" := mkChallengeFile "log.txt" (FromData "ok") YNull ]}
            (Some {[ "answer" := YInt 42 ]}) false (YInt 0))
      [WriteYaml (Some {[ "answer" := YInt 42 ]})
         "/challenge-solution-output/output-solution.yaml";
       MakeSureDirExists "/challenge-solution-output/log.txt";
       WriteBytes "/challenge-solution-output/log.txt" "ok"].
Proof. vm_compute. reflexivity. Qed.

(** Without the environment variables the marker is the environment one. *)
Example wrap_solution_no_environment :
  solution_output_dict
    (obj (wrap_solution spec_layout sample_format_exc sample_str
            (mkSolutionEnv ∅ true (Return (YDict ∅)) good_solution) "/").1)
  = Some {[ "invalid-environment" := YStr ("InvalidEnvironment:" +:+ nl +:+ "challenge_name") ]}.
Proof. vm_compute. reflexivity. Qed.

(** ** The artefacts of previous steps *)

Ltac rsimpl :=
  repeat first
    [ rewrite bind_run
    | rewrite try_except_run
    | progress (cbn [Runner.elogger Runner.cache Runner.files Runner.elog
                     mbind option_bind raise reraise mret SE_ret exn_cls]) ].

Section DownloadFacts.

Context (aws_config : option (gmap string string))
        (s3 : gmap (string * string) string).

(** C6: for an artefact that is not in the local cache and is
    fetched from the bucket, a fetched byte count other than the declared
    size makes the download raise [ValueError]; by then the fetched
    content is in the local cache, under the declared digest, and in the
    step directory. *)
Theorem C6_size_mismatch_raises_after_caching step_dir rpath data ob keys content
    (w : Runner.world) :
  Runner.cache w !! Runner.sha256hex data = None ->
  Runner.storage data !! "s3" = Some ob ->
  aws_config = Some keys ->
  is_Some (keys !! "aws_access_key_id") ->
  is_Some (keys !! "aws_secret_access_key") ->
  s3 !! (Runner.bucket_name ob, Runner.object_key ob) = Some content ->
  Z.of_nat (String.length content) ≠ Runner.size data ->
  Runner.download_artefact aws_config s3 step_dir rpath data w =
    (Runner.mkWorld
       (<[os_path_join step_dir rpath := content]> (Runner.files w))
       (<[Runner.sha256hex data := content]> (Runner.cache w))
       (Runner.elog w ++ [Runner.LogData data;
                          Runner.LogAWS (Runner.size data) rpath]),
     Raise (Exn ValueError "Corrupt cache or download")).
Proof.
  intros Hmiss Hs3 Hcfg [k1 Hk1] [k2 Hk2] Hobj Hsize.
  assert (Hconf : Runner.aws_configured aws_config = true).
  { unfold Runner.aws_configured. rewrite Hcfg.
    apply negb_true_iff, bool_decide_eq_false_2. intros ->.
    by rewrite lookup_empty in Hk1. }
  unfold Runner.download_artefact, Runner.try_except_KeyError,
    Runner.get_file_from_cache, Runner.get_object, Runner.copy_to_cache,
    Runner.st_size.
  rsimpl. rewrite Hmiss. rsimpl.
  rewrite bool_decide_eq_true_2 by done.
  rewrite Hs3, Hconf. cbn [negb]. rsimpl.
  rewrite Hcfg. rsimpl. rewrite Hk1, Hk2, Hobj. rsimpl.
  rewrite lookup_insert_eq, Hmiss. rsimpl.
  rewrite lookup_insert_eq. rsimpl.
  rewrite bool_decide_eq_true_2 by done.
  rsimpl. by rewrite <- app_assoc.
Qed.

End DownloadFacts.

Lemma C6_size_mismatch_raises_after_caching_witness :
  Runner.download_artefact Runner.sample_aws_config Runner.sample_s3
    "/wd/step1" "output.txt" Runner.sample_artefact Runner.empty_world =
    (Runner.mkWorld {[ "/wd/step1/output.txt" := "corrupt" ]}
                    {[ "abc" := "corrupt" ]}
                    [Runner.LogData Runner.sample_artefact;
                     Runner.LogAWS 100 "output.txt"],
     Raise (Exn ValueError "Corrupt cache or download")).
Proof.
  apply (C6_size_mismatch_raises_after_caching Runner.sample_aws_config
           Runner.sample_s3 "/wd/step1" "output.txt" Runner.sample_artefact
           (Runner.mkS3Object "bucket" "root/sha256/abc")
           {[ "aws_access_key_id" := "id"; "aws_secret_access_key" := "secret";
              "bucket_name" := "bucket" ]}
           "corrupt" Runner.empty_world).
  - reflexivity.
  - vm_compute. reflexivity.
  - reflexivity.
  - vm_compute. eauto.
  - vm_compute. eauto.
  - vm_compute. reflexivity.
  - vm_compute. discriminate.
Defined.

(** C6, the download of an artefact declared to have 100 bytes for which
    the bucket serves 7: the call raises, and the 7 bytes are in the local
    cache under the declared digest, where the next download finds them. *)
Lemma C6_corrupt_content_is_cached :
  (Runner.download_artefacts Runner.sample_aws_config Runner.sample_s3
     Runner.sample_steps2artefacts "/wd" Runner.empty_world).2
  = Raise (Exn ValueError "Corrupt cache or download")
  ∧ Runner.cache Runner.empty_world !! "abc" = None
  ∧ Runner.cache
      (Runner.download_artefacts Runner.sample_aws_config Runner.sample_s3
         Runner.sample_steps2artefacts "/wd" Runner.empty_world).1 !! "abc"
    = Some "corrupt"
  ∧ (Runner.download_artefacts Runner.sample_aws_config Runner.sample_s3
       Runner.sample_steps2artefacts "/wd2"
       (Runner.download_artefacts Runner.sample_aws_config Runner.sample_s3
          Runner.sample_steps2artefacts "/wd" Runner.empty_world).1).2
    = Return tt.
Proof. repeat split; vm_compute; reflexivity. Qed.

(** ** The transition engine: outcomes and invariants *)

Section EngineInvariants.

Context (CC : ChallengesConstantsT).

Ltac msimpl :=
  repeat first
    [ rewrite bind_run
    | progress (cbn [log ret mret SE_ret pass raise assert heap dclog fst snd]) ].

(** The three assertions at the head of [get_next_steps]. *)
Lemma get_next_steps_no_dict self l w :
  heap w !! l = None ->
  get_next_steps CC self l w =
    (Transitions.mkWorld (heap w) (dclog w ++ [(INFO, Received_status None)]),
     Raise (Exn AssertionError "")).
Proof.
  intros Hl. unfold get_next_steps, lookup_obj, deref, lookup_obj. msimpl.
  rewrite Hl. by msimpl.
Qed.

Lemma get_next_steps_no_start self l w d :
  heap w !! l = Some d ->
  d !! STATE_START ≠ Some "success" ->
  get_next_steps CC self l w =
    (Transitions.mkWorld (heap w) (dclog w ++ [(INFO, Received_status (Some d))]),
     Raise (Exn AssertionError "")).
Proof.
  intros Hl Hstart. unfold get_next_steps, lookup_obj, deref, lookup_obj. msimpl.
  rewrite Hl. msimpl.
  destruct (bool_decide (is_Some (d !! STATE_START))); msimpl; [|done].
  rewrite bool_decide_eq_false_2 by done. by msimpl.
Qed.

(** The outcome of the second loop does not depend on the world. *)
Lemma transitions_loop_value d ts :
  forall acc w w0,
  (transitions_loop CC d ts acc w).2 = (transitions_loop CC d ts acc w0).2.
Proof.
  induction ts as [|t ts IH]; intros acc w w0.
  - cbn [transitions_loop]. by msimpl.
  - rewrite !transitions_loop_cons. destruct (fired d t); [|apply IH].
    cbn zeta. destruct (d !! second t) as [st|].
    + destruct (decide _); [destruct (terminal _); [done|apply IH] | apply IH].
    + destruct (terminal _); [done|apply IH].
Qed.

(** The second loop returns, in one of two shapes, and logs at the DEBUG
    level only. *)
Lemma transitions_loop_shape d ts :
  forall acc w, exists lg f o L,
    transitions_loop CC d ts acc w =
      (Transitions.mkWorld (heap w) (dclog w ++ lg), Return (f, o, L))
    ∧ Forall (fun m => m.1 = DEBUG) lg
    ∧ ((f = false ∧ o = None ∧
        exists L', L = acc ++ L' ∧
          forall s, s ∈ L' ->
            exists t, t ∈ ts ∧ activates CC d t = true ∧ second t = s)
       ∨ (f = true ∧ L = [] ∧
          exists t, t ∈ ts ∧ finishes CC d t = true ∧ o = Some (lower (second t)))).
Proof.
  induction ts as [|t ts IH]; intros acc w.
  - cbn [transitions_loop]. msimpl. eexists _, _, _, _. split; [reflexivity|].
    split; [by repeat constructor|]. left. split; [done|]. split; [done|].
    exists []. split; [by rewrite app_nil_r|]. intros s Hs. by apply elem_of_nil in Hs.
  - assert (Hlift : forall acc1 lg1 (Hact : acc1 = acc ∨
                      (acc1 = acc ++ [second t] ∧ activates CC d t = true)),
              Forall (fun m : log_level * log_msg => m.1 = DEBUG) lg1 ->
              exists lg f o L,
                transitions_loop CC d ts acc1
                  (Transitions.mkWorld (heap w) (dclog w ++ lg1)) =
                  (Transitions.mkWorld (heap w) (dclog w ++ lg), Return (f, o, L))
                ∧ Forall (fun m => m.1 = DEBUG) lg
                ∧ ((f = false ∧ o = None ∧
                    exists L', L = acc ++ L' ∧
                      forall s, s ∈ L' ->
                        exists t0, t0 ∈ t :: ts ∧ activates CC d t0 = true
                                   ∧ second t0 = s)
                   ∨ (f = true ∧ L = [] ∧
                      exists t0, t0 ∈ t :: ts ∧ finishes CC d t0 = true
                                 ∧ o = Some (lower (second t0))))).
    { intros acc1 lg1 Hact Hlg1.
      destruct (IH acc1 (Transitions.mkWorld (heap w) (dclog w ++ lg1)))
        as (lg & f & o & L & Hrun & Hlg & Hshape).
      cbn [heap dclog] in Hrun. rewrite <- app_assoc in Hrun.
      exists (lg1 ++ lg), f, o, L. split; [exact Hrun|].
      split; [by apply Forall_app|].
      destruct Hshape as [(-> & -> & L' & -> & HL')|(-> & -> & t0 & Ht0 & Hfin & ->)].
      - left. split; [done|]. split; [done|].
        destruct Hact as [->|[-> Hact]].
        + exists L'. split; [done|]. intros s Hs.
          destruct (HL' s Hs) as (t0 & Ht0 & H1 & H2).
          exists t0. split; [by right|done].
        + exists (second t :: L'). split; [by rewrite <- app_assoc|].
          intros s [->|Hs]%elem_of_cons.
          * exists t. split; [left|done].
          * destruct (HL' s Hs) as (t0 & Ht0 & H1 & H2).
            exists t0. split; [by right|done].
      - right. split; [done|]. split; [done|].
        exists t0. split; [by right|done]. }
    assert (Hfinish : forall lg1,
              finishes CC d t = true ->
              Forall (fun m : log_level * log_msg => m.1 = DEBUG) lg1 ->
              exists lg f o L,
                (Transitions.mkWorld (heap w) (dclog w ++ lg1),
                 Return (true, Some (lower (second t)), []))
                = (Transitions.mkWorld (heap w) (dclog w ++ lg), Return (f, o, L))
                ∧ Forall (fun m => m.1 = DEBUG) lg
                ∧ ((f = false ∧ o = None ∧
                    exists L', L = acc ++ L' ∧
                      forall s, s ∈ L' ->
                        exists t0, t0 ∈ t :: ts ∧ activates CC d t0 = true
                                   ∧ second t0 = s)
                   ∨ (f = true ∧ L = [] ∧
                      exists t0, t0 ∈ t :: ts ∧ finishes CC d t0 = true
                                 ∧ o = Some (lower (second t0))))).
    { intros lg1 Hfin Hlg1. eexists lg1, _, _, _. split; [reflexivity|].
      split; [done|]. right. split; [done|]. split; [done|].
      exists t. split; [left|done]. }
    rewrite transitions_loop_cons. unfold finishes, activates, not_yet_run in *.
    destruct (fired d t) eqn:Hf; cbn [andb] in *.
    2: { specialize (Hlift acc [] (or_introl eq_refl) (Forall_nil_2 _)).
         by rewrite app_nil_r, world_eta in Hlift. }
    cbn zeta. destruct (d !! second t) as [st|] eqn:Hst.
    + destruct (decide (st = STATUS_ABORTED CC)) as [->|Hne].
      * rewrite bool_decide_eq_true_2 in Hlift, Hfinish by done. cbn [andb] in *.
        destruct (terminal (second t)) eqn:Hterm; cbn [negb] in *.
        -- cbn [dclog]. rewrite <- app_assoc. apply Hfinish; [done|].
           by repeat constructor.
        -- apply Hlift; [by right|by repeat constructor].
      * cbn [dclog]. rewrite <- app_assoc.
        apply Hlift; [by left|by repeat constructor].
    + destruct (terminal (second t)) eqn:Hterm; cbn [negb] in *.
      * cbn [dclog]. rewrite <- app_assoc. apply Hfinish; [done|].
        by repeat constructor.
      * apply Hlift; [by right|by repeat constructor].
Qed.

(** A call that returns has passed the assertions and the first loop. *)
Lemma get_next_steps_Return_inv self l w w' r :
  get_next_steps CC self l w = (w', Return r) ->
  exists d, heap w !! l = Some d
    ∧ d !! STATE_START = Some "success"
    ∧ sanitizable CC (steps self) d = true.
Proof.
  intros Hrun. destruct (heap w !! l) as [d|] eqn:Hl.
  2: { by rewrite get_next_steps_no_dict in Hrun. }
  exists d. split; [done|].
  destruct (decide (d !! STATE_START = Some "success")) as [Hstart|Hstart].
  2: { by rewrite (get_next_steps_no_start _ _ _ d) in Hrun. }
  split; [done|].
  destruct (sanitizable CC (steps self) d) eqn:Hs; [done|].
  destruct (get_next_steps_double_pop CC self l w d Hl Hstart Hs)
    as (w1 & k & ks & _ & _ & Hraise).
  congruence.
Qed.

Lemma terminal_lower name :
  terminal name = true -> lower name ∈ ["error"; "failed"; "success"].
Proof.
  unfold terminal. intros H%bool_decide_eq_true.
  repeat (apply elem_of_cons in H as [->|H]); [vm_compute..|by apply elem_of_nil in H].
  - left.
  - right. left.
  - right. right. left.
Qed.

(** The constructor returns exactly on lists of well-formed triples. *)
Lemma init_transitions_Return stps ts l :
  init_transitions CC stps ts = Return l <->
  Forall (fun x => (x.1.1 = STATE_START ∨ x.1.1 ∈ stps)
                   ∧ (x.2 ∈ [STATE_ERROR; STATE_FAILED; STATE_SUCCESS] ∨ x.2 ∈ stps)
                   ∧ x.1.2 ∈ ALLOWED_JOB_STATUS CC) ts
  ∧ l = map (fun x => mkTransition x.1.1 x.1.2 x.2) ts.
Proof.
  revert l. induction ts as [|[[f c] s] ts IH]; intros l; cbn [init_transitions].
  - split; [intros [= <-]; by split|intros [_ ->]; done].
  - repeat case_bool_decide; cbn [negb];
      try (split; [done|]; intros [Hall _]; inversion Hall; subst; cbn in *; tauto).
    destruct (init_transitions CC stps ts) as [l'|e].
    + split.
      * intros [= <-]. destruct (proj1 (IH l') eq_refl) as [Hall ->].
        split; [|done]. by constructor.
      * intros [Hall ->]. inversion Hall as [|? ? _ Hall']; subst.
        destruct (proj1 (IH l') eq_refl) as [_ ->]. done.
    + split; [done|]. intros [Hall ->]. inversion Hall as [|? ? _ Hall']; subst.
      pose proof (proj2 (IH _) (conj Hall' eq_refl)) as Hno. discriminate Hno.
Qed.

Lemma init_transitions_Raise stps ts e :
  init_transitions CC stps ts = Raise e -> exn_cls e = AssertionError.
Proof.
  induction ts as [|[[f c] s] ts IH]; cbn [init_transitions]; [done|].
  repeat case_bool_decide; cbn [negb]; try (by intros [= <-]).
  destruct (init_transitions CC stps ts); [done|]. intros [= <-]. by apply IH.
Qed.

Lemma NoDup_omap_inj {A B} (f : A -> option B) (l : list A) :
  (forall x y z, f x = Some z -> f y = Some z -> x = y) ->
  NoDup l -> NoDup (omap f l).
Proof.
  intros Hinj. induction 1 as [|x l Hx Hnd IH]; cbn; [constructor|].
  destruct (f x) as [z|] eqn:Hfx; [|done].
  constructor; [|done]. rewrite list_elem_of_omap. intros (y & Hy & Hfy).
  by rewrite (Hinj x y z) in Hx.
Qed.

(** X1: the outcome of [get_next_steps] on a dictionary, by its
    entries: an [AssertionError] when the dictionary does not map START to
    success; otherwise a [KeyError] when some entry has both an undeclared
    key and a status that is not allowed; otherwise the call returns.  On a
    dictionary no other exception comes out of it. *)
Theorem X1_get_next_steps_outcome self l w d :
  heap w !! l = Some d ->
  if bool_decide (d !! STATE_START = Some "success") then
    if sanitizable CC (steps self) d
    then is_return (get_next_steps CC self l w).2 = true
    else raises KeyError (get_next_steps CC self l w).2 = true
  else (get_next_steps CC self l w).2 = Raise (Exn AssertionError "").
Proof.
  intros Hl. case_bool_decide as Hstart.
  2: { by rewrite (get_next_steps_no_start _ _ _ d). }
  destruct (sanitizable CC (steps self) d) eqn:Hs.
  - rewrite (get_next_steps_sanitized CC self l w d Hl Hstart Hs).
    edestruct (transitions_loop_shape (sanitized CC (steps self) d)
                 (transitions self) []) as (lg & f & o & L & -> & _). done.
  - destruct (get_next_steps_double_pop CC self l w d Hl Hstart Hs)
      as (w1 & k & ks & _ & _ & ->). cbn. by rewrite bool_decide_eq_true_2.
Qed.

(** X2: what [get_next_steps] returns has one of two shapes: not
    finished, with no result; or finished, with no step to activate and with
    the lower-cased target of one of the transitions of the graph, a target
    that is a terminal value, so that the result is one of error, failed and
    success. *)
Theorem X2_next_steps_shape self l w w' f o L :
  get_next_steps CC self l w = (w', Return (f, o, L)) ->
  (f = false ∧ o = None)
  ∨ (f = true ∧ L = [] ∧
     exists t, t ∈ transitions self ∧ terminal (second t) = true
       ∧ o = Some (lower (second t))
       ∧ lower (second t) ∈ ["error"; "failed"; "success"]).
Proof.
  intros Hrun.
  destruct (get_next_steps_Return_inv _ _ _ _ _ Hrun) as (d & Hl & Hstart & Hs).
  rewrite (get_next_steps_sanitized CC self l w d Hl Hstart Hs) in Hrun.
  edestruct (transitions_loop_shape (sanitized CC (steps self) d)
               (transitions self) []) as (lg & f' & o' & L' & Hrun' & _ & Hshape).
  rewrite Hrun' in Hrun. inversion Hrun; subst. clear Hrun Hrun'.
  destruct Hshape as [(-> & -> & _)|(-> & -> & t & Ht & Hfin & ->)]; [by left|].
  right. split; [done|]. split; [done|]. exists t.
  unfold finishes in Hfin. apply andb_true_iff in Hfin as [_ Hterm].
  split; [done|]. split; [done|]. split; [done|]. by apply terminal_lower.
Qed.

(** X3: the constructor of [ChallengeTransitions] returns exactly when
    every triple has a source that is START or a declared step, a target
    that is a terminal value or a declared step, and an allowed condition;
    it then holds the triples in their order; any exception it raises is an
    [AssertionError]. *)
Theorem X3_constructor_checks ts stps :
  (forall ct,
     ChallengeTransitions_init CC ts stps = Return ct <->
     Forall (fun x => (x.1.1 = STATE_START ∨ x.1.1 ∈ stps)
                      ∧ (x.2 ∈ [STATE_ERROR; STATE_FAILED; STATE_SUCCESS]
                         ∨ x.2 ∈ stps)
                      ∧ x.1.2 ∈ ALLOWED_JOB_STATUS CC) ts
     ∧ ct = mkCT (map (fun x => mkTransition x.1.1 x.1.2 x.2) ts) stps)
  ∧ (forall e,
       ChallengeTransitions_init CC ts stps = Raise e ->
       exn_cls e = AssertionError).
Proof.
  unfold ChallengeTransitions_init. split.
  - intros ct. destruct (init_transitions CC stps ts) as [l|e] eqn:Hinit.
    + apply init_transitions_Return in Hinit as [Hall ->]. split.
      * intros [= <-]. by split.
      * by intros [_ ->].
    + split; [done|]. intros [Hall _].
      by rewrite (proj2 (init_transitions_Return stps ts _) (conj Hall eq_refl))
        in Hinit.
  - intros e. destruct (init_transitions CC stps ts) as [l|e'] eqn:Hinit; [done|].
    intros [= <-]. by eapply init_transitions_Raise.
Qed.

(** X4: on a graph built by the constructor, every name that
    [get_next_steps] returns for activation is a declared step and not a
    terminal value, is the target of a transition whose source has the
    status of its condition in the caller's map, and has in that map no
    allowed status other than aborted. *)
Theorem X4_activated_steps ts stps self l w w' f o L d :
  ChallengeTransitions_init CC ts stps = Return self ->
  heap w !! l = Some d ->
  get_next_steps CC self l w = (w', Return (f, o, L)) ->
  forall s, s ∈ L ->
    s ∈ stps ∧ terminal s = false
    ∧ (exists t, t ∈ transitions self ∧ second t = s
         ∧ d !! first t = Some (condition t))
    ∧ (forall st, d !! s = Some st -> st ∈ ALLOWED_JOB_STATUS CC ->
         st = STATUS_ABORTED CC).
Proof.
  intros Hinit Hl Hrun s Hs.
  unfold ChallengeTransitions_init in Hinit.
  destruct (init_transitions CC stps ts) as [lt|] eqn:Hts; [|done].
  injection Hinit as <-. apply init_transitions_Return in Hts as [Hwf ->].
  destruct (get_next_steps_Return_inv _ _ _ _ _ Hrun) as (d' & Hl' & Hstart & Hok).
  assert (d' = d) as -> by congruence.
  rewrite (get_next_steps_sanitized CC _ l w d Hl Hstart Hok) in Hrun.
  cbn [steps transitions] in *.
  edestruct (transitions_loop_shape (sanitized CC stps d)
               (map (fun x => mkTransition x.1.1 x.1.2 x.2) ts) [])
    as (lg & f' & o' & L' & Hrun' & _ & Hshape).
  rewrite Hrun' in Hrun. inversion Hrun; subst. clear Hrun Hrun'.
  destruct Hshape as [(-> & -> & L' & -> & HL')|(-> & -> & _)];
    [|by apply elem_of_nil in Hs].
  destruct (HL' s Hs) as (t & Ht & Hact & <-).
  unfold activates in Hact. apply andb_true_iff in Hact as [Hact Hterm].
  apply andb_true_iff in Hact as [Hfired Hnyr].
  apply negb_true_iff in Hterm.
  apply list_elem_of_fmap in Ht as (x & -> & Hx).
  rewrite Forall_forall in Hwf. destruct (Hwf x Hx) as (_ & Hsnd & _).
  cbn [second first condition] in *.
  assert (Hstep : x.2 ∈ stps).
  { destruct Hsnd as [Hsnd|]; [|done]. unfold terminal in Hterm.
    by rewrite bool_decide_eq_true_2 in Hterm. }
  split; [done|]. split; [done|]. split.
  - eexists. split; [apply list_elem_of_fmap; by exists x|]. split; [done|].
    cbn [first condition]. unfold fired in Hfired.
    apply bool_decide_eq_true in Hfired. cbn [first condition] in Hfired.
    unfold sanitized in Hfired. by apply map_lookup_filter_Some in Hfired as [? _].
  - intros st Hst Hallowed. unfold not_yet_run in Hnyr.
    assert (Hsan : sanitized CC stps d !! x.2 = Some st).
    { unfold sanitized. apply map_lookup_filter_Some. split; [done|].
      split; [by right|done]. }
    rewrite Hsan in Hnyr. by apply bool_decide_eq_true in Hnyr.
Qed.

(** X5: the result of [get_next_steps] depends only on the entries that
    the first loop keeps: two status maps that map START to success, that
    the first loop accepts, and that have the same valid entries, give the
    same result. *)
Theorem X5_only_valid_entries_matter self l1 w1 d1 l2 w2 d2 :
  heap w1 !! l1 = Some d1 -> heap w2 !! l2 = Some d2 ->
  d1 !! STATE_START = Some "success" -> d2 !! STATE_START = Some "success" ->
  sanitizable CC (steps self) d1 = true ->
  sanitizable CC (steps self) d2 = true ->
  sanitized CC (steps self) d1 = sanitized CC (steps self) d2 ->
  (get_next_steps CC self l1 w1).2 = (get_next_steps CC self l2 w2).2.
Proof.
  intros Hl1 Hl2 Hs1 Hs2 Hok1 Hok2 Heq.
  rewrite (get_next_steps_sanitized CC self l1 w1 d1 Hl1 Hs1 Hok1).
  rewrite (get_next_steps_sanitized CC self l2 w2 d2 Hl2 Hs2 Hok2).
  rewrite Heq. apply transitions_loop_value.
Qed.

(** X6: when [get_next_steps] gets through its first loop, what it adds to
    the log is the line with the status received, then one line at the
    ERROR level for each entry of the caller's map that is not valid (each
    such entry once), then lines at the DEBUG level only. *)
Theorem X6_dropped_entries_logged self l w d :
  heap w !! l = Some d ->
  d !! STATE_START = Some "success" ->
  sanitizable CC (steps self) d = true ->
  let dropped := ignoring_messages CC (steps self) (map_to_list d) in
  (exists lg,
     dclog (get_next_steps CC self l w).1 =
       dclog w ++ (INFO, Received_status (Some d)) :: dropped ++ lg
     ∧ Forall (fun m => m.1 = DEBUG) lg)
  ∧ NoDup dropped
  ∧ (forall m, m ∈ dropped <->
       exists k ks, d !! k = Some ks ∧ ¬ valid_entry CC (steps self) k ks
                    ∧ m = (Transitions.ERROR, Ignoring_invalid_step k ks)).
Proof.
  intros Hl Hstart Hok dropped. split; [|split].
  - rewrite (get_next_steps_sanitized CC self l w d Hl Hstart Hok).
    edestruct (transitions_loop_shape (sanitized CC (steps self) d)
                 (transitions self) []) as (lg & f & o & L & -> & Hlg & _).
    exists lg. cbn [fst dclog]. split; [|done].
    by rewrite <- app_assoc.
  - apply NoDup_omap_inj; [|apply NoDup_map_to_list].
    intros [k1 ks1] [k2 ks2] z. cbn.
    repeat case_decide; congruence.
  - intros m. unfold dropped, ignoring_messages. rewrite list_elem_of_omap. split.
    + intros ([k ks] & Hin & Hm). cbn in Hm. case_decide; [done|].
      injection Hm as <-. exists k, ks. split; [by apply elem_of_map_to_list|done].
    + intros (k & ks & Hk & Hv & ->). exists (k, ks).
      split; [by apply elem_of_map_to_list|]. cbn. by rewrite decide_False.
Qed.

End EngineInvariants.

(** *** At sample inputs *)

Lemma X1_get_next_steps_outcome_witness :
  (get_next_steps spec_constants example_ct caller
     (world_with (status_of [("START", "failed")]))).2
  = Raise (Exn AssertionError "").
Proof.
  apply (X1_get_next_steps_outcome spec_constants example_ct caller
           (world_with (status_of [("START", "failed")]))
           (status_of [("START", "failed")])).
  vm_compute. reflexivity.
Defined.

Lemma X2_next_steps_shape_witness :
  (true = false ∧ Some "success" = None)
  ∨ (true = true ∧ @nil string = [] ∧
     exists t, t ∈ transitions example_ct ∧ terminal (second t) = true
       ∧ Some "success" = Some (lower (second t))
       ∧ lower (second t) ∈ ["error"; "failed"; "success"]).
Proof.
  eapply (X2_next_steps_shape spec_constants example_ct caller
            (world_with (status_of [("START", "success"); ("s1", "success")]))).
  vm_compute. reflexivity.
Defined.

Lemma X4_activated_steps_witness :
  "s1" ∈ ["s1"] ∧ terminal "s1" = false
  ∧ (exists t, t ∈ transitions example_ct ∧ second t = "s1"
       ∧ status_of [("START", "success")] !! first t = Some (condition t))
  ∧ (forall st, status_of [("START", "success")] !! "s1" = Some st ->
       st ∈ ALLOWED_JOB_STATUS spec_constants ->
       st = STATUS_ABORTED spec_constants).
Proof.
  eapply (X4_activated_steps spec_constants example_graph ["s1"] example_ct caller
            (world_with (status_of [("START", "success")]))).
  - vm_compute. reflexivity.
  - vm_compute. reflexivity.
  - vm_compute. reflexivity.
  - left.
Defined.

Lemma X5_only_valid_entries_matter_witness :
  (get_next_steps spec_constants example_ct caller
     (world_with (status_of [("START", "success"); ("bogus", "success")]))).2
  = (get_next_steps spec_constants example_ct caller
       (world_with (status_of [("START", "success")]))).2.
Proof.
  apply (X5_only_valid_entries_matter spec_constants example_ct
           caller _ (status_of [("START", "success"); ("bogus", "success")])
           caller _ (status_of [("START", "success")])).
  - vm_compute. reflexivity.
  - vm_compute. reflexivity.
  - vm_compute. reflexivity.
  - vm_compute. reflexivity.
  - vm_compute. reflexivity.
  - vm_compute. reflexivity.
  - vm_compute. reflexivity.
Defined.

Lemma X6_dropped_entries_logged_witness :
  (exists lg,
     dclog (get_next_steps spec_constants example_ct caller
              (world_with (status_of [("START", "success"); ("bogus", "success")]))).1 =
       dclog (world_with (status_of [("START", "success"); ("bogus", "success")]))
       ++ (INFO, Received_status
                   (Some (status_of [("START", "success"); ("bogus", "success")])))
          :: ignoring_messages spec_constants (steps example_ct)
               (map_to_list (status_of [("START", "success"); ("bogus", "success")]))
          ++ lg
     ∧ Forall (fun m => m.1 = DEBUG) lg)
  ∧ NoDup (ignoring_messages spec_constants (steps example_ct)
             (map_to_list (status_of [("START", "success"); ("bogus", "success")])))
  ∧ (forall m,
       m ∈ ignoring_messages spec_constants (steps example_ct)
             (map_to_list (status_of [("START", "success"); ("bogus", "success")]))
       <->
       exists k ks,
         status_of [("START", "success"); ("bogus", "success")] !! k = Some ks
         ∧ ¬ valid_entry spec_constants (steps example_ct) k ks
         ∧ m = (Transitions.ERROR, Ignoring_invalid_step k ks)).
Proof.
  apply (X6_dropped_entries_logged spec_constants example_ct caller
           (world_with (status_of [("START", "success"); ("bogus", "success")]))
           (status_of [("START", "success"); ("bogus", "success")])).
  - vm_compute. reflexivity.
  - vm_compute. reflexivity.
  - vm_compute. reflexivity.
Defined.

(** ** Writing the model back and reading it again *)

Import Serialization.

Lemma Build_from_yaml_as_dict (b : Build) :
  Build_from_yaml (YDict (Build_as_dict b)) = Return b.
Proof. destruct b as [c f a]. vm_compute. reflexivity. Qed.

Lemma ServiceDefinition_from_yaml_as_dict (s : ServiceDefinition) :
  ServiceDefinition_from_yaml (YDict (ServiceDefinition_as_dict s)) = Return s.
Proof. destruct s as [img env dig [[c f a]|]]; vm_compute; reflexivity. Qed.

(** A loop over the entries of a written dictionary reads every entry
    back. *)
Lemma mapM_items_read_back {B} (f : string -> yaml -> outcome B) (g : B -> yaml)
    (m : gmap string B) (l : list (string * yaml)) :
  (forall k b, m !! k = Some b -> f k (g b) = Return b) ->
  (forall k v, (k, v) ∈ l -> exists b, v = g b ∧ m !! k = Some b) ->
  exists l', mapM_items f l = Return l' ∧ l'.*1 = l.*1
    ∧ forall k b, (k, b) ∈ l' -> m !! k = Some b.
Proof.
  intros Hf. induction l as [|[k v] l IH]; intros Hl.
  - exists []. split; [done|]. split; [done|]. intros k b Hkb.
    by apply elem_of_nil in Hkb.
  - destruct (Hl k v) as (b & -> & Hb); [left|].
    destruct IH as (l' & Hrun & Hfst & Hin); [intros; apply Hl; by right|].
    exists ((k, b) :: l'). cbn [mapM_items]. rewrite (Hf k b Hb). cbn.
    rewrite Hrun. cbn. split; [done|]. split; [by rewrite Hfst|].
    intros k0 b0 [[= -> ->]|Hkb]%elem_of_cons; [done|by apply Hin].
Qed.

Lemma dict_mapM_fmap {B} (f : string -> yaml -> outcome B) (g : B -> yaml)
    (m : gmap string B) :
  (forall k b, m !! k = Some b -> f k (g b) = Return b) ->
  dict_mapM f (g <$> m) = Return m.
Proof.
  intros Hf. unfold dict_mapM.
  destruct (mapM_items_read_back f g m (map_to_list (g <$> m)) Hf)
    as (l' & -> & Hfst & Hin).
  { intros k v Hkv%elem_of_map_to_list.
    apply lookup_fmap_Some in Hkv as (b & <- & Hb). eauto. }
  cbn. f_equal. apply map_eq. intros i.
  assert (Hnd : NoDup l'.*1) by (rewrite Hfst; apply NoDup_fst_map_to_list).
  destruct (m !! i) as [b|] eqn:Hi.
  - assert (Hdom : i ∈ l'.*1).
    { rewrite Hfst. apply list_elem_of_fmap. exists (i, g b). split; [done|].
      apply elem_of_map_to_list. by rewrite lookup_fmap, Hi. }
    apply list_elem_of_fmap in Hdom as ([i' b'] & -> & Hib).
    cbn in Hi |- *. rewrite (Hin _ _ Hib) in Hi. injection Hi as ->.
    by apply elem_of_list_to_map_1.
  - apply not_elem_of_list_to_map_1. intros ([i' b'] & -> & Hib)%list_elem_of_fmap.
    cbn in Hi. by rewrite (Hin _ _ Hib) in Hi.
Qed.

Lemma list_mapM_fmap {A B} (f : A -> outcome B) (g : B -> A) (l : list B) :
  (forall b, b ∈ l -> f (g b) = Return b) ->
  list_mapM f (g <$> l) = Return l.
Proof.
  induction l as [|b l IH]; intros Hf; [done|].
  cbn. rewrite (Hf b) by left. cbn. rewrite IH; [done|].
  intros; apply Hf; by right.
Qed.

Lemma nonempty_fmap {B} (g : B -> yaml) (m : gmap string B) :
  m ≠ ∅ -> nonempty (g <$> m) = true.
Proof.
  intros Hm. unfold nonempty. rewrite bool_decide_eq_false_2; [done|].
  intros Hempty. by apply fmap_empty_inv in Hempty.
Qed.

Lemma EvaluationParameters_from_yaml_as_dict (ep : EvaluationParameters) :
  services ep ≠ ∅ ->
  EvaluationParameters_from_yaml (YDict (EvaluationParameters_as_dict ep))
  = Return ep.
Proof.
  destruct ep as [v svs]. cbn [services]. intros Hne.
  unfold EvaluationParameters_from_yaml, EvaluationParameters_as_dict.
  cbn [version services].
  set (S := (fun v => YDict (ServiceDefinition_as_dict v)) <$> svs).
  assert (Hpop : pop "services" ({[ "version" := v; "services" := YDict S ]})
                 = Return (YDict S, {[ "version" := v ]})).
  { generalize S. intros S'. vm_compute. reflexivity. }
  rewrite Hpop. cbn [mbind outcome_bind].
  unfold S at 1. rewrite nonempty_fmap by done. cbn [negb].
  assert (Hver : pop_default "version" (YStr "3") ({[ "version" := v ]} : ydict)
                 = (v, ∅)).
  { vm_compute. reflexivity. }
  rewrite Hver. unfold S.
  rewrite dict_mapM_fmap by (intros; apply ServiceDefinition_from_yaml_as_dict).
  cbn [mbind outcome_bind]. by rewrite nonempty_empty.
Qed.

(** *** What a successful reading guarantees *)

Lemma wrap_config_reader_Return {A} n (o : outcome A) a :
  wrap_config_reader n o = Return a -> o = Return a.
Proof. by destruct o. Qed.

Lemma except_KeyError_Return {A} (o : outcome A) a :
  except_KeyError o = Return a -> o = Return a.
Proof. destruct o as [a'|[[] k]]; done. Qed.

Lemma outcome_bind_Return {A B} (o : outcome A) (f : A -> outcome B) b :
  o ≫= f = Return b -> exists a, o = Return a ∧ f a = Return b.
Proof. destruct o as [a|e]; [eauto|done]. Qed.

Lemma mapM_items_Return {B} (f : string -> yaml -> outcome B) l :
  forall l', mapM_items f l = Return l' ->
  l'.*1 = l.*1
  ∧ forall k b, (k, b) ∈ l' -> exists v, (k, v) ∈ l ∧ f k v = Return b.
Proof.
  induction l as [|[k v] l IH]; intros l'; cbn [mapM_items].
  - intros [= <-]. split; [done|]. intros k b Hkb. by apply elem_of_nil in Hkb.
  - intros (b & Hb & (bs & Hbs & [= <-])%outcome_bind_Return)%outcome_bind_Return.
    destruct (IH bs Hbs) as [Hfst Hin]. split; [cbn; by rewrite Hfst|].
    intros k0 b0 [[= -> ->]|Hkb]%elem_of_cons.
    + exists v. split; [left|done].
    + destruct (Hin k0 b0 Hkb) as (v0 & Hv0 & Hf0). exists v0. split; [by right|done].
Qed.

Lemma dict_mapM_Return {B} (f : string -> yaml -> outcome B) (d : ydict) m :
  dict_mapM f d = Return m ->
  (forall k b, m !! k = Some b -> exists v, d !! k = Some v ∧ f k v = Return b)
  ∧ (d ≠ ∅ -> m ≠ ∅).
Proof.
  unfold dict_mapM. intros (l' & Hl' & [= <-])%outcome_bind_Return.
  apply mapM_items_Return in Hl' as [Hfst Hin]. split.
  - intros k b Hkb%elem_of_list_to_map_2.
    destruct (Hin k b Hkb) as (v & Hv%elem_of_map_to_list & Hf). eauto.
  - intros Hd Hm. apply Hd. apply map_to_list_empty_iff.
    destruct l' as [|[k b] l']; [|cbn in Hm; by apply insert_non_empty in Hm].
    destruct (map_to_list d); [done|discriminate].
Qed.

Lemma list_mapM_Return {A B} (f : A -> outcome B) l :
  forall l', list_mapM f l = Return l' -> Forall2 (fun a b => f a = Return b) l l'.
Proof.
  induction l as [|a l IH]; intros l'; cbn [list_mapM].
  - intros [= <-]. constructor.
  - intros (b & Hb & (bs & Hbs & [= <-])%outcome_bind_Return)%outcome_bind_Return.
    constructor; [done|by apply IH].
Qed.

Lemma EvaluationParameters_from_yaml_Return y ep :
  EvaluationParameters_from_yaml y = Return ep -> services ep ≠ ∅.
Proof.
  unfold EvaluationParameters_from_yaml. intros H%wrap_config_reader_Return.
  destruct y as [| | | | |d]; try discriminate.
  apply outcome_bind_Return in H as ([sv d1] & _ & H).
  destruct sv as [| | | | |sv]; try discriminate.
  destruct (nonempty sv) eqn:Hne; [|discriminate]. cbn [negb] in H.
  destruct (pop_default "version" (YStr "3") d1) as [v d2].
  apply outcome_bind_Return in H as (m & Hm & H).
  destruct (nonempty d2); [discriminate|]. injection H as <-. cbn [services].
  apply dict_mapM_Return in Hm as [_ Hm]. apply Hm.
  unfold nonempty in Hne. apply negb_true_iff, bool_decide_eq_false in Hne. done.
Qed.

Lemma ChallengeStep_from_yaml_Return y k st :
  ChallengeStep_from_yaml y k = Return st ->
  step_name st = k ∧ services (evaluation_parameters st) ≠ ∅.
Proof.
  unfold ChallengeStep_from_yaml. intros H%wrap_config_reader_Return.
  destruct y as [| | | | |d]; try discriminate.
  apply outcome_bind_Return in H as ([t d1] & _ & H).
  apply outcome_bind_Return in H as ([ds d2] & _ & H).
  apply outcome_bind_Return in H as ([ep0 d3] & _ & H).
  apply outcome_bind_Return in H as (ep & Hep & H).
  apply outcome_bind_Return in H as ([fr d4] & _ & H).
  apply outcome_bind_Return in H as ([to d5] & _ & H).
  destruct (nonempty d5); [discriminate|].
  unfold ChallengeStep_init in H. destruct fr; try discriminate.
  injection H as <-. cbn. split; [done|].
  by eapply EvaluationParameters_from_yaml_Return.
Qed.

Lemma Score_from_yaml_Return y sc :
  Score_from_yaml y = Return sc -> order sc ∈ ["ascending"; "descending"].
Proof.
  unfold Score_from_yaml. intros H%except_KeyError_Return.
  destruct y as [| | | | |d]; try discriminate.
  apply outcome_bind_Return in H as ([n d1] & _ & H).
  destruct (pop_default "description" YNull d1) as [ds d2].
  destruct (pop_default "order" (YStr "ascending") d2) as [o d3].
  destruct (nonempty d3); [discriminate|].
  unfold Score_init in H. destruct o; try discriminate.
  case_bool_decide; [|discriminate]. by injection H as <-.
Qed.

Lemma Scoring_from_yaml_Return y sc :
  Scoring_from_yaml y = Return sc ->
  Forall (fun s => order s ∈ ["ascending"; "descending"]) (Challenge.scores sc).
Proof.
  unfold Scoring_from_yaml. intros H%except_KeyError_Return.
  destruct y as [| | | | |d]; try discriminate.
  apply outcome_bind_Return in H as ([ss d1] & _ & H).
  destruct ss as [| | | |ss|]; try discriminate.
  apply outcome_bind_Return in H as (l & Hl & H).
  destruct (nonempty d1); [discriminate|]. injection H as <-. cbn.
  apply list_mapM_Return in Hl. induction Hl; constructor; [|done].
  by eapply Score_from_yaml_Return.
Qed.

(** *** Reading back what was written *)

Lemma ChallengeStep_from_yaml_as_dict (st : ChallengeStep) :
  services (evaluation_parameters st) ≠ ∅ ->
  ChallengeStep_from_yaml (YDict (ChallengeStep_as_dict st)) (step_name st)
  = Return st.
Proof.
  destruct st as [n t ds ep fr to]. cbn [evaluation_parameters step_name].
  intros Hne.
  assert (Hfields : forall E : yaml,
    ChallengeStep_from_yaml
      (YDict {[ "title" := t; "description" := ds; "evaluation_parameters" := E;
                "features_required" := YDict fr; "timeout" := to ]}) n
    = wrap_config_reader "from_yaml"
        (ep' ← EvaluationParameters_from_yaml E;
         ChallengeStep_init n t ds ep' (YDict fr) to)).
  { intros E. reflexivity. }
  unfold ChallengeStep_as_dict.
  cbn [step_title step_description evaluation_parameters features_required timeout].
  rewrite Hfields, EvaluationParameters_from_yaml_as_dict by done. reflexivity.
Qed.

Lemma Score_from_yaml_as_dict (sc : Score) :
  order sc ∈ ["ascending"; "descending"] ->
  Score_from_yaml (YDict (Score_as_dict sc)) = Return sc.
Proof.
  destruct sc as [n d o]. cbn [order]. intros Ho.
  repeat (apply elem_of_cons in Ho as [->|Ho]); [..|by apply elem_of_nil in Ho];
    vm_compute; reflexivity.
Qed.

Lemma Scoring_from_yaml_as_dict (sc : Scoring) :
  Forall (fun s => order s ∈ ["ascending"; "descending"]) (Challenge.scores sc) ->
  Scoring_from_yaml (YDict (Scoring_as_dict sc)) = Return sc.
Proof.
  destruct sc as [l]. cbn [Challenge.scores]. intros Hl.
  unfold Scoring_from_yaml, Scoring_as_dict. cbn [Challenge.scores].
  assert (Hpop : forall L : list yaml,
            pop "scores" ({[ "scores" := YList L ]} : ydict) = Return (YList L, ∅)).
  { intros L. vm_compute. reflexivity. }
  rewrite Hpop. cbn [mbind outcome_bind].
  rewrite list_mapM_fmap.
  - cbn [mbind outcome_bind]. by rewrite nonempty_empty.
  - rewrite Forall_forall in Hl. intros b Hb. by apply Score_from_yaml_as_dict, Hl.
Qed.

Section DescriptionRoundTrip.

Context (CC : ChallengesConstantsT).

(** The three assertions of the constructor of the transitions, on a
    transition and the names of the steps. *)
Lemma transition_of_yaml_Return names item t :
  transition_of_yaml CC names item = Return t ->
  (first t = STATE_START ∨ first t ∈ names)
  ∧ (second t ∈ [STATE_ERROR; STATE_FAILED; STATE_SUCCESS] ∨ second t ∈ names)
  ∧ condition t ∈ ALLOWED_JOB_STATUS CC.
Proof.
  unfold transition_of_yaml. intros (l & _ & H)%outcome_bind_Return.
  destruct l as [|a [|b [|c [|]]]]; try discriminate.
  destruct a; try discriminate. case_bool_decide; [|discriminate].
  destruct c; try discriminate. case_bool_decide; [|discriminate].
  destruct b; try discriminate. case_bool_decide; [|discriminate].
  by injection H as <-.
Qed.

Lemma transition_of_yaml_as_list names t :
  (first t = STATE_START ∨ first t ∈ names) ->
  (second t ∈ [STATE_ERROR; STATE_FAILED; STATE_SUCCESS] ∨ second t ∈ names) ->
  condition t ∈ ALLOWED_JOB_STATUS CC ->
  transition_of_yaml CC names
    (YList [YStr (first t); YStr (condition t); YStr (second t)]) = Return t.
Proof.
  intros H1 H2 H3. unfold transition_of_yaml. cbn.
  rewrite !bool_decide_eq_true_2 by done. by destruct t.
Qed.

Lemma ChallengeDescription_fields (n t d p tg sc tr : yaml) (o c : Z)
    (r st : ydict) :
  ChallengeDescription_from_yaml CC
    (YDict {[ "challenge" := n; "title" := t; "description" := d;
              "protocol" := p; "date-open" := YDate o; "date-close" := YDate c;
              "roles" := YDict r; "transitions" := tr; "steps" := YDict st;
              "tags" := tg; "scoring" := sc ]})
  = wrap_config_reader "from_yaml"
      (except_KeyError
         (Steps ← dict_mapM (fun k v => ChallengeStep_from_yaml v k) st;
          scoring ← Scoring_from_yaml sc;
          ChallengeDescription_init CC n t d p (YDate o) (YDate c) Steps
            (YDict r) tr tg scoring)).
Proof.
  reflexivity.
Qed.

(** What the constructor has checked on a description it returns. *)
Lemma ChallengeDescription_init_Return n t d p o c stps r tr tg sc cd :
  ChallengeDescription_init CC n t d p o c stps r tr tg sc = Return cd ->
  name cd = n ∧ title cd = t ∧ description cd = d ∧ protocol cd = p
  ∧ o = YDate (date_open cd) ∧ c = YDate (date_close cd)
  ∧ cd_steps cd = stps ∧ r = YDict (roles cd) ∧ tags cd = tg ∧ scoring cd = sc
  ∧ is_return (mapM_items check_role (map_to_list (roles cd))) = true
  ∧ steps (ct cd) = (map_to_list stps).*1
  ∧ Forall (fun t =>
              (first t = STATE_START ∨ first t ∈ (map_to_list stps).*1)
              ∧ (second t ∈ [STATE_ERROR; STATE_FAILED; STATE_SUCCESS]
                 ∨ second t ∈ (map_to_list stps).*1)
              ∧ condition t ∈ ALLOWED_JOB_STATUS CC)
           (transitions (ct cd)).
Proof.
  unfold ChallengeDescription_init. intros H.
  destruct o as [| | |o| |]; try discriminate.
  destruct c as [| | |c| |]; try discriminate.
  destruct r as [| | | | |r]; try discriminate.
  apply outcome_bind_Return in H as (u & Hroles & H).
  apply outcome_bind_Return in H as (ts & _ & H).
  apply outcome_bind_Return in H as (ts' & Hts & H).
  injection H as <-. cbn. rewrite Hroles. repeat (split; [done|]).
  apply list_mapM_Return in Hts. induction Hts; constructor; [|done].
  by eapply transition_of_yaml_Return.
Qed.

(** What holds of every description that [from_yaml] returns. *)
Lemma ChallengeDescription_from_yaml_Return y cd :
  ChallengeDescription_from_yaml CC y = Return cd ->
  (forall k st, cd_steps cd !! k = Some st ->
     step_name st = k ∧ services (evaluation_parameters st) ≠ ∅)
  ∧ Forall (fun s => order s ∈ ["ascending"; "descending"])
           (Challenge.scores (scoring cd))
  ∧ is_return (mapM_items check_role (map_to_list (roles cd))) = true
  ∧ steps (ct cd) = (map_to_list (cd_steps cd)).*1
  ∧ Forall (fun t =>
              (first t = STATE_START ∨ first t ∈ (map_to_list (cd_steps cd)).*1)
              ∧ (second t ∈ [STATE_ERROR; STATE_FAILED; STATE_SUCCESS]
                 ∨ second t ∈ (map_to_list (cd_steps cd)).*1)
              ∧ condition t ∈ ALLOWED_JOB_STATUS CC)
           (transitions (ct cd)).
Proof.
  unfold ChallengeDescription_from_yaml.
  intros H%wrap_config_reader_Return%except_KeyError_Return.
  destruct y as [| | | | |data]; try discriminate.
  apply outcome_bind_Return in H as ([n d1] & _ & H).
  destruct (pop_default "tags" (YList []) d1) as [tg d2].
  apply outcome_bind_Return in H as ([t d3] & _ & H).
  apply outcome_bind_Return in H as ([ds d4] & _ & H).
  apply outcome_bind_Return in H as ([p d5] & _ & H).
  apply outcome_bind_Return in H as ([o d6] & _ & H).
  apply outcome_bind_Return in H as ([c d7] & _ & H).
  apply outcome_bind_Return in H as ([r d8] & _ & H).
  apply outcome_bind_Return in H as ([tr d9] & _ & H).
  apply outcome_bind_Return in H as ([stps d10] & _ & H).
  destruct stps as [| | | | |stps]; try discriminate.
  apply outcome_bind_Return in H as (Steps & HSteps & H).
  apply outcome_bind_Return in H as ([sc0 d11] & _ & H).
  apply outcome_bind_Return in H as (sc & Hsc & H).
  destruct (nonempty d11); [discriminate|].
  apply ChallengeDescription_init_Return in H
    as (_ & _ & _ & _ & _ & _ & -> & _ & _ & -> & Hroles & Hsteps & Hts).
  split; [|split; [|done]].
  - intros k st Hk. apply dict_mapM_Return in HSteps as [HSteps _].
    destruct (HSteps k st Hk) as (v & _ & Hv).
    by eapply ChallengeStep_from_yaml_Return.
  - by eapply Scoring_from_yaml_Return.
Qed.

(** A description with these properties is read back from what
    [as_dict] writes. *)
Lemma ChallengeDescription_from_yaml_as_dict cd :
  (forall k st, cd_steps cd !! k = Some st ->
     step_name st = k ∧ services (evaluation_parameters st) ≠ ∅) ->
  Forall (fun s => order s ∈ ["ascending"; "descending"])
         (Challenge.scores (scoring cd)) ->
  is_return (mapM_items check_role (map_to_list (roles cd))) = true ->
  steps (ct cd) = (map_to_list (cd_steps cd)).*1 ->
  Forall (fun t =>
            (first t = STATE_START ∨ first t ∈ (map_to_list (cd_steps cd)).*1)
            ∧ (second t ∈ [STATE_ERROR; STATE_FAILED; STATE_SUCCESS]
               ∨ second t ∈ (map_to_list (cd_steps cd)).*1)
            ∧ condition t ∈ ALLOWED_JOB_STATUS CC)
         (transitions (ct cd)) ->
  ChallengeDescription_from_yaml CC (YDict (ChallengeDescription_as_dict cd))
  = Return cd.
Proof.
  destruct cd as [n t d p o c stps r tg sc [ts names]].
  cbn [cd_steps scoring roles ct steps transitions].
  intros Hsteps Hscores Hroles -> Hts.
  unfold ChallengeDescription_as_dict.
  cbn [name title description protocol date_open date_close roles ct cd_steps
       tags scoring transitions].
  rewrite ChallengeDescription_fields.
  rewrite dict_mapM_fmap.
  2: { intros k st Hk. destruct (Hsteps k st Hk) as [<- Hne].
       by apply ChallengeStep_from_yaml_as_dict. }
  cbn [mbind outcome_bind]. rewrite Scoring_from_yaml_as_dict by done.
  cbn [mbind outcome_bind]. unfold ChallengeDescription_init.
  destruct (mapM_items check_role (map_to_list r)) as [u|e]; [|done].
  cbn [mbind outcome_bind py_iter].
  rewrite list_mapM_fmap; [done|].
  rewrite Forall_forall in Hts. intros t0 Ht0.
  destruct (Hts t0 Ht0) as (H1 & H2 & H3). by apply transition_of_yaml_as_list.
Qed.

(** X7: whatever [ChallengeDescription.from_yaml] returns, [as_dict]
    writes back as a dictionary from which [from_yaml] returns the same
    description: steps with their evaluation parameters, services and build
    blocks, roles, transitions, tags and scoring. *)
Theorem X7_description_read_back y cd :
  ChallengeDescription_from_yaml CC y = Return cd ->
  ChallengeDescription_from_yaml CC (YDict (ChallengeDescription_as_dict cd))
  = Return cd.
Proof.
  intros H. apply ChallengeDescription_from_yaml_Return in H
    as (H1 & H2 & H3 & H4 & H5).
  by apply ChallengeDescription_from_yaml_as_dict.
Qed.

End DescriptionRoundTrip.

Lemma X7_description_read_back_witness :
  exists cd,
    ChallengeDescription_from_yaml spec_constants
      (sample_description (yd [("scores", YList [yd [("name", YStr "score1")]])]))
    = Return cd
    ∧ ChallengeDescription_from_yaml spec_constants
        (YDict (ChallengeDescription_as_dict cd))
      = Return cd.
Proof.
  eexists. split; [vm_compute; reflexivity|].
  apply (X7_description_read_back spec_constants
           (sample_description (yd [("scores", YList [yd [("name", YStr "score1")]])]))).
  vm_compute. reflexivity.
Defined.

(** ** Equivalence of evaluation parameters *)

Lemma ServiceDefinition_equivalent_Raise a b e :
  ServiceDefinition_equivalent a b = Raise e -> exn_cls e = NotEquivalent.
Proof.
  unfold ServiceDefinition_equivalent.
  repeat (case_bool_decide || destruct (is_None _) || destruct (yaml_eqb _ _));
    cbn; by intros [= <-].
Qed.

Lemma ServiceDefinition_equivalent_refl s :
  ServiceDefinition_equivalent s s = Return tt <->
  image s = SUBMISSION_CONTAINER_TAG ∨ image_digest s ≠ YNull.
Proof.
  unfold ServiceDefinition_equivalent.
  assert (Henv : yaml_eqb (YDict (environment s)) (YDict (environment s)) = true)
    by (by apply yaml_eqb_eq).
  assert (Hdig : yaml_eqb (image_digest s) (image_digest s) = true)
    by (by apply yaml_eqb_eq).
  rewrite Henv, Hdig. cbn [negb].
  case_bool_decide as Himg; cbn.
  - destruct (image_digest s); cbn; (split; [|intros [?|?]; done]);
      first [done | intros _; by right].
  - split; [|done]. intros _. left.
    destruct (decide (image s = SUBMISSION_CONTAINER_TAG)); [done|].
    by destruct Himg.
Qed.

Lemma list_mapM_unit_Return {A} (f : A -> outcome unit) (l : list A) :
  (exists l', list_mapM f l = Return l') <-> forall a, a ∈ l -> f a = Return tt.
Proof.
  induction l as [|a l IH]; cbn [list_mapM].
  - split; [intros _ a Ha; by apply elem_of_nil in Ha|eauto].
  - split.
    + intros [l' (u & Hu & (bs & Hbs & _)%outcome_bind_Return)%outcome_bind_Return].
      intros a0 [->|Ha0]%elem_of_cons; [by destruct u|].
      apply IH; eauto.
    + intros H. rewrite (H a) by left. cbn.
      destruct (proj2 IH) as [l' ->]; [intros; apply H; by right|]. cbn. eauto.
Qed.

Lemma list_mapM_Raise {A B} (f : A -> outcome B) (l : list A) e :
  list_mapM f l = Raise e -> exists a, a ∈ l ∧ f a = Raise e.
Proof.
  induction l as [|a l IH]; cbn [list_mapM]; [done|].
  destruct (f a) as [b|e'] eqn:Hfa; cbn.
  - destruct (list_mapM f l) as [bs|e'] eqn:Hl; cbn; [done|].
    intros [= ->]. destruct IH as (a0 & Ha0 & Hf0); [done|].
    exists a0. split; [by right|done].
  - intros [= ->]. exists a. split; [left|done].
Qed.

(** When [equivalent] returns. *)
Lemma EvaluationParameters_equivalent_Return self other :
  EvaluationParameters_equivalent self other = Return tt <->
  dom (services self) = dom (services other)
  ∧ forall k a b, services self !! k = Some a -> services other !! k = Some b ->
      ServiceDefinition_equivalent a b = Return tt.
Proof.
  unfold EvaluationParameters_equivalent. case_bool_decide as Hdom; cbn.
  { split; [done|]. intros [Hd _]. by rewrite Hd in Hdom. }
  assert (Hd : dom (services other) = dom (services self)).
  { destruct (decide (dom (services other) = dom (services self))); [done|].
    by destruct Hdom. }
  match goal with
  | |- context [list_mapM ?f ?l] =>
      pose proof (list_mapM_unit_Return f l) as Hloop;
      destruct (list_mapM f l) as [l'|e] eqn:Hrun
  end; cbn.
  - split; [|done]. intros _. split; [done|]. intros k a b Ha Hb.
    destruct Hloop as [Hloop _]. specialize (Hloop (ex_intro _ l' eq_refl) k).
    rewrite Ha, Hb in Hloop. cbn in Hloop.
    destruct (ServiceDefinition_equivalent a b) as [[]|e] eqn:Heq; [done|].
    exfalso. cut (@Return unit tt = Return tt -> False); [auto|].
    assert (Hk : k ∈ (map_to_list (services other)).*1).
    { apply list_elem_of_fmap. exists (k, b). split; [done|].
      by apply elem_of_map_to_list. }
    specialize (Hloop Hk). by case_bool_decide.
  - split; [done|]. intros [_ Hall]. destruct Hloop as [_ Hloop].
    destruct Hloop as [l' Hl']; [|done].
    intros k ([k' b] & -> & Hkb%elem_of_map_to_list)%list_elem_of_fmap. cbn.
    assert (is_Some (services self !! k')) as [a Ha].
    { apply elem_of_dom. rewrite <- Hd. apply elem_of_dom. eauto. }
    rewrite Ha, Hkb. cbn. by rewrite (Hall k' a b).
Qed.

Lemma EvaluationParameters_equivalent_Raise self other e :
  EvaluationParameters_equivalent self other = Raise e ->
  exn_cls e = NotEquivalent.
Proof.
  unfold EvaluationParameters_equivalent. case_bool_decide as Hdom; cbn.
  { by intros [= <-]. }
  assert (Hd : dom (services other) = dom (services self)).
  { destruct (decide (dom (services other) = dom (services self))); [done|].
    by destruct Hdom. }
  match goal with
  | |- context [list_mapM ?f ?l] =>
      destruct (list_mapM f l) as [l'|e'] eqn:Hrun
  end; cbn; [done|]. intros [= ->].
  apply list_mapM_Raise in Hrun as (k & Hk & Hrun).
  apply list_elem_of_fmap in Hk as ([k' b] & -> & Hkb%elem_of_map_to_list).
  cbn in Hrun.
  assert (is_Some (services self !! k')) as [a Ha].
  { apply elem_of_dom. rewrite <- Hd. apply elem_of_dom. eauto. }
  rewrite Ha, Hkb in Hrun. cbn in Hrun.
  destruct (ServiceDefinition_equivalent a b) as [[]|e'] eqn:Heq; [done|].
  apply ServiceDefinition_equivalent_Raise in Heq.
  rewrite bool_decide_eq_true_2 in Hrun by done. by injection Hrun as <-.
Qed.

(** X8: [EvaluationParameters.equivalent] returns exactly when the two
    sets of parameters name the same services and, name by name, the
    service of the first is equivalent to the service of the second; in
    every other case it raises [NotEquivalent], never a [KeyError]. *)
Theorem X8_parameters_equivalent_iff self other :
  (EvaluationParameters_equivalent self other = Return tt <->
   dom (services self) = dom (services other)
   ∧ forall k a b, services self !! k = Some a -> services other !! k = Some b ->
       ServiceDefinition_equivalent a b = Return tt)
  ∧ (forall e, EvaluationParameters_equivalent self other = Raise e ->
       exn_cls e = NotEquivalent).
Proof.
  split; [apply EvaluationParameters_equivalent_Return|].
  apply EvaluationParameters_equivalent_Raise.
Qed.

(** X9: equivalence is not reflexive: a set of evaluation parameters is
    equivalent to itself exactly when each of its services has the image
    SUBMISSION_CONTAINER or a digest that is not [None]; one service with
    another image and no digest makes the comparison of the parameters with
    themselves raise [NotEquivalent]. *)
Theorem X9_equivalent_to_itself self :
  (EvaluationParameters_equivalent self self = Return tt <->
   forall k s, services self !! k = Some s ->
     image s = SUBMISSION_CONTAINER_TAG ∨ image_digest s ≠ YNull)
  ∧ (forall k s, services self !! k = Some s ->
       image s ≠ SUBMISSION_CONTAINER_TAG -> image_digest s = YNull ->
       raises NotEquivalent (EvaluationParameters_equivalent self self) = true).
Proof.
  assert (Hiff : EvaluationParameters_equivalent self self = Return tt <->
            forall k s, services self !! k = Some s ->
              image s = SUBMISSION_CONTAINER_TAG ∨ image_digest s ≠ YNull).
  { rewrite EvaluationParameters_equivalent_Return. split.
    - intros [_ H] k s Hk. apply ServiceDefinition_equivalent_refl. by eapply H.
    - intros H. split; [done|]. intros k a b Ha Hb.
      assert (a = b) as <- by congruence.
      apply ServiceDefinition_equivalent_refl. by eapply H. }
  split; [exact Hiff|]. intros k s Hk Himg Hdig.
  destruct (EvaluationParameters_equivalent self self) as [[]|e] eqn:Hrun.
  - destruct (proj1 Hiff eq_refl k s Hk); done.
  - cbn. apply bool_decide_eq_true_2.
    by eapply EvaluationParameters_equivalent_Raise.
Qed.

(** ** Qualified image names *)

Lemma substring_app_skip (a s : string) n :
  substring (String.length a) n (a +:+ s) = substring 0 n s.
Proof. induction a as [|c a IH]; [done|]. exact IH. Qed.

Lemma contains_at (a b : string) : contains "@" (a +:+ "@" +:+ b) = true.
Proof.
  unfold contains. destruct (index 0 "@" (a +:+ "@" +:+ b)) as [n|] eqn:Hi; [done|].
  exfalso.
  apply (index_correct3 0 (String.length a) "@" _ Hi); [done|lia|].
  rewrite substring_app_skip. cbn. by destruct b.
Qed.

(** X10: [get_latest] on a name that contains an at sign returns [None]
    without asking the Docker daemon; on any other name for which the
    daemon answers, it returns a name that contains an at sign, so that a
    second [get_latest] (a second [update_image]) on its result returns
    [None]. *)
Theorem X10_get_latest_qualified images_get image_name :
  (contains "@" image_name = true ->
   forall ig, get_latest ig image_name
              = ([Warning_already_qualified image_name], Return None))
  ∧ (forall lg fq,
       get_latest images_get image_name = (lg, Return (Some fq)) ->
       contains "@" image_name = false
       ∧ contains "@" fq = true
       ∧ forall ig, (get_latest ig fq).2 = Return None).
Proof.
  unfold get_latest. split.
  - intros -> ig. done.
  - intros lg fq. destruct (contains "@" image_name) eqn:Hat; [done|].
    destruct (images_get image_name) as [image_id|e]; [|done].
    intros [= <- <-]. split; [done|].
    split; [apply contains_at|]. intros ig. by rewrite contains_at.
Qed.

(** ** The handshake: what is declared, and when *)

Section HandshakeOutcomes.

Context (constants : ConstantsT) (format_exc : exn -> string)
        (str : yaml -> string) (status_name : ChallengeResultsStatus -> string).

Abbreviation evaluator_body := (wrap_evaluator_body constants format_exc str).
Abbreviation evaluator :=
  (wrap_evaluator constants format_exc str status_name).

(** Events other than the declaration of the results. *)
Abbreviation quiet :=
  (Forall (fun ev => match ev with
                     | DeclareChallengeResults _ _ => False
                     | _ => True
                     end)).

Lemma FS_write_events_quiet (files : FS) dest : quiet (FS_write_events files dest).
Proof.
  unfold FS_write_events. induction ((map_to_list files).*2) as [|rf l IH]; cbn.
  - constructor.
  - constructor; [done|]. constructor; [by destruct (source rf)|done].
Qed.

Lemma py_in_run {O} k v (s : st O) : py_in k v s = (s, (py_in k v s).2).
Proof. by destruct v. Qed.

Lemma py_getitem_run {O} v k (s : st O) :
  py_getitem v k s = (s, (py_getitem v k s).2).
Proof. destruct v; try done. cbn. by destruct (_ !! _). Qed.

(** The guarded preparation when the user's [prepare] returns. *)
Lemma prepare_guarded_return env (s : st CIE) cie1 :
  evaluator_prepare env (obj s) = (cie1, Return tt) ->
  prepare_guarded constants format_exc env s =
    match parameters cie1 with
    | None =>
        (mkSt cie1 (trace s),
         Raise (Exn InvalidEvaluator
                  "Parameters not set. Evaluator must use set_challenge_parameters()."))
    | Some params =>
        (mkSt cie1
           (trace s
            ++ FS_write_events (challenge_files cie1)
                 (os_path_join (cie_root cie1) (CHALLENGE_DESCRIPTION_DIR constants))
            ++ [WriteYaml (Some params)
                  (os_path_join (cie_root cie1)
                                (CHALLENGE_DESCRIPTION_YAML constants))]),
         Return tt)
    end.
Proof.
  intros Hprep. unfold prepare_guarded, try_finally, try_except, call.
  rewrite Hprep. unfold after_prepare. psimpl.
  destruct (parameters cie1) as [params|]; psimpl; [|done].
  rewrite FS_write_run. psimpl. by rewrite <- app_assoc.
Qed.

(** What the guarded preparation adds to the trace. *)
Lemma prepare_guarded_trace env (s : st CIE) :
  exists evs, trace (prepare_guarded constants format_exc env s).1 = trace s ++ evs
    ∧ quiet evs.
Proof.
  destruct (evaluator_prepare env (obj s)) as [cie1 [[]|e]] eqn:Hprep.
  - rewrite (prepare_guarded_return env s cie1 Hprep).
    destruct (parameters cie1) as [params|]; cbn [fst trace].
    + eexists. split; [reflexivity|]. apply Forall_app. split.
      * apply FS_write_events_quiet.
      * by repeat constructor.
    + exists []. split; [by rewrite app_nil_r|constructor].
  - rewrite (prepare_guarded_raise constants format_exc env s cie1 e Hprep).
    cbn [fst trace]. eexists. split; [reflexivity|]. apply Forall_app. split.
    + apply FS_write_events_quiet.
    + by repeat constructor.
Qed.

(** [after_score], by the scores recorded. *)
Lemma after_score_run (s : st CIE) :
  after_score constants s =
    if decide (scores (obj s) = ∅)
    then (s, Raise (Exn InvalidEvaluator "No scores created"))
    else (mkSt (obj s)
            (trace s
             ++ FS_write_events (evaluation_files (obj s))
                  (os_path_join (cie_root (obj s))
                                (CHALLENGE_EVALUATION_OUTPUT_DIR constants))
             ++ [DeclareChallengeResults (cie_root (obj s))
                   (mkChallengeResults SUCCESS None (rs_value <$> scores (obj s)))]),
          Return tt).
Proof.
  unfold after_score. psimpl. destruct (decide (scores (obj s) = ∅)) as [He|Hne].
  - rewrite bool_decide_eq_true_2 by done. by psimpl.
  - rewrite bool_decide_eq_false_2 by done. rewrite bind_run, FS_write_run.
    unfold emit. cbn [obj trace]. by rewrite <- app_assoc.
Qed.

(** The user's [score] and [after_score]. *)
Lemma score_then_after_score score (s : st CIE) :
  (call score ;; after_score constants) s =
    match score (obj s) with
    | (cie2, Raise e) => (mkSt cie2 (trace s), Raise e)
    | (cie2, Return _) =>
        if decide (scores cie2 = ∅)
        then (mkSt cie2 (trace s), Raise (Exn InvalidEvaluator "No scores created"))
        else (mkSt cie2
                (trace s
                 ++ FS_write_events (evaluation_files cie2)
                      (os_path_join (cie_root cie2)
                                    (CHALLENGE_EVALUATION_OUTPUT_DIR constants))
                 ++ [DeclareChallengeResults (cie_root cie2)
                       (mkChallengeResults SUCCESS None (rs_value <$> scores cie2))]),
              Return tt)
    end.
Proof.
  rewrite bind_run. unfold call.
  destruct (score (obj s)) as [cie2 [[]|e]]; [|done].
  by rewrite after_score_run.
Qed.

(** One test of the output of the solution for a marker: it raises in
    the state it is in, or goes on. *)
Lemma marker_check_dict k cls (d : ydict) (cont : Proc CIE unit) (s : st CIE) :
  (b ← py_in k (YDict d);
   if b : bool then v ← py_getitem (YDict d) k; raise cls (str v) else cont) s
  = match d !! k with
    | Some v => (s, Raise (Exn cls (str v)))
    | None => cont s
    end.
Proof.
  unfold py_in, py_getitem. psimpl. destruct (d !! k) as [v|] eqn:Hk.
  - rewrite bool_decide_eq_true_2 by eauto. by psimpl.
  - rewrite bool_decide_eq_false_2 by (by intros [? ?]). done.
Qed.

Lemma marker_check k cls out (cont : Proc CIE unit) (s : st CIE) :
  (exists e,
     (b ← py_in k out;
      if b : bool then v ← py_getitem out k; raise cls (str v) else cont) s
     = (s, Raise e))
  ∨ (b ← py_in k out;
     if b : bool then v ← py_getitem out k; raise cls (str v) else cont) s
    = cont s.
Proof.
  rewrite bind_run, (py_in_run k out s).
  destruct ((py_in k out s).2) as [[|]|e]; [|by right|eauto].
  rewrite bind_run, (py_getitem_run out k s).
  destruct ((py_getitem out k s).2) as [v|e]; eauto.
Qed.

(** What the body of [wrap_evaluator] adds to the trace: when it returns,
    the declaration of a success with at least one score, last; when it
    raises, no declaration. *)
Lemma evaluator_body_trace env (s : st CIE) :
  exists evs,
    trace (evaluator_body env s).1 = trace s ++ evs
    ∧ match (evaluator_body env s).2 with
      | Return _ =>
          exists pre root' sc,
            evs = pre ++ [DeclareChallengeResults root'
                            (mkChallengeResults SUCCESS None sc)]
            ∧ quiet pre ∧ sc ≠ ∅
      | Raise _ => quiet evs
      end.
Proof.
  pose (P := fun r : st CIE * outcome unit =>
          exists evs,
            trace r.1 = trace s ++ evs
            ∧ match r.2 with
              | Return _ =>
                  exists pre root' sc,
                    evs = pre ++ [DeclareChallengeResults root'
                                    (mkChallengeResults SUCCESS None sc)]
                    ∧ quiet pre ∧ sc ≠ ∅
              | Raise _ => quiet evs
              end).
  change (P (evaluator_body env s)).
  unfold wrap_evaluator_body. rewrite bind_run.
  destruct (prepare_guarded_trace env s) as (evs0 & Htr0 & Hq0).
  destruct (prepare_guarded constants format_exc env s) as [s1 [[]|e]];
    cbn [fst trace] in Htr0.
  2: { exists evs0. split; done. }
  assert (Hstop : forall e, P (s1, Raise e)).
  { intros e. exists evs0. split; done. }
  rewrite bind_run, try_except_run.
  destruct (solution_shows_up env); cbn [pass raise mret SE_ret].
  2: { rewrite bool_decide_eq_true_2 by done. apply Hstop. }
  rewrite bind_run. unfold lift.
  destruct (solution_output env) as [out|e]; [|apply Hstop].
  destruct (marker_check SPECIAL_INVALID_ENVIRONMENT InvalidEnvironment out
              (b2 ← py_in SPECIAL_INVALID_EVALUATOR out;
               if b2 : bool then
                 v ← py_getitem out SPECIAL_INVALID_EVALUATOR;
                 raise InvalidEvaluator (str v)
               else
                 b3 ← py_in SPECIAL_INVALID_SUBMISSION out;
                 if b3 : bool then
                   v ← py_getitem out SPECIAL_INVALID_SUBMISSION;
                   raise InvalidSubmission (str v)
                 else call (evaluator_score env) ;; after_score constants) s1)
    as [[e ->]| ->]; [apply Hstop|].
  destruct (marker_check SPECIAL_INVALID_EVALUATOR InvalidEvaluator out
              (b3 ← py_in SPECIAL_INVALID_SUBMISSION out;
               if b3 : bool then
                 v ← py_getitem out SPECIAL_INVALID_SUBMISSION;
                 raise InvalidSubmission (str v)
               else call (evaluator_score env) ;; after_score constants) s1)
    as [[e ->]| ->]; [apply Hstop|].
  destruct (marker_check SPECIAL_INVALID_SUBMISSION InvalidSubmission out
              (call (evaluator_score env) ;; after_score constants) s1)
    as [[e ->]| ->]; [apply Hstop|].
  rewrite score_then_after_score.
  destruct (evaluator_score env (obj s1)) as [cie2 [[]|e]].
  - destruct (decide (scores cie2 = ∅)) as [He|Hne].
    + exists evs0. split; done.
    + unfold P. cbn [fst snd trace].
      set (fs := FS_write_events (evaluation_files cie2)
                   (os_path_join (cie_root cie2)
                                 (CHALLENGE_EVALUATION_OUTPUT_DIR constants))).
      set (d := DeclareChallengeResults (cie_root cie2)
                  (mkChallengeResults SUCCESS None (rs_value <$> scores cie2))).
      exists (evs0 ++ fs ++ [d]). split; [by rewrite Htr0, <- app_assoc|].
      exists (evs0 ++ fs), (cie_root cie2), (rs_value <$> scores cie2).
      split; [by rewrite (app_assoc evs0 fs)|].
      split; [apply Forall_app; split; [done|apply FS_write_events_quiet]|].
      intros Hempty. by apply fmap_empty_inv in Hempty.
  - exists evs0. split; done.
Qed.

(** [wrap_evaluator], by the outcome of its body. *)
Lemma wrap_evaluator_return env root s1 :
  evaluator_body env (mkSt (CIE_init root) []) = (s1, Return tt) ->
  evaluator env root = (s1, Return tt).
Proof.
  intros Hbody. unfold wrap_evaluator, wrap_evaluator_proc, try_except.
  by rewrite Hbody.
Qed.

Lemma wrap_evaluator_raise env root s1 e :
  evaluator_body env (mkSt (CIE_init root) []) = (s1, Raise e) ->
  evaluator env root =
    let status :=
      if bool_decide (exn_cls e = InvalidSubmission) then FAILED else ERROR in
    let msg :=
      match exn_cls e with
      | InvalidSubmission => "InvalidSubmission:"
      | InvalidEvaluator => "InvalidEvaluator:"
      | InvalidEnvironment => "InvalidEnvironment:"
      | _ => "Unexpected exception:"
      end +:+ nl +:+ format_exc e in
    (mkSt (obj s1)
       (trace s1 ++ [DclogError ("declare " +:+ status_name status +:+ ":"
                                 +:+ nl +:+ msg);
                     DeclareChallengeResults root
                       (mkChallengeResults status (Some msg) ∅)]),
     Raise (Exn SystemExit "0")).
Proof.
  intros Hbody. unfold wrap_evaluator, wrap_evaluator_proc, try_except.
  rewrite Hbody. unfold declare.
  destruct (exn_cls e); psimpl; by rewrite <- app_assoc.
Qed.

(** X11: on every path [wrap_evaluator] declares the results exactly
    once, as the last thing it does.  When its body returns, it returns and
    what is declared is a success without message and with at least one
    score; when its body raises, it exits with [SystemExit] and what is
    declared, for the root it was given, has a message, no score, and the
    status FAILED for an [InvalidSubmission] and ERROR for every other
    exception. *)
Theorem X11_evaluator_declares_once env root :
  exists pre root' cr,
    trace (evaluator env root).1 = pre ++ [DeclareChallengeResults root' cr]
    ∧ quiet pre
    ∧ match (evaluator_body env (mkSt (CIE_init root) [])).2 with
      | Return _ =>
          (evaluator env root).2 = Return tt
          ∧ cr_status cr = SUCCESS ∧ cr_msg cr = None ∧ cr_scores cr ≠ ∅
      | Raise e =>
          (evaluator env root).2 = Raise (Exn SystemExit "0")
          ∧ root' = root ∧ is_Some (cr_msg cr) ∧ cr_scores cr = ∅
          ∧ cr_status cr =
              if bool_decide (exn_cls e = InvalidSubmission) then FAILED else ERROR
      end.
Proof.
  destruct (evaluator_body_trace env (mkSt (CIE_init root) []))
    as (evs & Htr & Hevs).
  destruct (evaluator_body env (mkSt (CIE_init root) [])) as [s1 [[]|e]] eqn:Hbody;
    cbn [fst snd trace app] in *.
  - destruct Hevs as (pre & root' & sc & -> & Hq & Hsc).
    rewrite (wrap_evaluator_return env root s1 Hbody). cbn [fst snd].
    exists pre, root', (mkChallengeResults SUCCESS None sc). done.
  - rewrite (wrap_evaluator_raise env root s1 e Hbody). cbn zeta. cbn [fst snd trace].
    eexists (evs ++ [_]), root, _. split; [by rewrite Htr, <- app_assoc|].
    split; [apply Forall_app; split; [done|by repeat constructor]|].
    cbn. eauto.
Qed.

(** The body of [wrap_evaluator] once the output of the solution is
    there. *)
Lemma evaluator_body_markers env (s0 s1 : st CIE) (out : ydict) :
  prepare_guarded constants format_exc env s0 = (s1, Return tt) ->
  solution_shows_up env = true ->
  solution_output env = Return (YDict out) ->
  evaluator_body env s0 =
    match out !! SPECIAL_INVALID_ENVIRONMENT with
    | Some v => (s1, Raise (Exn InvalidEnvironment (str v)))
    | None =>
        match out !! SPECIAL_INVALID_EVALUATOR with
        | Some v => (s1, Raise (Exn InvalidEvaluator (str v)))
        | None =>
            match out !! SPECIAL_INVALID_SUBMISSION with
            | Some v => (s1, Raise (Exn InvalidSubmission (str v)))
            | None => (call (evaluator_score env) ;; after_score constants) s1
            end
        end
    end.
Proof.
  intros Hprep Hup Hout.
  unfold wrap_evaluator_body. rewrite bind_run, Hprep, Hup.
  rewrite bind_run, try_except_run. cbn [pass mret SE_ret].
  rewrite bind_run, Hout. unfold lift.
  rewrite marker_check_dict. destruct (out !! SPECIAL_INVALID_ENVIRONMENT); [done|].
  rewrite marker_check_dict. destruct (out !! SPECIAL_INVALID_EVALUATOR); [done|].
  rewrite marker_check_dict. by destruct (out !! SPECIAL_INVALID_SUBMISSION).
Qed.

(** X12: once the preparation is through and the output of the solution
    is there, the markers in it are looked at in a fixed order: the
    environment marker wins over the evaluator marker, which wins over the
    submission marker.  With any of them the body raises in the state the
    preparation left, so that the user's [score] is not called, and
    [wrap_evaluator] declares ERROR when the environment or the evaluator
    marker is there and FAILED when only the submission marker is. *)
Theorem X12_marker_precedence env root s1 (out : ydict) :
  prepare_guarded constants format_exc env (mkSt (CIE_init root) [])
    = (s1, Return tt) ->
  solution_shows_up env = true ->
  solution_output env = Return (YDict out) ->
  evaluator_body env (mkSt (CIE_init root) []) =
    match out !! SPECIAL_INVALID_ENVIRONMENT with
    | Some v => (s1, Raise (Exn InvalidEnvironment (str v)))
    | None =>
        match out !! SPECIAL_INVALID_EVALUATOR with
        | Some v => (s1, Raise (Exn InvalidEvaluator (str v)))
        | None =>
            match out !! SPECIAL_INVALID_SUBMISSION with
            | Some v => (s1, Raise (Exn InvalidSubmission (str v)))
            | None => (call (evaluator_score env) ;; after_score constants) s1
            end
        end
    end
  ∧ (is_Some (out !! SPECIAL_INVALID_ENVIRONMENT)
     ∨ is_Some (out !! SPECIAL_INVALID_EVALUATOR)
     ∨ is_Some (out !! SPECIAL_INVALID_SUBMISSION) ->
     exists msg,
       let status :=
         if bool_decide (is_Some (out !! SPECIAL_INVALID_ENVIRONMENT)
                         ∨ is_Some (out !! SPECIAL_INVALID_EVALUATOR))
         then ERROR else FAILED in
       evaluator env root =
         (mkSt (obj s1)
            (trace s1 ++ [DclogError ("declare " +:+ status_name status +:+ ":"
                                      +:+ nl +:+ msg);
                          DeclareChallengeResults root
                            (mkChallengeResults status (Some msg) ∅)]),
          Raise (Exn SystemExit "0"))).
Proof.
  intros Hprep Hup Hout.
  pose proof (evaluator_body_markers env _ s1 out Hprep Hup Hout) as Hbody.
  split; [exact Hbody|]. intros Hany.
  destruct (out !! SPECIAL_INVALID_ENVIRONMENT) as [v1|].
  { rewrite (wrap_evaluator_raise env root s1 _ Hbody).
    rewrite (bool_decide_eq_true_2 (is_Some (Some v1) ∨ _)) by eauto.
    eexists. reflexivity. }
  destruct (out !! SPECIAL_INVALID_EVALUATOR) as [v2|].
  { rewrite (wrap_evaluator_raise env root s1 _ Hbody).
    rewrite (bool_decide_eq_true_2 (_ ∨ is_Some (Some v2))) by eauto.
    eexists. reflexivity. }
  destruct (out !! SPECIAL_INVALID_SUBMISSION) as [v3|].
  { rewrite (wrap_evaluator_raise env root s1 _ Hbody).
    rewrite (bool_decide_eq_false_2 (is_Some None ∨ is_Some None));
      [eexists; reflexivity|].
    intros [[? ?]|[? ?]]; discriminate. }
  destruct Hany as [[? ?]|[[? ?]|[? ?]]]; discriminate.
Qed.

Abbreviation solution_body := (wrap_solution_body constants format_exc str).
Abbreviation solution := (wrap_solution constants format_exc str).

(** X13: a failure of the solution side reaches the evaluator side with
    its kind.  When the body of [wrap_solution] raises and the evaluator,
    its preparation through, reads the output mapping that [wrap_solution]
    wrote, [wrap_evaluator] does not call the user's [score] and declares
    FAILED when the exception of the solution side was an
    [InvalidSubmission], and ERROR for any other exception. *)
Theorem X13_solution_failure_reaches_evaluator senv sroot ssol e eenv eroot s1 d :
  solution_body senv (mkSt (CIS_init sroot) []) = (ssol, Raise e) ->
  solution_output_dict (obj (solution senv sroot).1) = Some d ->
  prepare_guarded constants format_exc eenv (mkSt (CIE_init eroot) [])
    = (s1, Return tt) ->
  solution_shows_up eenv = true ->
  solution_output eenv = Return (YDict d) ->
  exists msg,
    let status :=
      if bool_decide (exn_cls e = InvalidSubmission) then FAILED else ERROR in
    evaluator eenv eroot =
      (mkSt (obj s1)
         (trace s1 ++ [DclogError ("declare " +:+ status_name status +:+ ":"
                                   +:+ nl +:+ msg);
                       DeclareChallengeResults eroot
                         (mkChallengeResults status (Some msg) ∅)]),
       Raise (Exn SystemExit "0")).
Proof.
  intros Hsol Hd Hprep Hup Hout.
  rewrite wrap_solution_run, Hsol in Hd. cbn in Hd. injection Hd as <-.
  pose proof (evaluator_body_markers eenv _ s1 _ Hprep Hup Hout) as Hbody.
  unfold failure_marker in Hbody.
  destruct (exn_cls e) eqn:Hcls; cbn [fst snd] in Hbody;
    match type of Hbody with
    | context [@lookup ?K ?V ?M ?I SPECIAL_INVALID_ENVIRONMENT ?m] =>
        let v := eval vm_compute in (@lookup K V M I SPECIAL_INVALID_ENVIRONMENT m) in
        change (@lookup K V M I SPECIAL_INVALID_ENVIRONMENT m) with v in Hbody
    end;
    try match type of Hbody with
    | context [@lookup ?K ?V ?M ?I SPECIAL_INVALID_EVALUATOR ?m] =>
        let v := eval vm_compute in (@lookup K V M I SPECIAL_INVALID_EVALUATOR m) in
        change (@lookup K V M I SPECIAL_INVALID_EVALUATOR m) with v in Hbody
    end;
    try match type of Hbody with
    | context [@lookup ?K ?V ?M ?I SPECIAL_INVALID_SUBMISSION ?m] =>
        let v := eval vm_compute in (@lookup K V M I SPECIAL_INVALID_SUBMISSION m) in
        change (@lookup K V M I SPECIAL_INVALID_SUBMISSION m) with v in Hbody
    end;
    cbn iota beta in Hbody;
    rewrite (wrap_evaluator_raise eenv eroot s1 _ Hbody);
    eexists; reflexivity.
Qed.

(** X14: when the preparation is through and the output of the solution
    does not show up in time, the body of [wrap_evaluator] raises
    [InvalidSubmission] in the state the preparation left: the user's
    [score] is not called, nothing is read, and what is declared is FAILED,
    not ERROR. *)
Theorem X14_evaluator_timeout env root s1 :
  prepare_guarded constants format_exc env (mkSt (CIE_init root) [])
    = (s1, Return tt) ->
  solution_shows_up env = false ->
  evaluator_body env (mkSt (CIE_init root) [])
    = (s1, Raise (Exn InvalidSubmission "Time out: Timeout while waiting"))
  ∧ exists msg,
      evaluator env root =
        (mkSt (obj s1)
           (trace s1 ++ [DclogError ("declare " +:+ status_name FAILED +:+ ":"
                                     +:+ nl +:+ msg);
                         DeclareChallengeResults root
                           (mkChallengeResults FAILED (Some msg) ∅)]),
         Raise (Exn SystemExit "0")).
Proof.
  intros Hprep Hup.
  assert (Hbody : evaluator_body env (mkSt (CIE_init root) [])
            = (s1, Raise (Exn InvalidSubmission "Time out: Timeout while waiting"))).
  { unfold wrap_evaluator_body. rewrite bind_run, Hprep, Hup.
    rewrite bind_run, try_except_run. cbn [raise].
    by rewrite bool_decide_eq_true_2. }
  split; [exact Hbody|].
  rewrite (wrap_evaluator_raise env root s1 _ Hbody). eexists. reflexivity.
Qed.

(** The body of [wrap_solution] up to the call of the user's [run]. *)
Lemma solution_body_reaches_run env (p : ydict) (s : st CIS) n m :
  environ env !! ENV_CHALLENGE_NAME constants = Some n ->
  environ env !! ENV_CHALLENGE_STEP_NAME constants = Some m ->
  preparation_shows_up env = true ->
  challenge_parameters env = Return (YDict p) ->
  p !! SPECIAL_ABORT = None ->
  solution_body env s =
    match solution_run env (obj s) with
    | (cis1, Raise e) =>
        (mkSt cis1 (trace s),
         Raise (if bool_decide (exn_cls e ∈ [InvalidSubmission; InvalidEnvironment;
                                             InvalidEvaluator])
                then e
                else Exn InvalidSubmission
                       ("Uncaught exception in solution:" +:+ nl +:+ format_exc e)))
    | (cis1, Return _) =>
        if failure_declared cis1
        then (mkSt cis1 (trace s),
              Raise (Exn InvalidSubmission
                       ("Submission declares failure:" +:+ nl
                        +:+ str (failure_declared_msg cis1))))
        else match solution_output_dict cis1 with
             | None =>
                 (mkSt cis1 (trace s),
                  Raise (Exn InvalidSubmission
                           "solution_output_dict not set. Solution must use set_solution_output_dict({})."))
             | Some _ => (mkSt cis1 (trace s), Return tt)
             end
    end.
Proof.
  intros Hn Hm Hup Hparams Habort. unfold wrap_solution_body.
  unfold environ_get. rewrite Hn, Hm, Hup, Hparams. psimpl.
  unfold py_in. psimpl.
  rewrite bool_decide_eq_false_2 by (rewrite Habort; by intros [? ?]). psimpl.
  unfold call. destruct (solution_run env (obj s)) as [cis1 [[]|e]].
  - psimpl. destruct (failure_declared cis1); psimpl; [done|].
    by destruct (solution_output_dict cis1).
  - psimpl. by case_bool_decide.
Qed.

(** X15: how [wrap_solution] attributes what the user's [run] does, once
    the environment variables are there and the parameters are read without
    the abort key.  An exception of [run] is written under the
    invalid-environment or the invalid-evaluator key when it is an
    [InvalidEnvironment] or an [InvalidEvaluator], and under the
    invalid-submission key in every other case; a [run] that returns after
    declaring a failure, or without setting the output mapping, is written
    as an invalid submission too; otherwise the mapping that [run] set is
    written as it is. *)
Theorem X15_run_attribution env root (p : ydict) n m :
  environ env !! ENV_CHALLENGE_NAME constants = Some n ->
  environ env !! ENV_CHALLENGE_STEP_NAME constants = Some m ->
  preparation_shows_up env = true ->
  challenge_parameters env = Return (YDict p) ->
  p !! SPECIAL_ABORT = None ->
  match solution_run env (CIS_init root) with
  | (cis1, Raise e) =>
      exists msg,
        solution_output_dict (obj (solution env root).1) =
          Some {[ match exn_cls e with
                  | InvalidEnvironment => SPECIAL_INVALID_ENVIRONMENT
                  | InvalidEvaluator => SPECIAL_INVALID_EVALUATOR
                  | _ => SPECIAL_INVALID_SUBMISSION
                  end := YStr msg ]}
  | (cis1, Return _) =>
      if failure_declared cis1
      then exists msg,
             solution_output_dict (obj (solution env root).1) =
               Some {[ SPECIAL_INVALID_SUBMISSION := YStr msg ]}
      else match solution_output_dict cis1 with
           | None =>
               exists msg,
                 solution_output_dict (obj (solution env root).1) =
                   Some {[ SPECIAL_INVALID_SUBMISSION := YStr msg ]}
           | Some d => solution_output_dict (obj (solution env root).1) = Some d
           end
  end.
Proof.
  intros Hn Hm Hup Hparams Habort.
  rewrite wrap_solution_run. cbn zeta.
  rewrite (solution_body_reaches_run env p _ n m Hn Hm Hup Hparams Habort).
  cbn [obj]. destruct (solution_run env (CIS_init root)) as [cis1 [[]|e]].
  - destruct (failure_declared cis1); [cbn; eauto|].
    destruct (solution_output_dict cis1) as [d|] eqn:Hd; cbn; [done|eauto].
  - cbn [snd fst obj solution_output_dict]. unfold failure_marker.
    case_bool_decide as Hcls.
    + repeat (apply elem_of_cons in Hcls as [Hc|Hcls]);
        [rewrite Hc; eexists; reflexivity..|by apply elem_of_nil in Hcls].
    + cbn [exn_cls fst snd].
      destruct (exn_cls e) eqn:He;
        first [ exfalso; apply Hcls; by repeat constructor
              | eexists; reflexivity ].
Qed.

(** X16: the user's [run] is not called when an environment variable is
    missing, when the parameters of the evaluator do not show up in time,
    when reading them raises, or when they carry the abort key: in each of
    these cases what [wrap_solution] does is the same for every [run]. *)
Theorem X16_run_not_invoked (vars : gmap string string) shows params run run' root :
  vars !! ENV_CHALLENGE_NAME constants = None
  ∨ vars !! ENV_CHALLENGE_STEP_NAME constants = None
  ∨ shows = false
  ∨ is_return params = false
  ∨ (exists p : ydict, params = Return (YDict p) ∧ is_Some (p !! SPECIAL_ABORT)) ->
  solution (mkSolutionEnv vars shows params run) root
  = solution (mkSolutionEnv vars shows params run') root.
Proof.
  intros Hearly.
  assert (Hbody : forall s,
            solution_body (mkSolutionEnv vars shows params run) s
            = solution_body (mkSolutionEnv vars shows params run') s).
  { intros s. unfold wrap_solution_body, environ_get.
    cbn [environ preparation_shows_up challenge_parameters solution_run].
    destruct (vars !! ENV_CHALLENGE_NAME constants) as [n|]; [|reflexivity].
    destruct (vars !! ENV_CHALLENGE_STEP_NAME constants) as [m|]; [|reflexivity].
    destruct shows; [|reflexivity].
    destruct params as [v|e]; [|reflexivity].
    destruct Hearly as [?|[?|[?|[?|(p & [= ->] & [why Hwhy])]]]]; try discriminate.
    psimpl. unfold py_in, py_getitem. psimpl.
    rewrite bool_decide_eq_true_2 by eauto. psimpl. rewrite Hwhy. by psimpl. }
  unfold wrap_solution, wrap_solution_proc, try_finally, try_except.
  by rewrite Hbody.
Qed.

(** X17: when the user's [prepare] returns without having set the
    challenge parameters, nothing is written: neither the challenge files
    that [prepare] registered nor a parameters file, for which the solution
    side is waiting; [wrap_evaluator] declares ERROR and exits. *)
Theorem X17_parameters_required env root cie1 :
  evaluator_prepare env (CIE_init root) = (cie1, Return tt) ->
  parameters cie1 = None ->
  exists msg,
    evaluator env root =
      (mkSt cie1
         [DclogError ("declare " +:+ status_name ERROR +:+ ":" +:+ nl +:+ msg);
          DeclareChallengeResults root (mkChallengeResults ERROR (Some msg) ∅)],
       Raise (Exn SystemExit "0")).
Proof.
  intros Hprep Hparams.
  pose proof (prepare_guarded_return env (mkSt (CIE_init root) []) cie1 Hprep)
    as Hguard.
  rewrite Hparams in Hguard. cbn [trace] in Hguard.
  erewrite wrap_evaluator_raise.
  2: { unfold wrap_evaluator_body. rewrite bind_run, Hguard. reflexivity. }
  eexists. reflexivity.
Qed.

(** X18: [set_score] only adds.  Whatever it is given, the scores
    already recorded stay as they are and nothing is logged or written;
    when it raises, the interface object is as before; when it returns, the
    name was not known and is now bound to the value given. *)
Theorem X18_scores_only_grow name value description (s : st CIE) :
  (forall n rs, scores (obj s) !! n = Some rs ->
     scores (obj (set_score name value description s).1) !! n = Some rs)
  ∧ trace (set_score name value description s).1 = trace s
  ∧ (is_return (set_score name value description s).2 = false ->
     (set_score name value description s).1 = s)
  ∧ (is_return (set_score name value description s).2 = true ->
     scores (obj s) !! name = None
     ∧ obj (set_score name value description s).1 =
         mkCIE (cie_root (obj s)) (challenge_files (obj s)) (parameters (obj s))
               (evaluation_files (obj s))
               (<[name := mkReportedScore name value description]>
                  (scores (obj s)))).
Proof.
  unfold set_score. rewrite bind_run.
  assert (Hrest :
    let r := (cie ← get_obj;
              if bool_decide (is_Some (scores cie !! name))
              then raise InvalidEvaluator "Already know score"
              else set_obj (mkCIE (cie_root cie) (challenge_files cie)
                              (parameters cie) (evaluation_files cie)
                              (<[name := mkReportedScore name value description]>
                                 (scores cie)))) s in
    (forall n rs, scores (obj s) !! n = Some rs -> scores (obj r.1) !! n = Some rs)
    ∧ trace r.1 = trace s
    ∧ (is_return r.2 = false -> r.1 = s)
    ∧ (is_return r.2 = true ->
       scores (obj s) !! name = None
       ∧ obj r.1 =
           mkCIE (cie_root (obj s)) (challenge_files (obj s)) (parameters (obj s))
                 (evaluation_files (obj s))
                 (<[name := mkReportedScore name value description]>
                    (scores (obj s))))).
  { cbn zeta. psimpl. case_bool_decide as Hknown; psimpl.
    - repeat split; done.
    - assert (Hfresh : scores (obj s) !! name = None).
      { destruct (scores (obj s) !! name) eqn:Hn; [|done]. destruct Hknown. eauto. }
      cbn [scores]. repeat split; try done.
      intros n rs Hn. rewrite lookup_insert_ne; [done|]. congruence. }
  destruct value as [f|y].
  - destruct (isnan f || isinf f); psimpl; [repeat split; done|exact Hrest].
  - psimpl. exact Hrest.
Qed.

End HandshakeOutcomes.

(** *** At sample inputs *)

Import Interface.

Lemma X12_marker_precedence_witness :
  (wrap_evaluator_body spec_layout sample_format_exc sample_str
     (sample_evaluator true
        (Return (YDict {[ "invalid-submission" := YStr "crashed";
                          "invalid-evaluator" := YStr "aborted" ]})))
     (mkSt (CIE_init "/") [])).2
  = Raise (Exn InvalidEvaluator "aborted")
  ∧ exists msg,
      (wrap_evaluator spec_layout sample_format_exc sample_str sample_status_name
         (sample_evaluator true
            (Return (YDict {[ "invalid-submission" := YStr "crashed";
                              "invalid-evaluator" := YStr "aborted" ]})))
         "/").1.(trace)
      = [WriteYaml (Some {[ "map" := YStr "loop" ]})
           "/challenge-description/challenge_description.yaml";
         DclogError ("declare error:" +:+ nl +:+ msg);
         DeclareChallengeResults "/" (mkChallengeResults ERROR (Some msg) ∅)].
Proof.
  destruct (X12_marker_precedence spec_layout sample_format_exc sample_str
              sample_status_name
              (sample_evaluator true
                 (Return (YDict {[ "invalid-submission" := YStr "crashed";
                                   "invalid-evaluator" := YStr "aborted" ]})))
              "/"
              (mkSt (mkCIE "/" ∅ (Some {[ "map" := YStr "loop" ]}) ∅ ∅)
                 [WriteYaml (Some {[ "map" := YStr "loop" ]})
                    "/challenge-description/challenge_description.yaml"])
              {[ "invalid-submission" := YStr "crashed";
                 "invalid-evaluator" := YStr "aborted" ]})
    as [Hbody Hrun].
  - vm_compute. reflexivity.
  - reflexivity.
  - reflexivity.
  - split; [rewrite Hbody; vm_compute; reflexivity|].
    destruct Hrun as [msg Hrun]; [vm_compute; eauto|].
    exists msg. rewrite Hrun. reflexivity.
Defined.

Lemma X13_solution_failure_reaches_evaluator_witness :
  exists msg,
    wrap_evaluator spec_layout sample_format_exc sample_str sample_status_name
      (sample_evaluator true
         (Return (YDict {[ "invalid-submission" :=
                             YStr ("Invalid solution:" +:+ nl
                                   +:+ "Uncaught exception in solution:" +:+ nl
                                   +:+ "ZeroDivisionError") ]})))
      "/"
    = (mkSt (mkCIE "/" ∅ (Some {[ "map" := YStr "loop" ]}) ∅ ∅)
         [WriteYaml (Some {[ "map" := YStr "loop" ]})
            "/challenge-description/challenge_description.yaml";
          DclogError ("declare failed:" +:+ nl +:+ msg);
          DeclareChallengeResults "/" (mkChallengeResults FAILED (Some msg) ∅)],
       Raise (Exn SystemExit "0")).
Proof.
  destruct (X13_solution_failure_reaches_evaluator spec_layout sample_format_exc
              sample_str sample_status_name
              (mkSolutionEnv sample_environ true (Return (YDict ∅)) crashing_solution)
              "/"
              (wrap_solution_body spec_layout sample_format_exc sample_str
                 (mkSolutionEnv sample_environ true (Return (YDict ∅))
                                crashing_solution)
                 (mkSt (CIS_init "/") [])).1
              (Exn InvalidSubmission
                 ("Uncaught exception in solution:" +:+ nl +:+ "ZeroDivisionError"))
              (sample_evaluator true
                 (Return (YDict {[ "invalid-submission" :=
                                     YStr ("Invalid solution:" +:+ nl
                                           +:+ "Uncaught exception in solution:"
                                           +:+ nl +:+ "ZeroDivisionError") ]})))
              "/"
              (mkSt (mkCIE "/" ∅ (Some {[ "map" := YStr "loop" ]}) ∅ ∅)
                 [WriteYaml (Some {[ "map" := YStr "loop" ]})
                    "/challenge-description/challenge_description.yaml"])
              {[ "invalid-submission" :=
                   YStr ("Invalid solution:" +:+ nl
                         +:+ "Uncaught exception in solution:" +:+ nl
                         +:+ "ZeroDivisionError") ]})
    as [msg Hrun].
  - vm_compute. reflexivity.
  - vm_compute. reflexivity.
  - vm_compute. reflexivity.
  - reflexivity.
  - reflexivity.
  - exists msg. rewrite Hrun. reflexivity.
Defined.

Lemma X14_evaluator_timeout_witness :
  wrap_evaluator_body spec_layout sample_format_exc sample_str
    (sample_evaluator false (Return YNull)) (mkSt (CIE_init "/") [])
  = (mkSt (mkCIE "/" ∅ (Some {[ "map" := YStr "loop" ]}) ∅ ∅)
       [WriteYaml (Some {[ "map" := YStr "loop" ]})
          "/challenge-description/challenge_description.yaml"],
     Raise (Exn InvalidSubmission "Time out: Timeout while waiting"))
  ∧ exists msg,
      wrap_evaluator spec_layout sample_format_exc sample_str sample_status_name
        (sample_evaluator false (Return YNull)) "/"
      = (mkSt (mkCIE "/" ∅ (Some {[ "map" := YStr "loop" ]}) ∅ ∅)
           ([WriteYaml (Some {[ "map" := YStr "loop" ]})
               "/challenge-description/challenge_description.yaml"]
            ++ [DclogError ("declare " +:+ sample_status_name FAILED +:+ ":"
                            +:+ nl +:+ msg);
                DeclareChallengeResults "/"
                  (mkChallengeResults FAILED (Some msg) ∅)]),
         Raise (Exn SystemExit "0")).
Proof.
  apply (X14_evaluator_timeout spec_layout sample_format_exc sample_str
           sample_status_name (sample_evaluator false (Return YNull)) "/"
           (mkSt (mkCIE "/" ∅ (Some {[ "map" := YStr "loop" ]}) ∅ ∅)
              [WriteYaml (Some {[ "map" := YStr "loop" ]})
                 "/challenge-description/challenge_description.yaml"])).
  - vm_compute. reflexivity.
  - reflexivity.
Defined.

Lemma X15_run_attribution_witness :
  exists msg,
    solution_output_dict
      (obj (wrap_solution spec_layout sample_format_exc sample_str
              (mkSolutionEnv sample_environ true (Return (YDict ∅)) clumsy_run)
              "/").1)
    = Some {[ "invalid-submission" := YStr msg ]}.
Proof.
  pose proof (X15_run_attribution spec_layout sample_format_exc sample_str
                (mkSolutionEnv sample_environ true (Return (YDict ∅)) clumsy_run)
                "/" ∅ "demo" "s1") as H.
  cbn [solution_run] in H.
  change (clumsy_run (CIS_init "/")) with
    (mkCIS "/" {[ "log.txt" := mkChallengeFile "log.txt" (FromData "one") YNull ]}
           None false (YInt 0),
     @Raise unit (Exn InvalidSubmission "Invalid set_solution_output_file()")) in H.
  cbn iota beta in H. apply H.
  - vm_compute. reflexivity.
  - vm_compute. reflexivity.
  - reflexivity.
  - reflexivity.
  - reflexivity.
Defined.

Lemma X16_run_not_invoked_witness :
  wrap_solution spec_layout sample_format_exc sample_str
    (mkSolutionEnv sample_environ false (Return (YDict ∅)) sample_run) "/"
  = wrap_solution spec_layout sample_format_exc sample_str
      (mkSolutionEnv sample_environ false (Return (YDict ∅)) crashing_solution) "/".
Proof.
  apply (X16_run_not_invoked spec_layout sample_format_exc sample_str
           sample_environ false (Return (YDict ∅)) sample_run crashing_solution "/").
  right. right. left. reflexivity.
Defined.

Lemma X17_parameters_required_witness :
  exists msg,
    wrap_evaluator spec_layout sample_format_exc sample_str sample_status_name
      (mkEvaluatorEnv
         (as_user (set_challenge_file (fun _ => true) "map.yaml" "/data/map.yaml" YNull))
         true (Return YNull) sample_score) "/"
    = (mkSt (mkCIE "/"
               {[ "map.yaml" := mkChallengeFile "map.yaml" (FromFile "/data/map.yaml")
                                  YNull ]}
               None ∅ ∅)
         [DclogError ("declare " +:+ sample_status_name ERROR +:+ ":" +:+ nl +:+ msg);
          DeclareChallengeResults "/" (mkChallengeResults ERROR (Some msg) ∅)],
       Raise (Exn SystemExit "0")).
Proof.
  apply (X17_parameters_required spec_layout sample_format_exc sample_str
           sample_status_name).
  - vm_compute. reflexivity.
  - reflexivity.
Defined.

(** ** The methods of the interfaces *)

Section InterfaceFacts.

Context (constants : ConstantsT) (format_exc : exn -> string)
        (status_name : ChallengeResultsStatus -> string).


(** X20: a basename is registered once.  On the solution side, adding an
    output file under a basename that is already there raises
    [InvalidSubmission] and leaves the interface object as it is, whether
    the new file comes from data or from a path, and so does adding a file
    from a path that does not exist; on the evaluator side the same
    mistakes raise [InvalidEvaluator].  Under a basename that is not there
    yet, data is registered and the files already registered are kept. *)
Theorem X20_basename_registered_once path_exists basename :
  (forall (s : st CIS) c f d,
     is_Some (solution_output_files (obj s) !! basename) ∨ path_exists f = false ->
     set_solution_output_file path_exists basename f d s
       = (s, Raise (Exn InvalidSubmission "Invalid set_solution_output_file()"))
     ∧ (is_Some (solution_output_files (obj s) !! basename) ->
        set_solution_output_file_from_data basename c d s
          = (s, Raise (Exn InvalidSubmission "Invalid set_solution_output_file()"))))
  ∧ (forall (s : st CIE) c f d,
       (is_Some (challenge_files (obj s) !! basename) ∨ path_exists f = false ->
        set_challenge_file path_exists basename f d s
          = (s, Raise (Exn InvalidEvaluator "Invalid set_challenge_file()")))
       ∧ (is_Some (evaluation_files (obj s) !! basename) ∨ path_exists f = false ->
          set_evaluation_file path_exists basename f d s
            = (s, Raise (Exn InvalidEvaluator "Invalid set_evaluation_file()")))
       ∧ (is_Some (evaluation_files (obj s) !! basename) ->
          set_evaluation_file_from_data basename c d s
            = (s, Raise (Exn InvalidEvaluator
                           "Invalid set_evaluation_file_from_data()"))))
  ∧ (forall (s : st CIS) c d,
       solution_output_files (obj s) !! basename = None ->
       set_solution_output_file_from_data basename c d s
         = (mkSt (with_solution_output_files (obj s)
                    (<[basename := mkChallengeFile basename (FromData c) d]>
                       (solution_output_files (obj s))))
                 (trace s), Return tt)).
Proof.
  assert (Hadd : forall (files : FS) f d,
            is_Some (files !! basename) ∨ path_exists f = false ->
            exists msg, FS_add path_exists files basename f d
                        = Raise (Exn ValueError msg)).
  { intros files f d [Hk|Hf]; unfold FS_add.
    - destruct (path_exists f); cbn; [|eauto].
      rewrite bool_decide_eq_true_2 by done. eauto.
    - rewrite Hf. cbn. eauto. }
  assert (Hdata : forall (files : FS) c d,
            is_Some (files !! basename) ->
            FS_add_from_data files basename c d
            = Raise (Exn ValueError "Already know")).
  { intros files c d Hk. unfold FS_add_from_data.
    by rewrite bool_decide_eq_true_2. }
  split; [|split].
  - intros s c f d Hbad. split.
    + unfold set_solution_output_file. psimpl.
      destruct (Hadd (solution_output_files (obj s)) f d Hbad) as [msg ->].
      cbn. by destruct s.
    + intros Hk. unfold set_solution_output_file_from_data. psimpl.
      rewrite Hdata by done. cbn. by destruct s.
  - intros s c f d. split; [|split].
    + intros Hbad. unfold set_challenge_file. psimpl.
      destruct (Hadd (challenge_files (obj s)) f d Hbad) as [msg ->].
      cbn. by destruct s.
    + intros Hbad. unfold set_evaluation_file. psimpl.
      destruct (Hadd (evaluation_files (obj s)) f d Hbad) as [msg ->].
      cbn. by destruct s.
    + intros Hk. unfold set_evaluation_file_from_data. psimpl.
      rewrite Hdata by done. cbn. by destruct s.
  - intros s c d Hfresh. unfold set_solution_output_file_from_data. psimpl.
    unfold FS_add_from_data.
    rewrite bool_decide_eq_false_2 by (rewrite Hfresh; by intros [? ?]).
    reflexivity.
Qed.

End InterfaceFacts.

(** ** The artefacts of previous steps: the cache *)

Section CacheFacts.

Context (aws_config : option (gmap string string))
        (s3 : gmap (string * string) string).

(** A digest that is in the cache is served from the cache. *)
Lemma download_artefact_hit step_dir rpath data content (w : Runner.world) :
  Runner.cache w !! Runner.sha256hex data = Some content ->
  Runner.download_artefact aws_config s3 step_dir rpath data w =
    (Runner.mkWorld
       (<[os_path_join step_dir rpath := content]> (Runner.files w))
       (Runner.cache w)
       (Runner.elog w ++ [Runner.LogData data;
                          Runner.LogCache (Runner.size data) rpath]),
     Return tt).
Proof.
  intros Hhit.
  unfold Runner.download_artefact, Runner.try_except_KeyError,
    Runner.get_file_from_cache.
  rsimpl. rewrite Hhit. rsimpl. by rewrite <- app_assoc.
Qed.

(** What a miss without a way to download does. *)
Lemma download_artefact_no_way step_dir rpath data (w : Runner.world) :
  Runner.cache w !! Runner.sha256hex data = None ->
  Runner.storage data !! "s3" = None
  ∨ Runner.aws_configured aws_config = false ->
  exists msg,
    Runner.download_artefact aws_config s3 step_dir rpath data w =
      (Runner.mkWorld (Runner.files w) (Runner.cache w)
         (Runner.elog w ++ [Runner.LogData data]),
       Raise (Exn CouldNotDownloadAll msg)).
Proof.
  intros Hmiss Hno.
  unfold Runner.download_artefact, Runner.try_except_KeyError,
    Runner.get_file_from_cache.
  rsimpl. rewrite Hmiss. rsimpl. rewrite bool_decide_eq_true_2 by done.
  destruct (Runner.storage data !! "s3") as [ob|] eqn:Hs3.
  - destruct Hno as [?|Hno]; [done|]. rewrite Hno. cbn [negb]. rsimpl. eauto.
  - rsimpl. eauto.
Qed.

(** X21: an artefact whose digest is in the local cache is served from
    the cache: the cached content is copied to the step directory, whatever
    its length and the declared size are, and neither the AWS configuration
    nor the buckets are looked at. *)
Theorem X21_cache_hit_is_trusted step_dir rpath data content (w : Runner.world) :
  Runner.cache w !! Runner.sha256hex data = Some content ->
  Runner.download_artefact aws_config s3 step_dir rpath data w =
    (Runner.mkWorld
       (<[os_path_join step_dir rpath := content]> (Runner.files w))
       (Runner.cache w)
       (Runner.elog w ++ [Runner.LogData data;
                          Runner.LogCache (Runner.size data) rpath]),
     Return tt)
  ∧ forall aws_config' s3',
      Runner.download_artefact aws_config' s3' step_dir rpath data w
      = Runner.download_artefact aws_config s3 step_dir rpath data w.
Proof.
  intros Hhit. split; [by apply download_artefact_hit|].
  intros aws_config' s3'.
  unfold Runner.download_artefact, Runner.try_except_KeyError,
    Runner.get_file_from_cache.
  rsimpl. rewrite Hhit. by rsimpl.
Qed.

(** X22: an artefact that is not in the local cache and that has no s3
    storage, or for which no AWS configuration was given, makes the
    download raise [CouldNotDownloadAll]; the files and the cache are as
    before, and the buckets are not looked at. *)
Theorem X22_no_way_to_download step_dir rpath data (w : Runner.world) :
  Runner.cache w !! Runner.sha256hex data = None ->
  Runner.storage data !! "s3" = None
  ∨ Runner.aws_configured aws_config = false ->
  (exists msg,
     Runner.download_artefact aws_config s3 step_dir rpath data w =
       (Runner.mkWorld (Runner.files w) (Runner.cache w)
          (Runner.elog w ++ [Runner.LogData data]),
        Raise (Exn CouldNotDownloadAll msg)))
  ∧ forall s3',
      Runner.download_artefact aws_config s3' step_dir rpath data w
      = Runner.download_artefact aws_config s3 step_dir rpath data w.
Proof.
  intros Hmiss Hno. split; [by apply download_artefact_no_way|].
  intros s3'.
  unfold Runner.download_artefact, Runner.try_except_KeyError,
    Runner.get_file_from_cache.
  rsimpl. rewrite Hmiss. rsimpl. rewrite !bool_decide_eq_true_2 by done.
  destruct (Runner.storage data !! "s3") as [ob|] eqn:Hs3.
  - destruct Hno as [?|Hno]; [done|]. rewrite Hno. cbn [negb]. by rsimpl.
  - by rsimpl.
Qed.

(** One download only adds to the cache. *)
Lemma download_artefact_cache_mono step_dir rpath data (w : Runner.world) :
  Runner.cache w
  ⊆ Runner.cache (Runner.download_artefact aws_config s3 step_dir rpath data w).1.
Proof.
  destruct (Runner.cache w !! Runner.sha256hex data) as [content|] eqn:Hc.
  { by rewrite (download_artefact_hit _ _ _ content). }
  unfold Runner.download_artefact, Runner.try_except_KeyError,
    Runner.get_file_from_cache, Runner.get_object, Runner.copy_to_cache,
    Runner.st_size.
  rsimpl. rewrite Hc. rsimpl. rewrite bool_decide_eq_true_2 by done.
  destruct (Runner.storage data !! "s3") as [ob|]; [|by rsimpl].
  destruct (Runner.aws_configured aws_config); cbn [negb]; rsimpl; [|done].
  destruct (aws_config ≫= _) as [k1|]; rsimpl; [|done].
  destruct (aws_config ≫= _) as [k2|]; rsimpl; [|done].
  destruct (s3 !! _) as [content|]; rsimpl; [|done].
  rewrite lookup_insert_eq, Hc. rsimpl. rewrite lookup_insert_eq. rsimpl.
  case_bool_decide; rsimpl; by apply insert_subseteq.
Qed.

Lemma for_each_preserves {S A} (R : S -> S -> Prop)
    (l : list A) (body : A -> SE S unit) :
  (forall s, R s s) -> (forall s1 s2 s3, R s1 s2 -> R s2 s3 -> R s1 s3) ->
  (forall a s, R s (body a s).1) -> forall s, R s (for_each l body s).1.
Proof.
  intros Hrefl Htrans Hbody. induction l as [|a l IH]; intros s; cbn [for_each].
  - apply Hrefl.
  - rewrite bind_run. pose proof (Hbody a s) as Ha.
    destruct (body a s) as [s1 [[]|e]]; cbn [fst] in *; [|done].
    eapply Htrans; [exact Ha|apply IH].
Qed.

(** X23: the download of the artefacts of the previous steps only adds
    to the local cache: whether it returns or raises, every digest that was
    in the cache is still there with the same content. *)
Theorem X23_cache_only_grows steps2artefacts wd (w : Runner.world) :
  Runner.cache w
  ⊆ Runner.cache (Runner.download_artefacts aws_config s3 steps2artefacts wd w).1.
Proof.
  unfold Runner.download_artefacts.
  apply (for_each_preserves (fun w1 w2 => Runner.cache w1 ⊆ Runner.cache w2));
    [done|intros ? ? ? ? ?; by etrans|].
  intros [step_name artefacts] w1.
  apply (for_each_preserves (fun w1 w2 => Runner.cache w1 ⊆ Runner.cache w2));
    [done|intros ? ? ? ? ?; by etrans|].
  intros [rpath data] w2. apply download_artefact_cache_mono.
Qed.

End CacheFacts.

Section DownloadOnce.

Context (aws_config : option (gmap string string))
        (s3 : gmap (string * string) string).

(** X24: an artefact that is not in the local cache, whose object the
    bucket serves with the declared size, is downloaded to the step
    directory and put in the cache under its digest; from then on every
    download of this artefact returns with the same content, without AWS
    configuration and without the bucket. *)
Theorem X24_downloaded_once step_dir rpath data ob keys content
    (w : Runner.world) :
  Runner.cache w !! Runner.sha256hex data = None ->
  Runner.storage data !! "s3" = Some ob ->
  aws_config = Some keys ->
  is_Some (keys !! "aws_access_key_id") ->
  is_Some (keys !! "aws_secret_access_key") ->
  s3 !! (Runner.bucket_name ob, Runner.object_key ob) = Some content ->
  Z.of_nat (String.length content) = Runner.size data ->
  Runner.download_artefact aws_config s3 step_dir rpath data w =
    (Runner.mkWorld
       (<[os_path_join step_dir rpath := content]> (Runner.files w))
       (<[Runner.sha256hex data := content]> (Runner.cache w))
       (Runner.elog w ++ [Runner.LogData data;
                          Runner.LogAWS (Runner.size data) rpath]),
     Return tt)
  ∧ forall aws_config' s3' step_dir' rpath',
      exists w'',
        Runner.download_artefact aws_config' s3' step_dir' rpath' data
          (Runner.download_artefact aws_config s3 step_dir rpath data w).1
        = (w'', Return tt)
        ∧ Runner.files w'' !! os_path_join step_dir' rpath' = Some content
        ∧ Runner.cache w'' = <[Runner.sha256hex data := content]> (Runner.cache w).
Proof.
  intros Hmiss Hs3 Hcfg [k1 Hk1] [k2 Hk2] Hobj Hsize.
  assert (Hconf : Runner.aws_configured aws_config = true).
  { unfold Runner.aws_configured. rewrite Hcfg.
    apply negb_true_iff, bool_decide_eq_false_2. intros ->.
    by rewrite lookup_empty in Hk1. }
  assert (Hrun : Runner.download_artefact aws_config s3 step_dir rpath data w =
    (Runner.mkWorld
       (<[os_path_join step_dir rpath := content]> (Runner.files w))
       (<[Runner.sha256hex data := content]> (Runner.cache w))
       (Runner.elog w ++ [Runner.LogData data;
                          Runner.LogAWS (Runner.size data) rpath]),
     Return tt)).
  { unfold Runner.download_artefact, Runner.try_except_KeyError,
      Runner.get_file_from_cache, Runner.get_object, Runner.copy_to_cache,
      Runner.st_size.
    rsimpl. rewrite Hmiss. rsimpl.
    rewrite bool_decide_eq_true_2 by done.
    rewrite Hs3, Hconf. cbn [negb]. rsimpl.
    rewrite Hcfg. rsimpl. rewrite Hk1, Hk2, Hobj. rsimpl.
    rewrite lookup_insert_eq, Hmiss. rsimpl.
    rewrite lookup_insert_eq. rsimpl.
    rewrite bool_decide_eq_false_2 by (intros Hne; by apply Hne).
    rsimpl. by rewrite <- app_assoc. }
  split; [exact Hrun|]. intros aws_config' s3' step_dir' rpath'.
  rewrite Hrun. cbn [fst].
  erewrite download_artefact_hit by (cbn; apply lookup_insert_eq).
  eexists. split; [reflexivity|]. cbn. split; [apply lookup_insert_eq|done].
Qed.

End DownloadOnce.

(** *** At sample inputs *)

Lemma X21_cache_hit_is_trusted_witness :
  Runner.download_artefact None ∅ "/wd/step1" "output.txt" Runner.sample_artefact
    (Runner.mkWorld ∅ {[ "abc" := "corrupt" ]} [])
  = (Runner.mkWorld {[ "/wd/step1/output.txt" := "corrupt" ]}
       {[ "abc" := "corrupt" ]}
       [Runner.LogData Runner.sample_artefact; Runner.LogCache 100 "output.txt"],
     Return tt)
  ∧ forall aws_config' s3',
      Runner.download_artefact aws_config' s3' "/wd/step1" "output.txt"
        Runner.sample_artefact (Runner.mkWorld ∅ {[ "abc" := "corrupt" ]} [])
      = Runner.download_artefact None ∅ "/wd/step1" "output.txt"
          Runner.sample_artefact (Runner.mkWorld ∅ {[ "abc" := "corrupt" ]} []).
Proof.
  destruct (X21_cache_hit_is_trusted None ∅ "/wd/step1" "output.txt"
              Runner.sample_artefact "corrupt"
              (Runner.mkWorld ∅ {[ "abc" := "corrupt" ]} [])) as [Hrun Hsame].
  - vm_compute. reflexivity.
  - split; [rewrite Hrun; vm_compute; reflexivity|exact Hsame].
Defined.

Lemma X22_no_way_to_download_witness :
  (exists msg,
     Runner.download_artefact None Runner.sample_s3 "/wd/step1" "output.txt"
       Runner.sample_artefact Runner.empty_world
     = (Runner.mkWorld ∅ ∅ [Runner.LogData Runner.sample_artefact],
        Raise (Exn CouldNotDownloadAll msg)))
  ∧ forall s3',
      Runner.download_artefact None s3' "/wd/step1" "output.txt"
        Runner.sample_artefact Runner.empty_world
      = Runner.download_artefact None Runner.sample_s3 "/wd/step1" "output.txt"
          Runner.sample_artefact Runner.empty_world.
Proof.
  destruct (X22_no_way_to_download None Runner.sample_s3 "/wd/step1" "output.txt"
              Runner.sample_artefact Runner.empty_world) as [[msg Hrun] Hsame].
  - vm_compute. reflexivity.
  - right. reflexivity.
  - split; [exists msg; rewrite Hrun; vm_compute; reflexivity|exact Hsame].
Defined.

Lemma X24_downloaded_once_witness :
  Runner.download_artefact Runner.sample_aws_config Runner.sample_s3
    "/wd/step1" "output.txt"
    (Runner.mkArtefact "abc" 7
       {[ "s3" := Runner.mkS3Object "bucket" "root/sha256/abc" ]})
    Runner.empty_world
  = (Runner.mkWorld {[ "/wd/step1/output.txt" := "corrupt" ]}
       {[ "abc" := "corrupt" ]}
       [Runner.LogData
          (Runner.mkArtefact "abc" 7
             {[ "s3" := Runner.mkS3Object "bucket" "root/sha256/abc" ]});
        Runner.LogAWS 7 "output.txt"],
     Return tt).
Proof.
  destruct (X24_downloaded_once Runner.sample_aws_config Runner.sample_s3
              "/wd/step1" "output.txt"
              (Runner.mkArtefact "abc" 7
                 {[ "s3" := Runner.mkS3Object "bucket" "root/sha256/abc" ]})
              (Runner.mkS3Object "bucket" "root/sha256/abc")
              {[ "aws_access_key_id" := "id"; "aws_secret_access_key" := "secret";
                 "bucket_name" := "bucket" ]}
              "corrupt" Runner.empty_world) as [Hrun _].
  - reflexivity.
  - vm_compute. reflexivity.
  - reflexivity.
  - vm_compute. eauto.
  - vm_compute. eauto.
  - vm_compute. reflexivity.
  - vm_compute. reflexivity.
  - rewrite Hrun. vm_compute. reflexivity.
Defined.

(** ** The report of a job *)

(** X25: the report of a job is attempted at most six times.  The loop
    stops at the first attempt that goes through; each attempt that fails
    is followed by a warning, by the announcement of the number of attempts
    left, which is five after the first failure and zero after the sixth,
    and by a pause; after the sixth failure the loop ends without raising,
    and the report is dropped. *)
Theorem X25_report_bounded (fuel : nat) (dtserver_report_job : nat -> bool) :
  (7 <= fuel)%nat ->
  exists m : nat,
    (m <= 6)%nat
    ∧ (forall k, (k < m)%nat -> dtserver_report_job k = false)
    ∧ ((m < 6)%nat -> dtserver_report_job m = true)
    ∧ Job.report fuel dtserver_report_job =
        Some (flat_map (fun k => [Job.Report_job k; Job.Warning_could_not_report;
                                  Job.Info_retrying (5 - Z.of_nat k) 10;
                                  Job.Sleep 10])
                       (seq 0 m)
              ++ if bool_decide (m < 6)%nat then [Job.Report_job m] else []).
Proof.
  intros Hfuel. do 7 (destruct fuel as [|fuel]; [lia|]).
  unfold Job.report. cbn [Job.report_loop Z.leb Z.compare Z.sub Z.add Z.opp
                          Z.pos_sub Pos.pred_double Z.succ_double Z.pred_double
                          Z.double].
  destruct (dtserver_report_job 0%nat) eqn:H0.
  { exists 0%nat. split; [lia|]. split; [lia|]. split; done. }
  destruct (dtserver_report_job 1%nat) eqn:H1.
  { exists 1%nat. split; [lia|]. split; [|split; done].
    intros k Hk. repeat (destruct k as [|k]; [done|]). lia. }
  destruct (dtserver_report_job 2%nat) eqn:H2.
  { exists 2%nat. split; [lia|]. split; [|split; done].
    intros k Hk. repeat (destruct k as [|k]; [done|]). lia. }
  destruct (dtserver_report_job 3%nat) eqn:H3.
  { exists 3%nat. split; [lia|]. split; [|split; done].
    intros k Hk. repeat (destruct k as [|k]; [done|]). lia. }
  destruct (dtserver_report_job 4%nat) eqn:H4.
  { exists 4%nat. split; [lia|]. split; [|split; done].
    intros k Hk. repeat (destruct k as [|k]; [done|]). lia. }
  destruct (dtserver_report_job 5%nat) eqn:H5.
  { exists 5%nat. split; [lia|]. split; [|split; done].
    intros k Hk. repeat (destruct k as [|k]; [done|]). lia. }
  exists 6%nat. split; [lia|]. split; [|split; [lia|done]].
  intros k Hk. repeat (destruct k as [|k]; [done|]). lia.
Qed.

Lemma X25_report_bounded_witness :
  exists m : nat,
    (m <= 6)%nat
    ∧ (forall k, (k < m)%nat -> (fun _ : nat => false) k = false)
    ∧ ((m < 6)%nat -> (fun _ : nat => false) m = true)
    ∧ Job.report 7 (fun _ => false) =
        Some (flat_map (fun k => [Job.Report_job k; Job.Warning_could_not_report;
                                  Job.Info_retrying (5 - Z.of_nat k) 10;
                                  Job.Sleep 10])
                       (seq 0 m)
              ++ if bool_decide (m < 6)%nat then [Job.Report_job m] else []).
Proof. apply (X25_report_bounded 7 (fun _ => false)). lia. Defined.

(** ** The files of a job that stay in the local cache *)

Section UploadFacts.

Context (shasum : string -> string) (guess_type : string -> option string).

Lemma copy_to_cache_Return realfile sha256hex (w w' : Runner.world) :
  Runner.copy_to_cache realfile sha256hex w = (w', Return tt) ->
  Runner.files w' = Runner.files w ∧ Runner.elog w' = Runner.elog w
  ∧ Runner.cache w ⊆ Runner.cache w'
  ∧ is_Some (Runner.cache w' !! sha256hex).
Proof.
  unfold Runner.copy_to_cache.
  destruct (Runner.files w !! realfile) as [content|]; [|done].
  destruct (Runner.cache w !! sha256hex) as [old|] eqn:Hc.
  - intros [= <-]. by rewrite Hc.
  - intros [= <-]. cbn. split; [done|]. split; [done|].
    split; [by apply insert_subseteq|]. by rewrite lookup_insert_eq.
Qed.

Lemma only_copy_to_cache_loop_Return toupload acc (w w' : Runner.world) uploaded :
  Job.only_copy_to_cache_loop shasum guess_type toupload acc w
    = (w', Return uploaded) ->
  Runner.files w' = Runner.files w ∧ Runner.elog w' = Runner.elog w
  ∧ Runner.cache w ⊆ Runner.cache w'
  ∧ exists new,
      uploaded = acc ++ new
      ∧ Forall2 (fun u item =>
                   exists content,
                     Runner.files w !! item.2 = Some content
                     ∧ String.length (shasum content) = 64%nat
                     ∧ is_Some (Runner.cache w' !! shasum content)
                     ∧ u = Job.mkUploaded (Z.of_nat (String.length content))
                             (Job.guess_mime_type guess_type item.2) item.1
                             (shasum content) ∅)
                new toupload.
Proof.
  revert acc w. induction toupload as [|[rpath realfile] toupload IH];
    intros acc w.
  - intros [= <- <-]. repeat split; [done|]. exists []. by rewrite app_nil_r.
  - cbn [Job.only_copy_to_cache_loop]. rewrite bind_run.
    unfold Job.compute_sha256hex at 1.
    destruct (Runner.files w !! realfile) as [content|] eqn:Hfile; [|done].
    case_bool_decide as Hlen; [|done].
    rewrite bind_run.
    destruct (Runner.copy_to_cache realfile (shasum content) w)
      as [w1 [[]|e]] eqn:Hcopy; [|done].
    destruct (copy_to_cache_Return _ _ _ _ Hcopy) as (Hf1 & He1 & Hc1 & Hin1).
    rewrite bind_run. unfold Runner.st_size at 1. rewrite Hf1, Hfile.
    intros Hloop. destruct (IH _ _ Hloop) as (Hf & He & Hc & new & -> & Hall).
    split; [congruence|]. split; [congruence|]. split; [by etrans|].
    eexists (_ :: new). split; [by rewrite <- app_assoc|].
    constructor.
    + exists content. cbn [fst snd]. split; [done|]. split; [done|].
      split; [|done]. destruct Hin1 as [c Hin1]. exists c.
      by eapply lookup_weaken.
    + eapply Forall2_impl; [exact Hall|]. intros u item (c & Hi & ? & ? & ?).
      exists c. by rewrite <- Hf1.
Qed.

(** X26: when no AWS configuration is given, the files of a job are only
    copied to the local cache.  When [only_copy_to_cache] returns, it
    returns one record for each file to upload, in their order; a record
    gives the relative path, the length of the file, its digest (of 64
    characters), the type guessed for it and an empty storage.  The run
    leaves the files and the log as they are, and only adds to the cache.
    Each digest is in the cache afterwards: a later run that is given such
    a record as an artefact of a previous step is served from the cache,
    while a runner whose cache lacks the digest cannot download it at
    all. *)
Theorem X26_cache_only_records toupload (w w' : Runner.world) uploaded :
  Job.only_copy_to_cache shasum guess_type toupload w = (w', Return uploaded) ->
  Runner.files w' = Runner.files w ∧ Runner.elog w' = Runner.elog w
  ∧ Runner.cache w ⊆ Runner.cache w'
  ∧ Forall2 (fun u item =>
               exists content,
                 Runner.files w !! item.2 = Some content
                 ∧ String.length (shasum content) = 64%nat
                 ∧ u = Job.mkUploaded (Z.of_nat (String.length content))
                         (Job.guess_mime_type guess_type item.2) item.1
                         (shasum content) ∅)
            uploaded toupload
  ∧ forall u, u ∈ uploaded ->
      let data := Runner.mkArtefact (Job.u_sha256hex u) (Job.u_size u)
                    (Job.u_storage u) in
      (forall aws_config s3 step_dir rpath,
         (Runner.download_artefact aws_config s3 step_dir rpath data w').2
         = Return tt)
      ∧ (forall aws_config s3 step_dir rpath (w0 : Runner.world),
           Runner.cache w0 !! Job.u_sha256hex u = None ->
           raises CouldNotDownloadAll
             (Runner.download_artefact aws_config s3 step_dir rpath data w0).2
           = true).
Proof.
  intros Hrun. apply only_copy_to_cache_loop_Return in Hrun
    as (Hf & He & Hc & new & -> & Hall).
  cbn [app]. split; [done|]. split; [done|]. split; [done|]. split.
  - eapply Forall2_impl; [exact Hall|]. intros u item (c & ? & ? & ? & ?).
    by exists c.
  - intros u Hu. apply list_elem_of_lookup in Hu as [i Hi].
    destruct (Forall2_lookup_l _ _ _ _ _ Hall Hi)
      as (item & _ & content & _ & _ & [c Hin] & ->).
    cbn [Job.u_sha256hex Job.u_size Job.u_storage]. split.
    + intros aws_config s3 step_dir rpath.
      by rewrite (download_artefact_hit aws_config s3 _ _ _ c).
    + intros aws_config s3 step_dir rpath w0 Hmiss.
      destruct (download_artefact_no_way aws_config s3 step_dir rpath
                  (Runner.mkArtefact (shasum content)
                     (Z.of_nat (String.length content)) ∅) w0)
        as [msg ->]; [done|by left|].
      done.
Qed.

End UploadFacts.

(** ** The configuration of a job *)

Lemma mapM_items_through {A B} (f : string -> yaml -> outcome B) (g : A -> yaml)
    (h : A -> B) (m : gmap string A) (l : list (string * yaml)) :
  (forall k a, m !! k = Some a -> f k (g a) = Return (h a)) ->
  (forall k v, (k, v) ∈ l -> exists a, v = g a ∧ m !! k = Some a) ->
  exists l', mapM_items f l = Return l' ∧ l'.*1 = l.*1
    ∧ forall k b, (k, b) ∈ l' -> exists a, m !! k = Some a ∧ b = h a.
Proof.
  intros Hf. induction l as [|[k v] l IH]; intros Hl.
  - exists []. split; [done|]. split; [done|]. intros k b Hkb.
    by apply elem_of_nil in Hkb.
  - destruct (Hl k v) as (a & -> & Ha); [left|].
    destruct IH as (l' & Hrun & Hfst & Hin); [intros; apply Hl; by right|].
    exists ((k, h a) :: l'). cbn [mapM_items]. rewrite (Hf k a Ha). cbn.
    rewrite Hrun. cbn. split; [done|]. split; [by rewrite Hfst|].
    intros k0 b0 [[= -> ->]|Hkb]%elem_of_cons; [eauto|by apply Hin].
Qed.

Lemma dict_mapM_through {A B} (f : string -> yaml -> outcome B) (g : A -> yaml)
    (h : A -> B) (m : gmap string A) :
  (forall k a, m !! k = Some a -> f k (g a) = Return (h a)) ->
  dict_mapM f (g <$> m) = Return (h <$> m).
Proof.
  intros Hf. unfold dict_mapM.
  destruct (mapM_items_through f g h m (map_to_list (g <$> m)) Hf)
    as (l' & -> & Hfst & Hin).
  { intros k v Hkv%elem_of_map_to_list.
    apply lookup_fmap_Some in Hkv as (b & <- & Hb). eauto. }
  cbn. f_equal. apply map_eq. intros i.
  assert (Hnd : NoDup l'.*1) by (rewrite Hfst; apply NoDup_fst_map_to_list).
  rewrite lookup_fmap. destruct (m !! i) as [a|] eqn:Hi; cbn.
  - assert (Hdom : i ∈ l'.*1).
    { rewrite Hfst. apply list_elem_of_fmap. exists (i, g a). split; [done|].
      apply elem_of_map_to_list. by rewrite lookup_fmap, Hi. }
    apply list_elem_of_fmap in Hdom as ([i' b'] & -> & Hib).
    destruct (Hin _ _ Hib) as (a' & Ha' & ->). cbn in Hi, Ha'.
    rewrite Ha' in Hi. injection Hi as ->. by apply elem_of_list_to_map_1.
  - apply not_elem_of_list_to_map_1.
    intros ([i' b'] & -> & Hib)%list_elem_of_fmap.
    destruct (Hin _ _ Hib) as (a' & Ha' & _). cbn in Hi. by rewrite Ha' in Hi.
Qed.

Lemma for_services_through {A} (body : ydict -> outcome ydict) (g h : A -> ydict)
    (m : gmap string A) (config : ydict) :
  config !! "services" = Some (YDict ((fun a => YDict (g a)) <$> m)) ->
  (forall k a, m !! k = Some a -> body (g a) = Return (h a)) ->
  Job.for_services body config
  = Return (<["services" := YDict ((fun a => YDict (h a)) <$> m)]> config).
Proof.
  intros Hs Hbody. unfold Job.for_services. rewrite Hs.
  rewrite (dict_mapM_through _ (fun a => YDict (g a)) (fun a => YDict (h a))).
  - done.
  - intros k a Ha. by rewrite (Hbody k a Ha).
Qed.

Section ConfigFacts.

Context (constants : Job.RunnerConstantsT) (UID : Z) (USERNAME : string).

(** What [get_config] returns, logs and leaves in its argument. *)
Lemma get_config_run (challenge_parameters_ : EvaluationParameters)
    (solution_container challenge_name challenge_step_name : string) :
  let extra := Job.extra_environment constants UID USERNAME
                 challenge_name challenge_step_name in
  let image' (sd : ServiceDefinition) :=
    if bool_decide (image sd = SUBMISSION_CONTAINER_TAG)
    then solution_container else image sd in
  Job.get_config constants UID USERNAME challenge_parameters_
    solution_container challenge_name challenge_step_name
  = Return (Job.mkConfigResult
      (mkEvaluationParameters (version challenge_parameters_)
         ((fun sd => mkServiceDefinition (image' sd) (extra ∪ environment sd)
                       (image_digest sd) None)
          <$> services challenge_parameters_))
      {[ "version" := version challenge_parameters_;
         "services" :=
           YDict ((fun sd => YDict {[ "image" := YStr (image' sd);
                                      "environment" := YDict (extra ∪ environment sd);
                                      "volumes" := Job.volumes constants ]})
                  <$> services challenge_parameters_) ]}
      {[ "version" := version challenge_parameters_;
         "services" :=
           YDict ((fun sd => YDict {[ "image" := YStr (image' sd);
                                      "environment" := YDict (extra ∪ environment sd);
                                      "volumes" := Job.volumes constants;
                                      "networks" := Job.networks_evaluator ]})
                  <$> services challenge_parameters_);
         "networks" := YDict {[ "evaluation" := YNull ]} ]}).
Proof.
  intros extra image'. unfold Job.get_config.
  fold extra.
  unfold Serialization.EvaluationParameters_as_dict. cbn [version services].
  rewrite <- !map_fmap_compose.
  erewrite (for_services_through _
    (fun sd => Serialization.ServiceDefinition_as_dict
                 (Job.fill_in solution_container sd))
    (fun sd => {[ "image" := YStr (image' sd);
                  "environment" := YDict (environment sd) ]})); cycle 1.
  { reflexivity. }
  { intros k a _. reflexivity. }
  cbn [mbind outcome_bind].
  erewrite (for_services_through _
    (fun sd => {[ "image" := YStr (image' sd);
                  "environment" := YDict (environment sd) ]})
    (fun sd => {[ "image" := YStr (image' sd);
                  "environment" := YDict (extra ∪ environment sd) ]})); cycle 1.
  { apply lookup_insert_eq. }
  { intros k a _. reflexivity. }
  cbn [mbind outcome_bind].
  erewrite (for_services_through _
    (fun sd => {[ "image" := YStr (image' sd);
                  "environment" := YDict (extra ∪ environment sd) ]})
    (fun sd => {[ "image" := YStr (image' sd);
                  "environment" := YDict (extra ∪ environment sd);
                  "volumes" := Job.volumes constants ]})); cycle 1.
  { apply lookup_insert_eq. }
  { intros k a _. reflexivity. }
  cbn [mbind outcome_bind].
  erewrite (for_services_through _
    (fun sd => {[ "image" := YStr (image' sd);
                  "environment" := YDict (extra ∪ environment sd);
                  "volumes" := Job.volumes constants ]})
    (fun sd => {[ "image" := YStr (image' sd);
                  "environment" := YDict (extra ∪ environment sd);
                  "volumes" := Job.volumes constants;
                  "networks" := Job.networks_evaluator ]})); cycle 1.
  { apply lookup_insert_eq. }
  { intros k a _. reflexivity. }
  cbn [mbind outcome_bind].
  reflexivity.
Qed.


(** X27: given the user id and the user name of the process,
    [get_config] always returns.  The configuration has the version
    of the parameters, the network [evaluation], and for each service of
    the parameters a service with four keys: the image, which is the
    solution container where the parameters name the submission, the
    environment of the service updated with the four variables of the
    runner, the five volumes and the network.  The digest of the image and
    the build are not part of it.  What is logged is the same before the
    networks are added.  The object of the parameters is changed by the
    call: its builds are gone, its submission images are replaced and its
    environments carry the variables of the runner. *)
Theorem X27_get_config_closed_form (challenge_parameters_ : EvaluationParameters)
    (solution_container challenge_name challenge_step_name : string) :
  let extra := Job.extra_environment constants UID USERNAME
                 challenge_name challenge_step_name in
  let image' (sd : ServiceDefinition) :=
    if bool_decide (image sd = SUBMISSION_CONTAINER_TAG)
    then solution_container else image sd in
  Job.get_config constants UID USERNAME challenge_parameters_
    solution_container challenge_name challenge_step_name
  = Return (Job.mkConfigResult
      (mkEvaluationParameters (version challenge_parameters_)
         ((fun sd => mkServiceDefinition (image' sd) (extra ∪ environment sd)
                       (image_digest sd) None)
          <$> services challenge_parameters_))
      {[ "version" := version challenge_parameters_;
         "services" :=
           YDict ((fun sd => YDict {[ "image" := YStr (image' sd);
                                      "environment" := YDict (extra ∪ environment sd);
                                      "volumes" := Job.volumes constants ]})
                  <$> services challenge_parameters_) ]}
      {[ "version" := version challenge_parameters_;
         "services" :=
           YDict ((fun sd => YDict {[ "image" := YStr (image' sd);
                                      "environment" := YDict (extra ∪ environment sd);
                                      "volumes" := Job.volumes constants;
                                      "networks" := Job.networks_evaluator ]})
                  <$> services challenge_parameters_);
         "networks" := YDict {[ "evaluation" := YNull ]} ]}).
Proof. apply get_config_run. Qed.

(** X28: [get_config] works on the object of the parameters it is given,
    and the object keeps the changes.  After a call with a solution
    container (whose name is not the tag of the submission itself), no
    service of the parameters has a build or names the submission any more,
    and the environments of the services carry the variables of the runner.
    A second call with the same object and the same names returns the
    configuration of the first one, whatever solution container it is
    given. *)
Theorem X28_get_config_changes_parameters
    (challenge_parameters_ : EvaluationParameters)
    (solution_container challenge_name challenge_step_name : string)
    (r : Job.get_config_result) :
  Job.get_config constants UID USERNAME challenge_parameters_
    solution_container challenge_name challenge_step_name = Return r ->
  solution_container ≠ SUBMISSION_CONTAINER_TAG ->
  (forall k sd,
     services (Job.challenge_parameters_after r) !! k = Some sd ->
     build sd = None
     ∧ image sd ≠ SUBMISSION_CONTAINER_TAG
     ∧ (forall sd0, services challenge_parameters_ !! k = Some sd0 ->
          image sd = if bool_decide (image sd0 = SUBMISSION_CONTAINER_TAG)
                     then solution_container else image sd0)
     ∧ forall x v,
         Job.extra_environment constants UID USERNAME
           challenge_name challenge_step_name !! x = Some v ->
         environment sd !! x = Some v)
  ∧ forall solution_container',
      Job.get_config constants UID USERNAME (Job.challenge_parameters_after r)
        solution_container' challenge_name challenge_step_name = Return r.
Proof.
  intros Hrun Hsc. rewrite get_config_run in Hrun. injection Hrun as <-.
  cbn [Job.challenge_parameters_after]. split.
  - intros k sd Hk. cbn [services] in Hk.
    apply lookup_fmap_Some in Hk as (sd0 & <- & Hk0). cbn.
    split; [done|]. split; [case_bool_decide; congruence|].
    split; [intros sd1; rewrite Hk0; by intros [= <-]|].
    intros x v Hx. by apply lookup_union_Some_l.
  - intros sc'. rewrite get_config_run. cbn [version services].
    rewrite <- !map_fmap_compose.
    assert (Himage : forall sd : ServiceDefinition,
              (if bool_decide
                    ((if bool_decide (image sd = SUBMISSION_CONTAINER_TAG)
                      then solution_container else image sd)
                     = SUBMISSION_CONTAINER_TAG)
               then sc'
               else if bool_decide (image sd = SUBMISSION_CONTAINER_TAG)
                    then solution_container else image sd)
              = if bool_decide (image sd = SUBMISSION_CONTAINER_TAG)
                then solution_container else image sd).
    { intros sd. repeat case_bool_decide; congruence. }
    assert (Henv : forall (extra env : ydict), extra ∪ (extra ∪ env) = extra ∪ env).
    { intros extra env. by rewrite (assoc_L (∪)), (idemp_L (∪)). }
    repeat match goal with
    | |- context [?f ∘ ?g <$> ?m] =>
        erewrite (map_fmap_ext (f ∘ g) _ m); cycle 1;
        [ intros k sd _; unfold compose;
          cbn [image environment image_digest build];
          rewrite Himage, Henv; reflexivity |]
    end.
    reflexivity.
Qed.

End ConfigFacts.

Lemma X26_cache_only_records_witness :
  Job.only_copy_to_cache
    (fun _ => "08c1fe03d3a6ef7dbfaccc04613ca561b11b5fd7e9d66b643436eb611dfba348")
    (fun _ => None) [("scores.yaml", "/wd/scores.yaml")]
    (Runner.mkWorld {[ "/wd/scores.yaml" := "a: 1" ]} ∅ [])
  = (Runner.mkWorld {[ "/wd/scores.yaml" := "a: 1" ]}
       {[ "08c1fe03d3a6ef7dbfaccc04613ca561b11b5fd7e9d66b643436eb611dfba348"
          := "a: 1" ]} [],
     Return [Job.mkUploaded 4 "text/yaml" "scores.yaml"
               "08c1fe03d3a6ef7dbfaccc04613ca561b11b5fd7e9d66b643436eb611dfba348"
               ∅])
  ∧ (Runner.download_artefact None ∅ "/wd/previous-steps/step1" "scores.yaml"
       (Runner.mkArtefact
          "08c1fe03d3a6ef7dbfaccc04613ca561b11b5fd7e9d66b643436eb611dfba348"
          4 ∅)
       (Runner.mkWorld {[ "/wd/scores.yaml" := "a: 1" ]}
          {[ "08c1fe03d3a6ef7dbfaccc04613ca561b11b5fd7e9d66b643436eb611dfba348"
             := "a: 1" ]} [])).2
    = Return tt
  ∧ raises CouldNotDownloadAll
      (Runner.download_artefact None ∅ "/wd/previous-steps/step1" "scores.yaml"
         (Runner.mkArtefact
            "08c1fe03d3a6ef7dbfaccc04613ca561b11b5fd7e9d66b643436eb611dfba348"
            4 ∅)
         Runner.empty_world).2
    = true.
Proof.
  assert (Hrun :
    Job.only_copy_to_cache
      (fun _ => "08c1fe03d3a6ef7dbfaccc04613ca561b11b5fd7e9d66b643436eb611dfba348")
      (fun _ => None) [("scores.yaml", "/wd/scores.yaml")]
      (Runner.mkWorld {[ "/wd/scores.yaml" := "a: 1" ]} ∅ [])
    = (Runner.mkWorld {[ "/wd/scores.yaml" := "a: 1" ]}
         {[ "08c1fe03d3a6ef7dbfaccc04613ca561b11b5fd7e9d66b643436eb611dfba348"
            := "a: 1" ]} [],
       Return [Job.mkUploaded 4 "text/yaml" "scores.yaml"
                 "08c1fe03d3a6ef7dbfaccc04613ca561b11b5fd7e9d66b643436eb611dfba348"
                 ∅])).
  { vm_compute. reflexivity. }
  split; [exact Hrun|].
  destruct (X26_cache_only_records _ _ _ _ _ _ Hrun) as (_ & _ & _ & _ & Hserved).
  destruct (Hserved _ (list_elem_of_here _ _)) as [Hhit Hmiss].
  split.
  - apply (Hhit None ∅ "/wd/previous-steps/step1" "scores.yaml").
  - apply (Hmiss None ∅ "/wd/previous-steps/step1" "scores.yaml"
             Runner.empty_world).
    vm_compute. reflexivity.
Defined.

Lemma X28_get_config_changes_parameters_witness :
  (r ← Job.get_config
        (Job.Build_RunnerConstantsT spec_layout "challenge-results" "previous-steps")
        1000 "runner"
        (mkEvaluationParameters (YStr "3")
           {[ "solution" := mkServiceDefinition SUBMISSION_CONTAINER_TAG
                              {[ "uid" := YInt 0 ]} YNull None ]})
        "registry/user/solution:1" "aido1_LF1" "step1";
  Job.get_config
    (Job.Build_RunnerConstantsT spec_layout "challenge-results" "previous-steps")
    1000 "runner" (Job.challenge_parameters_after r)
    "registry/user/solution:2" "aido1_LF1" "step1")
  = Job.get_config
      (Job.Build_RunnerConstantsT spec_layout "challenge-results" "previous-steps")
      1000 "runner"
      (mkEvaluationParameters (YStr "3")
         {[ "solution" := mkServiceDefinition SUBMISSION_CONTAINER_TAG
                            {[ "uid" := YInt 0 ]} YNull None ]})
      "registry/user/solution:1" "aido1_LF1" "step1".
Proof.
  pose proof (get_config_run
    (Job.Build_RunnerConstantsT spec_layout "challenge-results" "previous-steps")
    1000 "runner"
    (mkEvaluationParameters (YStr "3")
       {[ "solution" := mkServiceDefinition SUBMISSION_CONTAINER_TAG
                          {[ "uid" := YInt 0 ]} YNull None ]})
    "registry/user/solution:1" "aido1_LF1" "step1") as Hrun.
  cbv zeta in Hrun.
  assert (Hsc : "registry/user/solution:1" ≠ SUBMISSION_CONTAINER_TAG).
  { unfold SUBMISSION_CONTAINER_TAG. discriminate. }
  destruct (X28_get_config_changes_parameters _ _ _ _ _ _ _ _ Hrun Hsc)
    as [_ Hagain].
  rewrite Hrun. cbn [mbind outcome_bind]. apply Hagain.
Defined.
